(** * Playlet: the pipeline state store (MetadataCache), the upload service
    and the authentication handler

    A shallow embedding of [MetadataCache] (metadata-cache service), of
    [UploadService] (src/utils/upload-service.ts) and of [authHandler]
    with the functions it routes to, with the behaviour of the DynamoDB
    client and of the JavaScript built-ins they call, and the properties of
    the natural-language specification, and further properties of the
    code, stated over it.

    Layout: the JavaScript runtime fragment ([JS]), the DynamoDB model
    ([DynamoDB]), the classes and the handler ([MetadataCache],
    [UploadService], [AuthHandler]), then the lemmas and the theorems. *)

From Stdlib Require Import String Ascii ZArith List Bool Lia.
From stdpp Require Import base option gmap strings list fin_maps pretty.

#[local] Set Warnings "-register-all".
#[local] Open Scope string_scope.

(* ===================================================================== *)
(** ** JavaScript runtime fragment *)
(* ===================================================================== *)

Module JS.

(** Exceptions that reach the callers of the two classes.  [TypeError] is
    raised by the JavaScript runtime; the other two are the service
    exceptions with which [DynamoDBClient.send] rejects (the SDK turns every
    non-2xx answer of the service into a rejected promise). *)
Inductive Exception : Type :=
| TypeError
| ConditionalCheckFailedException
| ValidationException.

(** Outcome of evaluating an expression or of awaiting a promise. *)
Inductive Completion (A : Type) : Type :=
| Return (a : A)
| Throw (e : Exception).
Arguments Return {A} a.
Arguments Throw {A} e.

#[global] Instance Completion_ret : MRet Completion := fun A a => Return a.
#[global] Instance Completion_bind : MBind Completion := fun A B f c =>
  match c with
  | Return a => f a
  | Throw e => Throw e
  end.

(** The number type of the runtime (IEEE doubles) is kept abstract, with
    [Number.prototype.toString]. *)
Class NumberModel : Type := {
  number : Type;
  Number_toString : number -> string
}.

(** Values that reach [convertToMapAttribute]: what [JSON.parse] produces,
    and [undefined].  An object is the list of its own enumerable
    properties in property order (what [Object.entries] enumerates); a key
    given twice holds the value given last, as in a JSON text
    ([property]).  [JSON.parse] defines [__proto__] as an own property like
    any other.  Strings are sequences of code units in the range of
    [ascii]. *)
Inductive JSValue `{NumberModel} : Type :=
| JNull
| JUndefined
| JBool (b : bool)
| JNum (n : number)
| JStr (s : string)
| JArr (elems : list JSValue)
| JObj (props : list (string * JSValue)).

(** The value an object holds under [key]. *)
Fixpoint property `{NumberModel} (props : list (string * JSValue)) (key : string)
  : option JSValue :=
  match props with
  | [] => None
  | (k, v) :: props' =>
      match property props' key with
      | Some v' => Some v'
      | None => if String.eqb k key then Some v else None
      end
  end.

(** [typeof value] restricted to the answers the source tests for. *)
Inductive TypeTag : Type :=
| TUndefined | TObject | TBoolean | TNumber | TString.

Definition typeof `{NumberModel} (v : JSValue) : TypeTag :=
  match v with
  | JNull => TObject
  | JUndefined => TUndefined
  | JBool _ => TBoolean
  | JNum _ => TNumber
  | JStr _ => TString
  | JArr _ | JObj _ => TObject
  end.

(** The property key of array index [i]: its decimal numeral. *)
Definition index_key (i : nat) : string := pretty i.

(** Index-keyed entries of an array-like sequence, from index [i] on. *)
Fixpoint indexed_from {A : Type} (i : nat) (l : list A) : list (string * A) :=
  match l with
  | [] => []
  | x :: l' => (index_key i, x) :: indexed_from (S i) l'
  end.

Definition code_units `{NumberModel} (s : string) : list JSValue :=
  (fun c => JStr (String c EmptyString)) <$> list_ascii_of_string s.

(** [Object.entries(v)]: [ToObject] raises a TypeError on [null] and
    [undefined]; a boolean or number wrapper has no own enumerable
    property; a string exposes its code units under their indices; an array
    its elements under their indices. *)
Definition Object_entries `{NumberModel} (v : JSValue)
  : Completion (list (string * JSValue)) :=
  match v with
  | JNull | JUndefined => Throw TypeError
  | JBool _ | JNum _ => Return []
  | JStr s => Return (indexed_from 0 (code_units s))
  | JArr elems => Return (indexed_from 0 elems)
  | JObj props => Return props
  end.

End JS.
Export JS.

(* ===================================================================== *)
(** ** DynamoDB: attribute values *)
(* ===================================================================== *)

(** The tagged wire values of the store ([AttributeValue] of the SDK); the
    constructors are the type tags [S], [N], [BOOL], [NULL], [M] and [L]. *)
Inductive AttributeValue : Type :=
| AttrS (s : string)
| AttrN (n : string)
| AttrBOOL (b : bool)
| AttrNULL (b : bool)
| AttrM (m : gmap string AttributeValue)
| AttrL (l : list AttributeValue).

(** An item, and the content of an [M] tag: attribute name to value. *)
Abbreviation Item := (gmap string AttributeValue).

(* ===================================================================== *)
(** ** MetadataCache: the attribute encoder *)
(* ===================================================================== *)

Module Encoder.
Section WithNumbers.
Context `{NumberModel}.

(** [result[key] = value] for a tagged value, on the ordinary object
    [result].  The key [__proto__] reaches the setter inherited from
    [Object.prototype]: the value, an object, becomes the prototype of
    [result] and no property is defined, so that the field is not among
    the entries of [result] the client serializes. *)
Definition assign (key : string) (value : AttributeValue) (result : Item) : Item :=
  if String.eqb key "__proto__" then result else <[key := value]> result.

(** [entries.forEach(([key, value]) => { result[key] = f(value) })] on a
    fresh or partly filled [result]. *)
Definition forEach_assign (f : JSValue -> AttributeValue)
    (entries : list (string * JSValue)) (result : Item) : Item :=
  fold_left (fun result kv => assign kv.1 (f kv.2) result) entries result.

(** The same loop over the entries of an array, [(index_key i, elems[i])],
    written on the elements so that the recursion of the encoder is
    structural. *)
Definition forEach_assign_indexed (f : JSValue -> AttributeValue)
  : nat -> list JSValue -> Item -> Item :=
  fix go (i : nat) (elems : list JSValue) (result : Item) : Item :=
    match elems with
    | [] => result
    | e :: elems' => go (S i) elems' (assign (index_key i) (f e) result)
    end.

(** The tagged value the callback of [convertToMapAttribute] stores under
    [key] for a field holding [value].  The branches are those of the
    source, in its order; in the [typeof value === 'object'] branch the
    recursive call [this.convertToMapAttribute(value)] runs the loop on the
    entries of the array or object ([value] is not [null] there, so
    [Object.entries] returns them).  The recursion is written on the value
    of the field so that it is structural. *)
Fixpoint encodeField (value : JSValue) : AttributeValue :=
  match value with
  | JNull | JUndefined => AttrNULL true
  | JStr s => if String.eqb s "N/A" then AttrNULL true else AttrS s
  | JBool b => AttrBOOL b
  | JNum n => AttrN (Number_toString n)
  | JArr elems => AttrM (forEach_assign_indexed encodeField 0 elems ∅)
  | JObj props => AttrM (forEach_assign encodeField props ∅)
  end.

(** [MetadataCache.convertToMapAttribute(data)]. *)
Definition convertToMapAttribute (data : JSValue) : Completion Item :=
  entries ← Object_entries data;
  mret (forEach_assign encodeField entries ∅).

(** The source reads as one recursive function.  [callback self] is the
    arrow function passed to [forEach], with [self] for
    [this.convertToMapAttribute], and [forEach] runs it over the entries,
    stopping at the first exception; [convertToMapAttribute] satisfies the
    recursive equation written with them
    ([convertToMapAttribute_as_in_source]). *)
Definition callback (self : JSValue -> Completion Item)
    (result : Item) (entry : string * JSValue) : Completion Item :=
  let key := entry.1 in
  let value := entry.2 in
  match value with
  | JNull | JUndefined => mret (assign key (AttrNULL true) result)
  | JStr s =>
      if String.eqb s "N/A" then mret (assign key (AttrNULL true) result)
      else mret (assign key (AttrS s) result)
  | JBool b => mret (assign key (AttrBOOL b) result)
  | JNum n => mret (assign key (AttrN (Number_toString n)) result)
  | JArr _ | JObj _ => m ← self value; mret (assign key (AttrM m) result)
  end.

Fixpoint forEach {A B : Type} (f : A -> B -> Completion A) (entries : list B)
    (result : A) : Completion A :=
  match entries with
  | [] => mret result
  | entry :: entries' => result' ← f result entry; forEach f entries' result'
  end.

End WithNumbers.
End Encoder.
Export Encoder.

(* ===================================================================== *)
(** ** DynamoDB: the table behind [DynamoDBClient.send] *)
(* ===================================================================== *)

(** The model covers what the four operations of [MetadataCache] rely on:
    a table whose primary key is ([userId], [assetId]), both strings;
    [PutItem] under a condition; [UpdateItem] with [SET] actions on
    document paths.  Expressions are the strings the source builds and are
    parsed here.  The service refuses an empty string as the value of a key
    attribute, an empty attribute name behind a placeholder, and an [N]
    value that is not a number it can store.  The table is assumed to exist
    and to be reachable; the limits of the service on sizes and on the
    depth of nesting are outside the model.  A request the service refuses
    makes [send] raise: the SDK rejects the promise with the service
    exception, it does not resolve it with a non-200 status. *)

(** The strings the service accepts as the value of a key attribute, which
    is not empty and within a size, and as the content of an [N] tag,
    numerals within its range and precision.  They are left to the
    service; the empty key and what [Number.prototype.toString] prints for
    the three numbers that are not finite are not among them. *)
Class Service : Type := {
  accepts_key : string -> bool;
  accepts_number : string -> bool;
  refuses_empty_key : accepts_key EmptyString = false;
  refuses_NaN : accepts_number "NaN" = false;
  refuses_Infinity : accepts_number "Infinity" = false;
  refuses_negative_Infinity : accepts_number "-Infinity" = false
}.

Module DynamoDB.

(** *** Strings of expressions *)

Definition space : ascii := " "%char.

Fixpoint split_on (sep : ascii) (s : string) : list string :=
  match s with
  | EmptyString => [EmptyString]
  | String c s' =>
      if Ascii.eqb c sep then EmptyString :: split_on sep s'
      else match split_on sep s' with
           | [] => [String c EmptyString]
           | w :: ws => String c w :: ws
           end
  end.

Fixpoint strip_prefix (p s : string) : option string :=
  match p, s with
  | EmptyString, _ => Some s
  | String c p', String d s' =>
      if Ascii.eqb c d then strip_prefix p' s' else None
  | String _ _, EmptyString => None
  end.

Definition string_rev (s : string) : string :=
  string_of_list_ascii (rev (list_ascii_of_string s)).

Definition strip_suffix (p s : string) : option string :=
  string_rev <$> strip_prefix (string_rev p) (string_rev s).

Fixpoint trim_left (s : string) : string :=
  match s with
  | String c s' => if Ascii.eqb c space then trim_left s' else s
  | EmptyString => EmptyString
  end.

Definition trim (s : string) : string :=
  string_rev (trim_left (string_rev (trim_left s))).

Definition nonempty (s : string) : bool := negb (String.eqb s "").

(** *** Condition expressions

    The fragment [attribute_not_exists(a) AND ... AND attribute_not_exists(z)];
    the result is the list of the attribute names. *)

Definition parse_not_exists (token : string) : option string :=
  inner ← strip_prefix "attribute_not_exists(" token;
  name ← strip_suffix ")" inner;
  if nonempty name then Some name else None.

Fixpoint parse_conjunction (tokens : list string) : option (list string) :=
  match tokens with
  | [t] => name ← parse_not_exists t; Some [name]
  | t :: "AND" :: rest =>
      name ← parse_not_exists t;
      names ← parse_conjunction rest;
      Some (name :: names)
  | _ => None
  end.

Definition parse_condition (expr : string) : option (list string) :=
  parse_conjunction (filter (fun t => Is_true (nonempty t)) (split_on space expr)).

(** [attribute_not_exists(a)] against the item stored under the key of the
    request, if there is one. *)
Definition attribute_not_exists (existing : option Item) (a : string) : bool :=
  match existing with
  | None => true
  | Some item => bool_decide (item !! a = None)
  end.

(** *** Update expressions

    The fragment [SET path = :value, ..., path = :value], a path being a
    dot-separated sequence of attribute names or [#placeholders]. *)

Record SetAction : Type := {
  action_path : list string;
  action_operand : string
}.

Definition parse_action (text : string) : option SetAction :=
  match split_on "="%char text with
  | [lhs; rhs] =>
      let elements := split_on "."%char (trim lhs) in
      let operand := trim rhs in
      if forallb nonempty elements && bool_decide (is_Some (strip_prefix ":" operand))
      then Some {| action_path := elements; action_operand := operand |}
      else None
  | _ => None
  end.

Definition parse_update (expr : string) : option (list SetAction) :=
  actions ← strip_prefix "SET " expr;
  mapM parse_action (split_on ","%char actions).

Definition is_placeholder (element : string) : bool :=
  bool_decide (is_Some (strip_prefix "#" element)).

(** An element of a path is an attribute name, or a placeholder defined in
    [ExpressionAttributeNames]. *)
Definition resolve_element (names : gmap string string) (element : string)
  : option string :=
  if is_placeholder element then names !! element else Some element.

Definition resolve_action (names : gmap string string) (values : Item)
    (a : SetAction) : option (list string * AttributeValue) :=
  path ← mapM (resolve_element names) (action_path a);
  value ← values !! action_operand a;
  Some (path, value).

(** Every placeholder that is defined has to occur in the expression. *)
Definition names_used (names : gmap string string) (actions : list SetAction) : bool :=
  bool_decide (map_Forall (fun k _ => k ∈ concat (action_path <$> actions)) names).

Definition values_used (values : Item) (actions : list SetAction) : bool :=
  bool_decide (map_Forall (fun k _ => k ∈ action_operand <$> actions) values).

Fixpoint is_prefix (p q : list string) : bool :=
  match p, q with
  | [], _ => true
  | x :: p', y :: q' => String.eqb x y && is_prefix p' q'
  | _ :: _, [] => false
  end.

(** Two paths overlap when one leads into the other. *)
Definition overlap (p q : list string) : bool := is_prefix p q || is_prefix q p.

Fixpoint pairwise_disjoint (paths : list (list string)) : bool :=
  match paths with
  | [] => true
  | p :: rest => forallb (fun q => negb (overlap p q)) rest && pairwise_disjoint rest
  end.

Definition key_attributes : list string := ["userId"; "assetId"].

Definition touches_key (path : list string) : bool :=
  match path with
  | [] => true
  | top :: _ => bool_decide (top ∈ key_attributes)
  end.

(** *** Document paths *)

(** The value at a document path of an item. *)
Fixpoint get_path (path : list string) (item : Item) : option AttributeValue :=
  match path with
  | [] => None
  | [k] => item !! k
  | k :: rest =>
      match item !! k with
      | Some (AttrM m) => get_path rest m
      | _ => None
      end
  end.

(** [SET path = v]: every element but the last has to lead to an existing
    map; the last attribute is created or overwritten. *)
Fixpoint set_path (path : list string) (v : AttributeValue) (item : Item)
  : option Item :=
  match path with
  | [] => None
  | [k] => Some (<[k := v]> item)
  | k :: rest =>
      match item !! k with
      | Some (AttrM m) => m' ← set_path rest v m; Some (<[k := AttrM m']> item)
      | _ => None
      end
  end.

Definition apply_sets (sets : list (list string * AttributeValue)) (item : Item)
  : option Item :=
  foldl (fun acc pv => item ← acc; set_path pv.1 pv.2 item) (Some item) sets.

(** *** Requests *)

Record PutItemCommandInput : Type := {
  put_TableName : string;
  put_Item : Item;
  put_ConditionExpression : string
}.

Record UpdateItemCommandInput : Type := {
  upd_TableName : string;
  upd_Key : Item;
  upd_UpdateExpression : string;
  upd_ExpressionAttributeNames : option (gmap string string);
  upd_ExpressionAttributeValues : Item
}.

Inductive Command : Type :=
| PutItemCommand (input : PutItemCommandInput)
| UpdateItemCommand (input : UpdateItemCommandInput).

(** [response.$metadata]. *)
Record Response : Type := { httpStatusCode : Z }.

Definition primary_key (attrs : Item) : option (string * string) :=
  match attrs !! "userId", attrs !! "assetId" with
  | Some (AttrS u), Some (AttrS a) => Some (u, a)
  | _, _ => None
  end.

Abbreviation Table := (gmap (string * string) Item).

(** Every placeholder stands for an attribute name that is not empty. *)
Definition names_valid (names : gmap string string) : bool :=
  bool_decide (map_Forall (fun _ name => name <> EmptyString) names).

Section WithService.
Context `{Service}.

(** The service accepts the values of both key attributes. *)
Definition valid_key (key : string * string) : bool :=
  accepts_key key.1 && accepts_key key.2.

(** Every [N] tag of a value, at any depth, holds a number the service
    accepts. *)
Fixpoint numbers_accepted (v : AttributeValue) : bool :=
  match v with
  | AttrN n => accepts_number n
  | AttrM m => map_fold (fun _ v' rest => numbers_accepted v' && rest) true m
  | AttrL l => forallb numbers_accepted l
  | AttrS _ | AttrBOOL _ | AttrNULL _ => true
  end.

(** [PutItem] under its condition: on a key whose record fails the
    condition nothing is stored; otherwise the item is stored, if the
    service accepts it.  The service stores no record under a key it
    refuses, so that the refusal of a key is met where there is no
    record. *)
Definition PutItem (input : PutItemCommandInput) (t : Table) : Completion Table :=
  match parse_condition (put_ConditionExpression input), primary_key (put_Item input) with
  | Some attrs, Some key =>
      if forallb (attribute_not_exists (t !! key)) attrs
      then (if valid_key key && numbers_accepted (AttrM (put_Item input))
            then Return (<[key := put_Item input]> t)
            else Throw ValidationException)
      else Throw ConditionalCheckFailedException
  | _, _ => Throw ValidationException
  end.

Definition placeholder_names (input : UpdateItemCommandInput)
  : option (gmap string string) :=
  match upd_ExpressionAttributeNames input with
  | None => Some ∅
  | Some names => if bool_decide (names = ∅) then None else Some names
  end.

(** [UpdateItem] works on the stored item or, when there is none, on a new
    item that holds the key; nothing is written unless the service accepts
    the names and the values of the request and every action applies.  The
    key of a stored record was accepted when it was put. *)
Definition UpdateItem (input : UpdateItemCommandInput) (t : Table) : Completion Table :=
  let values := upd_ExpressionAttributeValues input in
  match primary_key (upd_Key input),
        parse_update (upd_UpdateExpression input),
        placeholder_names input with
  | Some key, Some actions, Some names =>
      match mapM (resolve_action names values) actions with
      | Some sets =>
          if names_used names actions && values_used values actions
             && pairwise_disjoint sets.*1
             && forallb (fun p => negb (touches_key p)) sets.*1
          then (if names_valid names && numbers_accepted (AttrM values)
                then match apply_sets sets (default (upd_Key input) (t !! key)) with
                     | Some item' => Return (<[key := item']> t)
                     | None => Throw ValidationException
                     end
                else Throw ValidationException)
          else Throw ValidationException
      | None => Throw ValidationException
      end
  | _, _, _ => Throw ValidationException
  end.

End WithService.
End DynamoDB.
Export DynamoDB.

(* ===================================================================== *)
(** ** The world of a caller: table, sent requests, wall clock *)
(* ===================================================================== *)

Module Effects.

(** [clock] gives the successive readings of the wall clock, rendered by
    [toISOString], in the order in which the calls that took them are
    applied; [tick] counts the readings taken so far.  No assumption is
    made on the readings: the clock of a host can be set back, the callers
    of one table need not share a host, and two requests need not reach the
    table in the order in which their callers read the clock. *)
Record World : Type := mkWorld {
  table : Table;
  requests : list Command;
  clock : nat -> string;
  tick : nat
}.

Definition Prog (A : Type) : Type := World -> Completion A * World.

#[global] Instance Prog_ret : MRet Prog := fun A a w => (Return a, w).
#[global] Instance Prog_bind : MBind Prog := fun A B f c w =>
  match c w with
  | (Return a, w') => f a w'
  | (Throw e, w') => (Throw e, w')
  end.

(** A pure computation inside an asynchronous method: its exception rejects
    the promise of the method. *)
Definition lift {A : Type} (c : Completion A) : Prog A := fun w => (c, w).

(** [new Date().toISOString()]. *)
Definition Date_now_toISOString : Prog string := fun w =>
  (Return (clock w (tick w)),
   mkWorld (table w) (requests w) (clock w) (S (tick w))).

(** [await this.dbclient.send(command)]: the request goes out, the table
    applies it, and the promise resolves with status 200 or rejects. *)
Definition send `{Service} (command : Command) : Prog Response := fun w =>
  let sent := (requests w ++ [command])%list in
  let outcome :=
    match command with
    | PutItemCommand input => PutItem input (table w)
    | UpdateItemCommand input => UpdateItem input (table w)
    end in
  match outcome with
  | Return t' => (Return {| httpStatusCode := 200 |}, mkWorld t' sent (clock w) (tick w))
  | Throw e => (Throw e, mkWorld (table w) sent (clock w) (tick w))
  end.

End Effects.
Export Effects.

(* ===================================================================== *)
(** ** MetadataCache *)
(* ===================================================================== *)

(** [enum MetadataPath]: string enums are strings at run time. *)
Module MetadataPath.
Definition VALIDATION_BASIC : string := "validation.basic".
Definition VALIDATION_STREAM : string := "validation.stream".
Definition METADATA_TECHNICAL : string := "metadata.technical".
Definition METADATA_QUALITY : string := "metadata.quality".
Definition METADATA_CONTENT : string := "metadata.content".
Definition members : list string :=
  [VALIDATION_BASIC; VALIDATION_STREAM; METADATA_TECHNICAL; METADATA_QUALITY;
   METADATA_CONTENT].
End MetadataPath.

(** [enum ProcessingStage]. *)
Module ProcessingStage.
Definition UPLOAD : string := "upload".
Definition VALIDATION : string := "validation".
Definition METADATA : string := "metadata".
Definition GOP_CREATION : string := "gopCreation".
Definition TRANSCODING : string := "transcoding".
Definition COMPLETION : string := "completion".
Definition DISTRIBUTION : string := "distribution".
Definition members : list string :=
  [UPLOAD; VALIDATION; METADATA; GOP_CREATION; TRANSCODING; COMPLETION;
   DISTRIBUTION].
End ProcessingStage.

(** An object literal: the properties are assigned left to right. *)
Definition object {V : Type} (props : list (string * V)) : gmap string V :=
  foldl (fun o kv => <[kv.1 := kv.2]> o) ∅ props.

Module MetadataCache.

Record UpdateCommandParams : Type := {
  UpdateExpression : string;
  ExpressionAttributeNames : gmap string string;
  ExpressionAttributeValues : Item
}.

(** The fields of the class the operations read. *)
Record t : Type := { table_name : string; region : string }.

(** [UPDATE_PATHS]. *)
Definition UPDATE_PATHS : gmap string (list string) :=
  object [
    (MetadataPath.VALIDATION_BASIC, ["metadata"; "validation"; "basic"]);
    (MetadataPath.VALIDATION_STREAM, ["metadata"; "validation"; "stream"]);
    (MetadataPath.METADATA_TECHNICAL, ["metadata"; "technical"]);
    (MetadataPath.METADATA_QUALITY, ["metadata"; "quality"]);
    (MetadataPath.METADATA_CONTENT, ["metadata"; "content"])
  ].

Section WithNumbers.
Context `{NumberModel} `{Service}.

(** [createUpdateCommand(path, data)].  [this.UPDATE_PATHS[path]] is an
    array for the five members of [MetadataPath] only; for any other
    string it is [undefined], or a member inherited from
    [Object.prototype], none of which has a [reduce] method, so that
    [pathParts.reduce(...)] raises a TypeError. *)
Definition createUpdateCommand (path : string) (data : JSValue)
  : Completion UpdateCommandParams :=
  match UPDATE_PATHS !! path with
  | None => Throw TypeError
  | Some pathParts =>
      let attributeNames :=
        foldl (fun acc part => <["#" +:+ part := part]> acc) ∅ pathParts in
      let expression :=
        "SET " +:+ String.concat "." ((fun p => "#" +:+ p) <$> pathParts) +:+ " = :data" in
      m ← convertToMapAttribute data;
      mret {| UpdateExpression := expression;
              ExpressionAttributeNames := attributeNames;
              ExpressionAttributeValues := object [(":data", AttrM m)] |}
  end.

Definition InitializeRecord (this : t) (userId assetId : string) : Prog bool :=
  createdAt ← Date_now_toISOString;
  updatedAt ← Date_now_toISOString;
  let command := PutItemCommand {|
    put_TableName := table_name this;
    put_Item := object [
      ("userId", AttrS userId);
      ("assetId", AttrS assetId);
      ("createdAt", AttrS createdAt);
      ("metadata", AttrM (object [
         ("validation", AttrM (object [
            ("basic", AttrM ∅);
            ("stream", AttrM ∅) ]));
         ("technical", AttrM ∅);
         ("quality", AttrM ∅);
         ("content", AttrM ∅) ]));
      ("progress", AttrM (object [
         ("upload", AttrBOOL false);
         ("validation", AttrBOOL false);
         ("metadata", AttrBOOL false);
         ("gopCreation", AttrBOOL false);
         ("transcoding", AttrBOOL false);
         ("completion", AttrBOOL false);
         ("distribution", AttrBOOL false);
         ("updatedAt", AttrS updatedAt);
         ("hasCriticalFailure", AttrBOOL false) ])) ];
    put_ConditionExpression :=
      "attribute_not_exists(userId) AND attribute_not_exists(assetId)" |} in
  response ← send command;
  mret (httpStatusCode response =? 200)%Z.

Definition updateMetadata (this : t) (userId assetId : string)
    (path : string) (data : JSValue) : Prog bool :=
  params ← lift (createUpdateCommand path data);
  let command := UpdateItemCommand {|
    upd_TableName := table_name this;
    upd_Key := object [("userId", AttrS userId); ("assetId", AttrS assetId)];
    upd_UpdateExpression := UpdateExpression params;
    upd_ExpressionAttributeNames := Some (ExpressionAttributeNames params);
    upd_ExpressionAttributeValues := ExpressionAttributeValues params |} in
  response ← send command;
  mret (httpStatusCode response =? 200)%Z.

End WithNumbers.

Definition updateProgress `{Service} (this : t) (userId assetId : string)
    (stage : string) (value : bool) : Prog bool :=
  time ← Date_now_toISOString;
  let command := UpdateItemCommand {|
    upd_TableName := table_name this;
    upd_Key := object [("userId", AttrS userId); ("assetId", AttrS assetId)];
    upd_UpdateExpression :=
      "SET progress.#stage = :value, progress.updatedAt = :time";
    upd_ExpressionAttributeNames := Some (object [("#stage", stage)]);
    upd_ExpressionAttributeValues :=
      object [(":value", AttrBOOL value); (":time", AttrS time)] |} in
  response ← send command;
  mret (httpStatusCode response =? 200)%Z.

Definition markCriticalFailure `{Service} (this : t) (userId assetId : string)
    (value : bool) : Prog bool :=
  time ← Date_now_toISOString;
  let command := UpdateItemCommand {|
    upd_TableName := table_name this;
    upd_Key := object [("userId", AttrS userId); ("assetId", AttrS assetId)];
    upd_UpdateExpression :=
      "SET progress.hasCriticalFailure = :value, progress.updatedAt = :time";
    upd_ExpressionAttributeNames := None;
    upd_ExpressionAttributeValues :=
      object [(":value", AttrBOOL value); (":time", AttrS time)] |} in
  response ← send command;
  mret (httpStatusCode response =? 200)%Z.

End MetadataCache.

(* ===================================================================== *)
(** ** UploadService *)
(* ===================================================================== *)

Module UploadService.

(** The numbers [parseInt] can return: [NaN], the negative zero, the two
    infinities, and [Num z], the double whose value is the integer [z]. *)
Inductive JSNumber : Type :=
| NaN
| NegZero
| Num (z : Z)
| PosInfinity
| NegInfinity.

(** The integer nearest to [m >= 0] among those a double can hold, ties
    going to the even significand: an integer of more than 53 bits keeps
    its 53 leading bits, rounded. *)
Definition nearest_double (m : Z) : Z :=
  let bits := (Z.log2 m + 1)%Z in
  if (bits <=? 53)%Z then m
  else
    let e := (bits - 53)%Z in
    let q := Z.shiftr m e in
    let r := (m - Z.shiftl q e)%Z in
    let half := Z.shiftl 1 (e - 1) in
    let q' := if (half <? r)%Z || ((r =? half)%Z && Z.odd q) then (q + 1)%Z else q in
    Z.shiftl q' e.

(** The Number value of a mathematical integer: the nearest double,
    infinite from [2 ^ 1024] on. *)
Definition Number_of_integer (z : Z) : JSNumber :=
  let m := nearest_double (Z.abs z) in
  if (2 ^ 1024 <=? m)%Z then (if (z <? 0)%Z then NegInfinity else PosInfinity)
  else Num (Z.sgn z * m).

(** White space of [TrimString] among the code units of [ascii]: TAB, LF, VT,
    FF, CR, SP and NBSP. *)
Definition is_white_space (c : ascii) : bool :=
  bool_decide (N_of_ascii c ∈ [9; 10; 11; 12; 13; 32; 160]%N).

Fixpoint trimStart (s : string) : string :=
  match s with
  | String c s' => if is_white_space c then trimStart s' else s
  | EmptyString => EmptyString
  end.

(** The value of a digit or letter as a digit of some radix up to 36. *)
Definition digit_value (c : ascii) : option Z :=
  let n := Z.of_N (N_of_ascii c) in
  if (48 <=? n)%Z && (n <=? 57)%Z then Some (n - 48)%Z
  else if (97 <=? n)%Z && (n <=? 122)%Z then Some (n - 87)%Z
  else if (65 <=? n)%Z && (n <=? 90)%Z then Some (n - 55)%Z
  else None.

Definition radix_digit (R : Z) (c : ascii) : option Z :=
  d ← digit_value c; if (d <? R)%Z then Some d else None.

(** The digits of the longest prefix made of radix-[R] digits. *)
Fixpoint leading_digits (R : Z) (s : string) : list Z :=
  match s with
  | String c s' =>
      match radix_digit R c with
      | Some d => d :: leading_digits R s'
      | None => []
      end
  | EmptyString => []
  end.

Definition radix_value (R : Z) (digits : list Z) : Z :=
  foldl (fun acc d => acc * R + d)%Z 0%Z digits.

Definition starts_with (P : ascii -> bool) (s : string) : bool :=
  match s with
  | String c _ => P c
  | EmptyString => false
  end.

Definition drop_first (s : string) : string :=
  match s with
  | String _ rest => rest
  | EmptyString => EmptyString
  end.

Definition is_sign (c : ascii) : bool :=
  Ascii.eqb c "+" || Ascii.eqb c "-".

(** [parseInt(string, radix)] (ECMAScript, sec-parseint-string-radix), for
    a radix in the Int32 range.  The value of the digits is exact, as the
    standard has it for the radix 2 of the source (for a radix other than
    2, 4, 8, 10, 16 and 32, and for the radix 10 beyond twenty digits, an
    implementation may approximate it). *)
Definition parseInt (input : string) (radix : Z) : JSNumber :=
  let S0 := trimStart input in
  let sign : Z := if starts_with (Ascii.eqb "-") S0 then (-1)%Z else 1%Z in
  let S1 := if starts_with is_sign S0 then drop_first S0 else S0 in
  if bool_decide (radix <> 0%Z) && ((radix <? 2)%Z || (36 <? radix)%Z) then NaN
  else
    let stripPrefix := bool_decide (radix = 0%Z) || bool_decide (radix = 16%Z) in
    let R0 := if bool_decide (radix = 0%Z) then 10%Z else radix in
    let hex := stripPrefix && (String.prefix "0x" S1 || String.prefix "0X" S1) in
    let S2 := if hex then drop_first (drop_first S1) else S1 in
    let R := if hex then 16%Z else R0 in
    match leading_digits R S2 with
    | [] => NaN
    | digits =>
        let mathInt := radix_value R digits in
        if bool_decide (mathInt = 0%Z)
        then (if bool_decide (sign = (-1)%Z) then NegZero else Num 0)
        else Number_of_integer (sign * mathInt)
    end.

(** Vocabulary for stating what [parseInt] returns, independent of the
    algorithm above: binary numerals and their value, and strings of
    decimal digits. *)
Definition is_binary_digit (c : ascii) : bool :=
  Ascii.eqb c "0" || Ascii.eqb c "1".

Definition is_decimal_digit (c : ascii) : bool :=
  (48 <=? N_of_ascii c)%N && (N_of_ascii c <=? 57)%N.

Definition all_units (P : ascii -> bool) (s : string) : bool :=
  forallb P (list_ascii_of_string s).

Definition some_unit (P : ascii -> bool) (s : string) : bool :=
  existsb P (list_ascii_of_string s).

Fixpoint binary_numeral (bits : list bool) : string :=
  match bits with
  | [] => EmptyString
  | b :: bits' => String (if b then "1" else "0")%char (binary_numeral bits')
  end.

Fixpoint binary_value (bits : list bool) : Z :=
  match bits with
  | [] => 0
  | b :: bits' => ((if b then 2 ^ Z.of_nat (length bits') else 0) + binary_value bits')%Z
  end.

Definition bit_value (b : bool) : Z := if b then 1%Z else 0%Z.

(** The number a sign and a magnitude denote. *)
Definition signed (sign : string) (magnitude : Z) : JSNumber :=
  if String.eqb sign "-"
  then (if bool_decide (magnitude = 0%Z) then NegZero
        else Number_of_integer (- magnitude))
  else Number_of_integer magnitude.

(** The value of a string of decimal digits. *)
Definition decimal_value (s : string) : Z :=
  foldl (fun acc c => acc * 10 + (Z.of_N (N_of_ascii c) - 48))%Z 0%Z
        (list_ascii_of_string s).

(** [String.prototype.padStart(targetLength, "0")] with a one-unit filler. *)
Definition padStart (targetLength : nat) (filler : ascii) (s : string) : string :=
  string_of_list_ascii (replicate (targetLength - String.length s) filler) +:+ s.

Record S3Client : Type := { client_region : string }.

Record t : Type := {
  s3Client : S3Client;
  region : string;
  bucket : string;
  uploadSizeLimit : JSNumber;
  uploadTimeLimit : JSNumber
}.

Definition constructor (bucket region uploadSizeLimit uploadTimeLimit : string) : t :=
  {| region := region;
     bucket := bucket;
     uploadSizeLimit := parseInt uploadSizeLimit 2;
     uploadTimeLimit := parseInt uploadTimeLimit 2;
     s3Client := {| client_region := region |} |}.

(** What [generateKey] reads from its environment: [Date.now()],
    [crypto.randomUUID()] and the UTC calendar fields of [new Date()]. *)
Record KeyEnv : Type := {
  Date_now : Z;
  randomUUID : string;
  UTCFullYear : Z;
  UTCMonth : Z;
  UTCDate : Z
}.

(** The options object handed to [createPresignedPost]; an entry of
    [Conditions] is the triple of the source. *)
Record PresignedPostOptions : Type := {
  Bucket : string;
  Key : string;
  Conditions : list (string * JSNumber * JSNumber);
  Expires : JSNumber
}.

Record PresignedPost : Type := { post_url : string }.

Record UploadServiceResponse : Type := { url : string; key : string }.

Section WithExternals.
(** [crypto.createHash('sha256').update(s).digest('hex')] and
    [createPresignedPost] of the SDK. *)
Variable sha256_hex : string -> string.
Variable createPresignedPost : S3Client -> PresignedPostOptions -> PresignedPost.

Definition generateKey (env : KeyEnv) (userId : string) : string :=
  let timestamp := Date_now env in
  let uniqueId := randomUUID env in
  let hash := String.substring 0 8
    (sha256_hex (userId +:+ "-" +:+ pretty timestamp +:+ "-" +:+ uniqueId)) in
  let year := UTCFullYear env in
  let month := padStart 2 "0" (pretty (UTCMonth env + 1)%Z) in
  let day := padStart 2 "0" (pretty (UTCDate env)) in
  pretty year +:+ "/" +:+ month +:+ "/" +:+ day +:+ "/" +:+ userId +:+ "/"
    +:+ hash +:+ "-" +:+ uniqueId.

(** The second argument of the call to [createPresignedPost]. *)
Definition presignedPostOptions (this : t) (key : string) : PresignedPostOptions :=
  {| Bucket := bucket this;
     Key := key;
     Conditions := [("content-length-range", Num 1, uploadSizeLimit this)];
     Expires := uploadTimeLimit this |}.

Definition generatePreSignedPost (this : t) (env : KeyEnv) (userId : string)
  : UploadServiceResponse :=
  let key := generateKey env userId in
  let presignedPost :=
    createPresignedPost (s3Client this) (presignedPostOptions this key) in
  {| url := post_url presignedPost; key := key |}.

End WithExternals.
End UploadService.

(* ===================================================================== *)
(** ** The authentication handler *)
(* ===================================================================== *)

(** [authHandler] and the six functions it routes to.  The collaborators
    they call are declared in other files: [ValidationService.validate],
    the methods of [authService], [exceptionHandlerFunction], and with them
    [JSON.parse] and [JSON.stringify], are the fields of [Collaborators];
    nothing is assumed about them, and each may throw.  [validate] and
    [exceptionHandlerFunction] are synchronous functions of their
    arguments; a method of [authService] acts on a state of its own, the
    user pool. *)
Module AuthHandler.

(** The members of [ErrorName], [Fault] and [ValidationField] the handler
    names. *)
Inductive ErrorName : Type := VALIDATION_ERROR | INTERNAL_ERROR.

Inductive Fault : Type := CLIENT | SERVER.

Inductive ValidationField : Type :=
| REQUEST_BODY | REQUEST_HEADERS | EMAIL | PASSWORD | ACCESS_TOKEN | OTP | REFRESH_TOKEN.

(** [new CustomError(name, message, statusCode, fault, flag)]: the
    arguments, in their order. *)
Record CustomError : Type := {
  error_name : ErrorName;
  error_message : string;
  error_statusCode : Z;
  error_fault : Fault;
  error_flag : bool
}.

(** What reaches the [catch] of the handler: an error made by [new
    CustomError] in this file, the TypeError of destructuring [undefined],
    the SyntaxError of [JSON.parse], or whatever a collaborator threw. *)
Inductive Thrown (F : Type) : Type :=
| ThrownCustomError (e : CustomError)
| ThrownTypeError
| ThrownSyntaxError
| ThrownFailure (f : F).
Arguments ThrownCustomError {F} e.
Arguments ThrownTypeError {F}.
Arguments ThrownSyntaxError {F}.
Arguments ThrownFailure {F} f.

Inductive Outcome (F A : Type) : Type :=
| Returns (a : A)
| Throws (t : Thrown F).
Arguments Returns {F A} a.
Arguments Throws {F A} t.

Record ValidationResponse : Type := {
  validation_success : bool;
  validation_message : string
}.

(** [request.headers]: the two properties the handler may define. *)
Record RequestHeaders : Type := {
  authorization : option string;
  x_access_token : option string
}.

(** [IRequest]; [body] is [JUndefined] when the event has none. *)
Record IRequest `{NumberModel} : Type := {
  headers : RequestHeaders;
  body : JSValue
}.

(** [IResponse], with [A] for what [authService] resolves to. *)
Record IResponse (A : Type) : Type := {
  success : bool;
  message : string;
  data : option A
}.
Arguments success {A} _.
Arguments message {A} _.
Arguments data {A} _.

(** What [exceptionHandlerFunction] returns. *)
Record ErrorResponse (M : Type) : Type := {
  statusCode : Z;
  errorMessage : string;
  metadata : M
}.
Arguments statusCode {M} _.
Arguments errorMessage {M} _.
Arguments metadata {M} _.

(** What the handler passes to [JSON.stringify]: the response of a route
    and [{success: false, message, body: {}, error}]; and, where the path
    names a member inherited from [Object.prototype], the request itself
    or a string. *)
Inductive Payload `{NumberModel} (A M : Type) : Type :=
| ResponsePayload (response : IResponse A)
| ErrorPayload (message : string) (error : M)
| RequestPayload (request : IRequest)
| TextPayload (text : string).
Arguments ResponsePayload {_ A M} response.
Arguments ErrorPayload {_ A M} message error.
Arguments RequestPayload {_ A M} request.
Arguments TextPayload {_ A M} text.

(** The calls of the methods of [authService], with their arguments. *)
Inductive AuthCall `{NumberModel} : Type :=
| createUser (email password : JSValue)
| login (email password : JSValue)
| logout (token : option string)
| forgetPassword (email : JSValue)
| confirmForgetPassword (email password answer : JSValue)
| refreshToken (token : JSValue).

Class Collaborators `{NumberModel} : Type := {
  Pool : Type;
  Answer : Type;
  Failure : Type;
  Metadata : Type;
  (** whether a value [authService] resolved to is truthy *)
  truthy : Answer -> bool;
  validate : IRequest -> list ValidationField -> Outcome Failure ValidationResponse;
  authService : AuthCall -> Pool -> Outcome Failure Answer * Pool;
  (** [JSON.parse]: [None] when it throws its SyntaxError *)
  JSON_parse : string -> option JSValue;
  exceptionHandlerFunction : Thrown Failure -> Outcome Failure (ErrorResponse Metadata);
  JSON_stringify : Payload Answer Metadata -> Outcome Failure string
}.

(** [APIGatewayProxyEvent], by the fields the handler reads; a header that
    is not sent is [undefined]. *)
Record APIGatewayProxyEvent : Type := {
  path : string;
  event_headers : gmap string string;
  event_body : option string
}.

Record APIGatewayProxyResult : Type := {
  result_statusCode : Z;
  result_body : string
}.

Section WithCollaborators.
Context `{Collaborators}.

(** The user pool and the calls [authService] has received. *)
Record AuthWorld : Type := mkAuthWorld {
  pool : Pool;
  service_calls : list AuthCall
}.

(** An asynchronous function: it acts on the world and resolves or rejects. *)
Definition Async (A : Type) : Type := AuthWorld -> Outcome Failure A * AuthWorld.

#[local] Instance Outcome_ret : MRet (Outcome Failure) := fun A a => Returns a.
#[local] Instance Outcome_bind : MBind (Outcome Failure) := fun A B f c =>
  match c with
  | Returns a => f a
  | Throws t => Throws t
  end.

#[local] Instance Async_ret : MRet Async := fun A a w => (Returns a, w).
#[local] Instance Async_bind : MBind Async := fun A B f c w =>
  match c w with
  | (Returns a, w') => f a w'
  | (Throws t, w') => (Throws t, w')
  end.

(** A synchronous step of an asynchronous function. *)
Definition sync {A : Type} (c : Outcome Failure A) : Async A := fun w => (c, w).

Definition throw {A : Type} (t : Thrown Failure) : Async A := fun w => (Throws t, w).

(** [await authService.method(arguments)]. *)
Definition await (call : AuthCall) : Async Answer := fun w =>
  let answer := authService call (pool w) in
  (answer.1, mkAuthWorld answer.2 (service_calls w ++ [call])%list).

(** [try { body } catch (error) { handler }]. *)
Definition try_catch {A : Type} (body : Async A) (handler : Thrown Failure -> Async A)
  : Async A := fun w =>
  match body w with
  | (Returns a, w') => (Returns a, w')
  | (Throws t, w') => handler t w'
  end.

(** The value of an own property of an object, [undefined] when it has
    none of that name. *)
Definition own_property (props : list (string * JSValue)) (name : string) : JSValue :=
  default JUndefined (property props name).

(** [const { name } = value]: destructuring [null] or [undefined] raises a
    TypeError; a boolean, a number, a string or an array has no property
    of the names the handler reads. *)
Definition destructure (value : JSValue) (name : string) : Outcome Failure JSValue :=
  match value with
  | JNull | JUndefined => Throws ThrownTypeError
  | JObj props => Returns (own_property props name)
  | _ => Returns JUndefined
  end.

(** [string.slice(start)]. *)
Fixpoint slice (start : nat) (s : string) : string :=
  match start, s with
  | 0, _ => s
  | S start', String _ s' => slice start' s'
  | S _, EmptyString => EmptyString
  end.

Definition validation_error (validationResult : ValidationResponse) : Thrown Failure :=
  ThrownCustomError {| error_name := VALIDATION_ERROR;
                       error_message := validation_message validationResult;
                       error_statusCode := 400;
                       error_fault := CLIENT;
                       error_flag := true |}.

Definition signupFunc (request : IRequest) : Async (IResponse Answer) :=
  validationResult ← sync (validate request [REQUEST_BODY; EMAIL; PASSWORD]);
  if negb (validation_success validationResult)
  then throw (validation_error validationResult)
  else
    email ← sync (destructure (body request) "email");
    password ← sync (destructure (body request) "password");
    createUserResponse ← await (createUser email password);
    if negb (truthy createUserResponse)
    then throw (ThrownCustomError {| error_name := INTERNAL_ERROR;
                                     error_message := "Signup Failed,Try Again Later!";
                                     error_statusCode := 500;
                                     error_fault := SERVER;
                                     error_flag := true |})
    else mret {| success := true; message := "Signup Successful"; data := None |}.

Definition loginFunc (request : IRequest) : Async (IResponse Answer) :=
  validationResult ← sync (validate request [REQUEST_BODY; EMAIL; PASSWORD]);
  if negb (validation_success validationResult)
  then throw (validation_error validationResult)
  else
    email ← sync (destructure (body request) "email");
    password ← sync (destructure (body request) "password");
    loginResponse ← await (login email password);
    if negb (truthy loginResponse)
    then throw (ThrownCustomError {| error_name := INTERNAL_ERROR;
                                     error_message := "Login failed, Try again";
                                     error_statusCode := 401;
                                     error_fault := CLIENT;
                                     error_flag := true |})
    else mret {| success := true; message := "Login, Successful!";
                 data := Some loginResponse |}.

Definition logoutFunc (request : IRequest) : Async (IResponse Answer) :=
  validationResult ← sync (validate request [REQUEST_HEADERS; ACCESS_TOKEN]);
  if negb (validation_success validationResult)
  then throw (validation_error validationResult)
  else
    let accessToken := x_access_token (headers request) in
    let token := slice 7 <$> accessToken in
    _ ← await (logout token);
    mret {| success := true; message := "Logged out successfully"; data := None |}.

Definition forgetPasswordFunc (request : IRequest) : Async (IResponse Answer) :=
  validationResult ← sync (validate request [REQUEST_BODY; EMAIL]);
  if negb (validation_success validationResult)
  then throw (validation_error validationResult)
  else
    email ← sync (destructure (body request) "email");
    forgetPasswordResponse ← await (forgetPassword email);
    if negb (truthy forgetPasswordResponse)
    then throw (ThrownCustomError {| error_name := INTERNAL_ERROR;
                                     error_message := "Unable to reset Password";
                                     error_statusCode := 500;
                                     error_fault := SERVER;
                                     error_flag := false |})
    else mret {| success := true; message := "Reset code sent successfully";
                 data := Some forgetPasswordResponse |}.

Definition confirmForgetPasswordFunc (request : IRequest) : Async (IResponse Answer) :=
  validationResult ← sync (validate request [REQUEST_BODY; EMAIL; PASSWORD; OTP]);
  if negb (validation_success validationResult)
  then throw (validation_error validationResult)
  else
    email ← sync (destructure (body request) "email");
    answer ← sync (destructure (body request) "answer");
    password ← sync (destructure (body request) "password");
    confirmForgetPasswordResponse ← await (confirmForgetPassword email password answer);
    if negb (truthy confirmForgetPasswordResponse)
    then throw (ThrownCustomError {| error_name := INTERNAL_ERROR;
                                     error_message := "Password Reset Failed";
                                     error_statusCode := 500;
                                     error_fault := SERVER;
                                     error_flag := false |})
    else mret {| success := true; message := "Password reset successfully"; data := None |}.

Definition refreshSessionFunc (request : IRequest) : Async (IResponse Answer) :=
  validationResult ← sync (validate request [REQUEST_BODY; REFRESH_TOKEN]);
  if negb (validation_success validationResult)
  then throw (validation_error validationResult)
  else
    token ← sync (destructure (body request) "refreshToken");
    sessionRefreshResponse ← await (refreshToken token);
    if negb (truthy sessionRefreshResponse)
    then throw (ThrownCustomError {| error_name := INTERNAL_ERROR;
                                     error_message := "Session Refresh Failed";
                                     error_statusCode := 500;
                                     error_fault := SERVER;
                                     error_flag := false |})
    else mret {| success := true; message := "Session Refresh Successful";
                 data := Some sessionRefreshResponse |}.

(** [executionFunctionMap]: the own properties of the object. *)
Definition executionFunctionMap : gmap string (IRequest -> Async (IResponse Answer)) :=
  object [
    ("/v1/auth/signup", signupFunc);
    ("/v1/auth/login", loginFunc);
    ("/v1/auth/logout", logoutFunc);
    ("/v1/auth/forget-password", forgetPasswordFunc);
    ("/v1/auth/forget-password/confirm", confirmForgetPasswordFunc);
    ("/v1/auth/session/refresh", refreshSessionFunc)
  ].

(** A header value is truthy when it is a non-empty string. *)
Definition truthy_header (value : option string) : bool :=
  match value with
  | Some s => negb (String.eqb s EmptyString)
  | None => false
  end.

(** [a || b]. *)
Definition logical_or (a b : option string) : option string :=
  if truthy_header a then a else b.

(** [...(value && { name: value })]: the property is defined when the
    value is truthy. *)
Definition spread_when_truthy (value : option string) : option string :=
  if truthy_header value then value else None.

(** The object literal [request] of the handler. *)
Definition request_of (event : APIGatewayProxyEvent) : Outcome Failure IRequest :=
  let h := event_headers event in
  let request_headers := {|
    authorization :=
      spread_when_truthy (logical_or (h !! "Authorization") (h !! "authorization"));
    x_access_token :=
      spread_when_truthy (logical_or (h !! "X-Access-Token") (h !! "x-access-token")) |} in
  parsed ← match event_body event with
           | Some text =>
               if truthy_header (Some text)
               then match JSON_parse text with
                    | Some value => Returns value
                    | None => Throws ThrownSyntaxError
                    end
               else Returns JUndefined
           | None => Returns JUndefined
           end;
  mret {| headers := request_headers; body := parsed |}.

(** What [executionFunctionMap[path]] evaluates to.  The map is an ordinary
    object: a path that is not one of its keys finds the member of that
    name of [Object.prototype], if there is one.  The handler calls what
    it found as a plain function, in the strict code of a module, so
    without a receiver.  [constructor] is the function [Object], which
    returns the object it is given; [toString] returns a string; each of
    the other functions raises a TypeError when it has no receiver, and
    [__proto__] is an object, whose call raises a TypeError. *)
Inductive Member : Type :=
| OwnRoute (f : IRequest -> Async (IResponse Answer))
| ObjectConstructor
| ObjectToString
| NotCallableHere
| NoMember.

Definition Object_prototype_names : list string :=
  ["constructor"; "toString"; "toLocaleString"; "valueOf"; "hasOwnProperty";
   "isPrototypeOf"; "propertyIsEnumerable"; "__defineGetter__"; "__defineSetter__";
   "__lookupGetter__"; "__lookupSetter__"; "__proto__"].

Definition member (path : string) : Member :=
  match executionFunctionMap !! path with
  | Some f => OwnRoute f
  | None =>
      if String.eqb path "constructor" then ObjectConstructor
      else if String.eqb path "toString" then ObjectToString
      else if bool_decide (path ∈ Object_prototype_names) then NotCallableHere
      else NoMember
  end.

(** [await executionFunction(request)], as what is then serialized. *)
Definition call_member (executionFunction : Member) (request : IRequest)
  : Async (Payload Answer Metadata) :=
  match executionFunction with
  | OwnRoute f => response ← f request; mret (ResponsePayload response)
  | ObjectConstructor => mret (RequestPayload request)
  | ObjectToString => mret (TextPayload "[object Undefined]")
  | NotCallableHere | NoMember => throw ThrownTypeError
  end.

Definition no_mapping (path : string) : Thrown Failure :=
  ThrownCustomError {| error_name := INTERNAL_ERROR;
                       error_message := "No Function Mapping Found For " +:+ path;
                       error_statusCode := 404;
                       error_fault := CLIENT;
                       error_flag := true |}.

(** The [catch] block of the handler. *)
Definition catch_block (error : Thrown Failure) : Async APIGatewayProxyResult :=
  errorResponse ← sync (exceptionHandlerFunction error);
  text ← sync (JSON_stringify (ErrorPayload (errorMessage errorResponse)
                                            (metadata errorResponse)));
  mret {| result_statusCode := statusCode errorResponse; result_body := text |}.

(** [authHandler(event, context)]; [context] is not read. *)
Definition authHandler (event : APIGatewayProxyEvent) : Async APIGatewayProxyResult :=
  try_catch
    (executionFunction ←
       match member (path event) with
       | NoMember => throw (no_mapping (path event))
       | found => mret found
       end;
     request ← sync (request_of event);
     response ← call_member executionFunction request;
     text ← sync (JSON_stringify response);
     mret {| result_statusCode := 200; result_body := text |})
    catch_block.

End WithCollaborators.
End AuthHandler.

(* ===================================================================== *)
(** ** Observations on records and runs *)
(* ===================================================================== *)

(** The shape every operation relies on and keeps: [metadata] and
    [metadata.validation] are maps, and so is [progress].  A record made by
    [InitializeRecord] has it. *)
Definition initialized (item : Item) : Prop :=
  exists metadata validation progress,
    item !! "metadata" = Some (AttrM metadata) /\
    metadata !! "validation" = Some (AttrM validation) /\
    item !! "progress" = Some (AttrM progress).

(** The two strings [updateProgress] cannot use as a stage: the service
    refuses a request that sets [progress.updatedAt] twice, and one whose
    placeholder stands for the empty name. *)
Definition refused_stage (stage : string) : bool :=
  String.eqb stage "updatedAt" || String.eqb stage EmptyString.

(** Every stored record has that shape. *)
Definition all_initialized (t : Table) : Prop :=
  forall key item, t !! key = Some item -> initialized item.

(** A stored item carries the key it is stored under. *)
Definition consistent (t : Table) : Prop :=
  forall key item, t !! key = Some item -> primary_key item = Some key.

(** The record [InitializeRecord] writes, by what the operations and the
    specification read from it. *)
Definition fresh_record (userId assetId createdAt updatedAt : string) (item : Item)
  : Prop :=
  primary_key item = Some (userId, assetId) /\
  item !! "createdAt" = Some (AttrS createdAt) /\
  (forall c p, MetadataCache.UPDATE_PATHS !! c = Some p ->
     get_path p item = Some (AttrM ∅)) /\
  (forall stage, stage ∈ ProcessingStage.members ->
     get_path ["progress"; stage] item = Some (AttrBOOL false)) /\
  get_path ["progress"; "hasCriticalFailure"] item = Some (AttrBOOL false) /\
  get_path ["progress"; "updatedAt"] item = Some (AttrS updatedAt) /\
  initialized item.

(** [progress.updatedAt] of an item, and of the record of ([userId],
    [assetId]). *)
Definition stamp_of (item : Item) : option string :=
  match get_path ["progress"; "updatedAt"] item with
  | Some (AttrS s) => Some s
  | _ => None
  end.

Definition updatedAt_of (w : World) (userId assetId : string) : option string :=
  table w !! (userId, assetId) ≫= stamp_of.

(** Time stamps are compared as the strings [toISOString] renders, which
    is the order of the instants for the years 0000 to 9999. *)
Definition ts_le (a b : string) : Prop := String.leb a b = true.

Definition monotone_clock (w : World) : Prop :=
  forall i j, i <= j -> ts_le (clock w i) (clock w j).

(** No stored [progress.updatedAt] is ahead of the readings still to come. *)
Definition stamps_in_past (w : World) : Prop :=
  forall userId assetId s, updatedAt_of w userId assetId = Some s ->
  forall j, tick w <= j -> ts_le s (clock w j).

(** [advances w w']: the clock is the same, readings were only consumed, and
    every [progress.updatedAt] is the former one or a reading taken in
    between. *)
Definition advances (w w' : World) : Prop :=
  clock w' = clock w /\ tick w <= tick w' /\
  forall u a, updatedAt_of w' u a = updatedAt_of w u a \/
              exists i, tick w <= i < tick w' /\ updatedAt_of w' u a = Some (clock w i).

(** Calls of the four operations, and what a caller that goes on after an
    exception leaves behind. *)
Inductive Call `{NumberModel} : Type :=
| CallInitializeRecord (userId assetId : string)
| CallUpdateMetadata (userId assetId : string) (path : string) (data : JSValue)
| CallUpdateProgress (userId assetId : string) (stage : string) (value : bool)
| CallMarkCriticalFailure (userId assetId : string) (value : bool).

Definition perform `{NumberModel} `{Service} (this : MetadataCache.t) (c : Call) (w : World)
  : Completion bool * World :=
  match c with
  | CallInitializeRecord u a => MetadataCache.InitializeRecord this u a w
  | CallUpdateMetadata u a path data => MetadataCache.updateMetadata this u a path data w
  | CallUpdateProgress u a stage value => MetadataCache.updateProgress this u a stage value w
  | CallMarkCriticalFailure u a value => MetadataCache.markCriticalFailure this u a value w
  end.

Definition run `{NumberModel} `{Service} (this : MetadataCache.t) (calls : list Call)
    (w : World)
  : World :=
  foldl (fun w c => (perform this c w).2) w calls.

(** The values the encoder produces: no list tag, no [{NULL: false}], no
    string ["N/A"], at any depth. *)
Inductive encoded : AttributeValue -> Prop :=
| encoded_S s : s <> "N/A" -> encoded (AttrS s)
| encoded_N n : encoded (AttrN n)
| encoded_BOOL b : encoded (AttrBOOL b)
| encoded_NULL : encoded (AttrNULL true)
| encoded_M m : map_Forall (fun _ v => encoded v) m -> encoded (AttrM m).

(** The types of the attributes a record is read by. *)
Definition is_map (v : option AttributeValue) : Prop := exists m, v = Some (AttrM m).
Definition is_flag (v : option AttributeValue) : Prop := exists b, v = Some (AttrBOOL b).
Definition is_text (v : option AttributeValue) : Prop := exists s, v = Some (AttrS s).

Definition well_typed (item : Item) : Prop :=
  is_text (item !! "createdAt") /\
  (forall c p, MetadataCache.UPDATE_PATHS !! c = Some p -> is_map (get_path p item)) /\
  (forall stage, stage ∈ ProcessingStage.members ->
     is_flag (get_path ["progress"; stage] item)) /\
  is_flag (get_path ["progress"; "hasCriticalFailure"] item) /\
  is_text (get_path ["progress"; "updatedAt"] item).

(** The key a call addresses. *)
Definition key_of `{NumberModel} (c : Call) : string * string :=
  match c with
  | CallInitializeRecord u a => (u, a)
  | CallUpdateMetadata u a _ _ => (u, a)
  | CallUpdateProgress u a _ _ => (u, a)
  | CallMarkCriticalFailure u a _ => (u, a)
  end.

(** The world after one reading of the clock has been taken. *)
Definition after_reading (w : World) : World :=
  mkWorld (table w) (requests w) (clock w) (S (tick w)).

(** The table after an [UpdateItem] on the record of ([userId], [assetId])
    whose actions amount to [f]; nothing is written when they do not
    apply. *)
Definition rewrite_record (f : Item -> option Item) (userId assetId : string) (t : Table)
  : Table :=
  match f (default (object [("userId", AttrS userId); ("assetId", AttrS assetId)])
                   (t !! (userId, assetId))) with
  | Some item' => <[(userId, assetId) := item']> t
  | None => t
  end.

(** The paths [executionFunctionMap] routes. *)
Definition routed_paths : list string :=
  ["/v1/auth/signup"; "/v1/auth/login"; "/v1/auth/logout"; "/v1/auth/forget-password";
   "/v1/auth/forget-password/confirm"; "/v1/auth/session/refresh"].

(** The fields the route of a path hands to [ValidationService.validate]. *)
Definition validated_fields (path : string) : list AuthHandler.ValidationField :=
  if String.eqb path "/v1/auth/signup"
  then [AuthHandler.REQUEST_BODY; AuthHandler.EMAIL; AuthHandler.PASSWORD]
  else if String.eqb path "/v1/auth/login"
  then [AuthHandler.REQUEST_BODY; AuthHandler.EMAIL; AuthHandler.PASSWORD]
  else if String.eqb path "/v1/auth/logout"
  then [AuthHandler.REQUEST_HEADERS; AuthHandler.ACCESS_TOKEN]
  else if String.eqb path "/v1/auth/forget-password"
  then [AuthHandler.REQUEST_BODY; AuthHandler.EMAIL]
  else if String.eqb path "/v1/auth/forget-password/confirm"
  then [AuthHandler.REQUEST_BODY; AuthHandler.EMAIL; AuthHandler.PASSWORD;
        AuthHandler.OTP]
  else if String.eqb path "/v1/auth/session/refresh"
  then [AuthHandler.REQUEST_BODY; AuthHandler.REFRESH_TOKEN]
  else [].

(** A call that raised did not return [true]. *)
Ltac not_true :=
  let Hfalse := fresh "Hfalse" in
  intros Hfalse; cbn [fst] in Hfalse; discriminate Hfalse.

(* ===================================================================== *)
(** ** Concrete inputs for examples *)
(* ===================================================================== *)

(** Numbers restricted to the integers, printed in decimal as
    [Number.prototype.toString] prints them. *)
Definition integer_numbers : NumberModel :=
  {| number := Z; Number_toString := pretty |}.

(** The fields of a metadata document. *)
Section SampleData.
#[local] Existing Instance integer_numbers.

Definition sample_fields : list (string * JSValue) :=
  [("codec", JStr "h264"); ("frames", JNum 300%Z); ("hdr", JBool false);
   ("notes", JStr "N/A"); ("chapters", JArr [JStr "intro"; JNull]);
   ("extra", JObj [])].

Definition technical_data : JSValue :=
  JObj [("codec", JStr "h264"); ("frames", JNum 300%Z)].

Definition quality_data : JSValue := JObj [("score", JNum 9%Z)].

End SampleData.

(** A clock given by its first readings. *)
Definition clock_of (readings : list string) (n : nat) : string :=
  default "9999-12-31T23:59:59.999Z" (readings !! n).

Definition cache : MetadataCache.t :=
  {| MetadataCache.table_name := "assets"; MetadataCache.region := "eu-west-1" |}.

(** An empty table under a clock that advances. *)
Definition empty_world : World :=
  mkWorld ∅ []
    (clock_of ["2024-05-01T10:00:00.000Z"; "2024-05-01T10:00:00.001Z";
               "2024-05-01T10:00:05.000Z"; "2024-05-01T10:00:09.250Z"]) 0.

(** An empty table under readings of which the fourth lies before the
    third. *)
Definition skewed_world : World :=
  mkWorld ∅ []
    (clock_of ["2024-05-01T10:00:00.000Z"; "2024-05-01T10:00:00.001Z";
               "2024-05-01T10:00:05.000Z"; "2024-05-01T09:59:58.000Z"]) 0.

(** A service for examples: the keys it accepts are the strings of 1 to
    1024 code units, the numbers the decimal numerals of the integers of
    at most 38 digits. *)
Definition integer_numeral (s : string) : bool :=
  let digits := if String.prefix "-" s then String.substring 1 (String.length s - 1) s
                else s in
  negb (String.eqb digits EmptyString) && (String.length digits <=? 38)%nat
  && forallb (fun c => (48 <=? N_of_ascii c)%N && (N_of_ascii c <=? 57)%N)
             (list_ascii_of_string digits).

Definition sample_service : Service :=
  {| accepts_key := fun s =>
       negb (String.eqb s EmptyString) && (String.length s <=? 1024)%nat;
     accepts_number := integer_numeral;
     refuses_empty_key := eq_refl;
     refuses_NaN := eq_refl;
     refuses_Infinity := eq_refl;
     refuses_negative_Infinity := eq_refl |}.

(** The two worlds after [InitializeRecord("u1", "a1")]. *)
Definition stored_world : World :=
  (@MetadataCache.InitializeRecord sample_service cache "u1" "a1" empty_world).2.

Definition skewed_stored_world : World :=
  (@MetadataCache.InitializeRecord sample_service cache "u1" "a1" skewed_world).2.

(** An environment for [generateKey], and a digest function that stands
    in for SHA-256 in examples. *)
Definition sample_env : UploadService.KeyEnv :=
  {| UploadService.Date_now := 1714557600000;
     UploadService.randomUUID := "123e4567-e89b-42d3-a456-426614174000";
     UploadService.UTCFullYear := 2024;
     UploadService.UTCMonth := 4;
     UploadService.UTCDate := 1 |}.

Definition sample_digest (_ : string) : string :=
  "9f86d081884c7d659a2feaa0c55ad015a3bf4f1b2b0b822cd15d6c15b0f00a08".

(** Collaborators for examples: a pool that counts the calls it received,
    a validator that asks for an object as body, a service that answers
    whether it was given a string first. *)
Definition sample_collaborators : AuthHandler.Collaborators (H := integer_numbers) :=
  {| AuthHandler.Pool := nat;
     AuthHandler.Answer := bool;
     AuthHandler.Failure := Empty_set;
     AuthHandler.Metadata := AuthHandler.Fault;
     AuthHandler.truthy := fun a => a;
     AuthHandler.validate := fun request fields =>
       AuthHandler.Returns
         {| AuthHandler.validation_success :=
              match AuthHandler.body request, fields with
              | JObj _, _ => true
              | _, AuthHandler.REQUEST_HEADERS :: _ => true
              | _, _ => false
              end;
            AuthHandler.validation_message := "Invalid request" |};
     AuthHandler.authService := fun call count =>
       (AuthHandler.Returns
          match call with
          | AuthHandler.createUser (JStr _) _ | AuthHandler.login (JStr _) _ => true
          | _ => false
          end, S count);
     AuthHandler.JSON_parse := fun text =>
       if String.eqb text "{}" then Some (JObj []) else None;
     AuthHandler.exceptionHandlerFunction := fun error =>
       AuthHandler.Returns
         match error with
         | AuthHandler.ThrownCustomError e =>
             {| AuthHandler.statusCode := AuthHandler.error_statusCode e;
                AuthHandler.errorMessage := AuthHandler.error_message e;
                AuthHandler.metadata := AuthHandler.error_fault e |}
         | _ =>
             {| AuthHandler.statusCode := 500;
                AuthHandler.errorMessage := "Internal Server Error";
                AuthHandler.metadata := AuthHandler.SERVER |}
         end;
     AuthHandler.JSON_stringify := fun payload =>
       AuthHandler.Returns
         match payload with
         | AuthHandler.ResponsePayload response => AuthHandler.message response
         | AuthHandler.ErrorPayload message _ => message
         | AuthHandler.RequestPayload _ => "[request]"
         | AuthHandler.TextPayload text => text
         end |}.

(** The world of the handler before any call of the service. *)
Definition no_calls : @AuthHandler.AuthWorld integer_numbers sample_collaborators :=
  @AuthHandler.mkAuthWorld integer_numbers sample_collaborators 0 [].

(* ===================================================================== *)
(** * Properties of the attribute encoder *)
(* ===================================================================== *)

Section EncoderFacts.
Context `{NumberModel}.

Lemma assign_lookup_proto key value (result : Item) :
  assign key value result !! "__proto__" = result !! "__proto__".
Proof.
  unfold assign. destruct (String.eqb_spec key "__proto__") as [->|Hne]; [done|].
  by apply lookup_insert_ne.
Qed.

Lemma assign_lookup_eq key value (result : Item) :
  key <> "__proto__" -> assign key value result !! key = Some value.
Proof.
  intros Hne. unfold assign. destruct (String.eqb_spec key "__proto__"); [done|].
  apply lookup_insert_eq.
Qed.

Lemma assign_lookup_ne key value (result : Item) k :
  key <> k -> assign key value result !! k = result !! k.
Proof.
  intros Hne. unfold assign. destruct (String.eqb key "__proto__"); [done|].
  by apply lookup_insert_ne.
Qed.

Lemma forEach_assign_cons f k v (entries : list (string * JSValue)) (result : Item) :
  forEach_assign f ((k, v) :: entries) result
  = forEach_assign f entries (assign k (f v) result).
Proof. reflexivity. Qed.

(** What the loop leaves under a key: nothing new under [__proto__], and
    under another key the value of the field of that name, which is the
    one given last. *)
Lemma forEach_assign_lookup f (entries : list (string * JSValue)) (result : Item) k :
  forEach_assign f entries result !! k =
  if String.eqb k "__proto__" then result !! k
  else match property entries k with
       | Some v => Some (f v)
       | None => result !! k
       end.
Proof.
  revert result. induction entries as [|[k' v'] entries IH]; intros result.
  - cbn. by destruct (String.eqb k "__proto__").
  - rewrite forEach_assign_cons, IH. cbn [property].
    destruct (String.eqb_spec k "__proto__") as [Heq|Hk].
    + rewrite Heq. apply assign_lookup_proto.
    + destruct (property entries k) as [v|]; [done|].
      destruct (String.eqb_spec k' k) as [->|Hne].
      * by apply assign_lookup_eq.
      * by apply assign_lookup_ne.
Qed.

Lemma property_is_Some (entries : list (string * JSValue)) k :
  is_Some (property entries k) <-> k ∈ entries.*1.
Proof.
  induction entries as [|[k' v'] entries IH]; cbn.
  - rewrite elem_of_nil. split; [by intros [? ?] | done].
  - rewrite elem_of_cons, <- IH.
    destruct (property entries k) as [v|].
    + split; [intros _; right; eauto | eauto].
    + destruct (String.eqb_spec k' k) as [->|Hne].
      * split; [by left | eauto].
      * split; [by intros [? ?] | intros [Heq | [? ?]]; congruence].
Qed.

Lemma property_elem_of (entries : list (string * JSValue)) k v :
  property entries k = Some v -> (k, v) ∈ entries.
Proof.
  induction entries as [|[k' v'] entries IH]; cbn; [done|].
  destruct (property entries k) as [v''|].
  - intros [= ->]. apply elem_of_cons. right. by apply IH.
  - destruct (String.eqb_spec k' k) as [->|Hne]; [|done].
    intros [= ->]. apply elem_of_cons. by left.
Qed.

(** Where no two fields share a name, a field is a property. *)
Lemma property_NoDup (entries : list (string * JSValue)) k v :
  NoDup entries.*1 -> (k, v) ∈ entries -> property entries k = Some v.
Proof.
  induction entries as [|[k' v'] entries IH]; cbn; intros Hnd Hin.
  - by apply elem_of_nil in Hin.
  - apply NoDup_cons in Hnd as [Hfresh Hnd].
    apply elem_of_cons in Hin as [[= -> ->] | Hin].
    + destruct (property entries k') as [v''|] eqn:Hp.
      * exfalso. apply Hfresh. apply property_is_Some. eauto.
      * by rewrite String.eqb_refl.
    + by rewrite (IH Hnd Hin).
Qed.

Lemma forEach_assign_notin f (entries : list (string * JSValue)) (result : Item) k :
  k ∉ entries.*1 ->
  forEach_assign f entries result !! k = result !! k.
Proof.
  intros Hk. rewrite forEach_assign_lookup.
  destruct (String.eqb k "__proto__"); [done|].
  destruct (property entries k) as [v|] eqn:Hp; [|done].
  exfalso. apply Hk. apply property_is_Some. eauto.
Qed.

Lemma forEach_assign_in f (entries : list (string * JSValue)) (result : Item) k v :
  NoDup entries.*1 -> (k, v) ∈ entries -> k <> "__proto__" ->
  forEach_assign f entries result !! k = Some (f v).
Proof.
  intros Hnd Hin Hk. rewrite forEach_assign_lookup.
  destruct (String.eqb_spec k "__proto__"); [done|].
  by rewrite (property_NoDup _ _ _ Hnd Hin).
Qed.

Lemma forEach_assign_dom f (entries : list (string * JSValue)) (result : Item) k :
  is_Some (forEach_assign f entries result !! k) <->
  (k ∈ entries.*1 /\ k <> "__proto__") \/ is_Some (result !! k).
Proof.
  rewrite forEach_assign_lookup, <- property_is_Some.
  destruct (String.eqb_spec k "__proto__") as [Heq|Hk].
  - split; [by right | intros [[_ ?] | ?]; done].
  - destruct (property entries k) as [v|].
    + split; [left; eauto | eauto].
    + split; [by right | intros [[[? ?] _] | ?]; done].
Qed.

(** The decimal numeral of an index starts with a digit. *)
Lemma pretty_N_go_head (x : N) (s : string) :
  (0 < x)%N -> exists c s', pretty_N_go x s = String c s' /\ c <> "_"%char.
Proof.
  revert s. induction (N.lt_wf_0 x) as [x _ IH]; intros s Hx.
  rewrite pretty_N_go_step by done.
  destruct (decide (x / 10 = 0)%N) as [Hzero | Hpos].
  - rewrite Hzero, pretty_N_go_0. eexists _, _. split; [reflexivity|].
    unfold pretty_N_char. by repeat case_match.
  - apply IH; [apply N.div_lt; lia | by apply N.neq_0_lt_0].
Qed.

Lemma index_key_not_proto i : index_key i <> "__proto__".
Proof.
  unfold index_key, pretty, pretty_nat, pretty, pretty_N.
  destruct (decide (N.of_nat i = 0)%N) as [_ | Hne]; [done|].
  destruct (pretty_N_go_head (N.of_nat i) EmptyString) as (c & s' & -> & Hc); [lia|].
  intros [= -> _]. done.
Qed.

Lemma forEach_assign_indexed_entries f i (elems : list JSValue) (result : Item) :
  forEach_assign_indexed f i elems result =
  forEach_assign f (indexed_from i elems) result.
Proof.
  revert i result. induction elems as [|e elems IH]; intros i result.
  - reflexivity.
  - cbn. apply IH.
Qed.

Lemma indexed_from_elem {A} (l : list A) i k x :
  (k, x) ∈ indexed_from i l <-> exists j, k = index_key (i + j) /\ l !! j = Some x.
Proof.
  revert i. induction l as [|y l IH]; intros i; cbn.
  - rewrite elem_of_nil. split; [tauto | intros (j & _ & Hj); done].
  - rewrite elem_of_cons, IH. split.
    + intros [Heq | (j & -> & Hj)].
      * injection Heq as -> ->. exists 0. by rewrite Nat.add_0_r.
      * exists (S j). by rewrite <- Nat.add_succ_comm.
    + intros ([|j] & -> & Hj).
      * left. cbn in Hj. injection Hj as ->. by rewrite Nat.add_0_r.
      * right. exists j. by rewrite Nat.add_succ_comm.
Qed.

Lemma indexed_from_keys {A} (l : list A) i k :
  k ∈ (indexed_from i l).*1 <-> exists j, j < length l /\ k = index_key (i + j).
Proof.
  rewrite list_elem_of_fmap. split.
  - intros ([k' x] & -> & Hin). apply indexed_from_elem in Hin as (j & -> & Hj).
    exists j. split; [by eapply lookup_lt_Some | done].
  - intros (j & Hlt & ->). destruct (lookup_lt_is_Some_2 l j Hlt) as [x Hx].
    exists (index_key (i + j), x). split; [done|].
    apply indexed_from_elem. eauto.
Qed.

Lemma index_key_inj i j : index_key i = index_key j -> i = j.
Proof. unfold index_key. apply (inj pretty). Qed.

Lemma indexed_from_NoDup {A} (l : list A) i : NoDup (indexed_from i l).*1.
Proof.
  revert i. induction l as [|y l IH]; intros i; cbn.
  - constructor.
  - apply NoDup_cons. split; [|apply IH].
    intros (j & _ & Heq)%indexed_from_keys. apply index_key_inj in Heq. lia.
Qed.

(** The unfolding of the recursive call of the source: in the
    [typeof value === 'object'] branch the field holds
    [{ M: this.convertToMapAttribute(value) }]. *)
Lemma encodeField_object (value : JSValue) :
  typeof value = TObject -> value <> JNull ->
  exists m, convertToMapAttribute value = Return m /\ encodeField value = AttrM m.
Proof.
  destruct value; try done; intros _ _; cbn.
  - eexists. split; [reflexivity|]. by rewrite forEach_assign_indexed_entries.
  - eexists. split; reflexivity.
Qed.

(** The recursive equation of the source. *)
Lemma convertToMapAttribute_as_in_source (data : JSValue) :
  convertToMapAttribute data =
  (entries ← Object_entries data;
   forEach (callback convertToMapAttribute) entries ∅).
Proof.
  assert (forall entries result,
            forEach (callback convertToMapAttribute) entries result
            = Return (forEach_assign encodeField entries result)) as Hloop.
  { induction entries as [|[key value] entries IH]; intros result; [reflexivity|].
    cbn [forEach].
    assert (callback convertToMapAttribute result (key, value)
            = Return (assign key (encodeField value) result)) as ->.
    { destruct value as [| | b | n | s | elems | props]; try reflexivity.
      - cbn. by destruct (String.eqb s "N/A").
      - destruct (encodeField_object (JArr elems)) as (m & Hm & ->); [done..|].
        unfold callback. cbn [fst snd]. by rewrite Hm. }
    cbn [mbind Completion_bind]. apply IH. }
  unfold convertToMapAttribute.
  destruct (Object_entries data) as [entries|e]; [|reflexivity].
  cbn [mbind Completion_bind]. by rewrite Hloop.
Qed.

End EncoderFacts.

(* ===================================================================== *)
(** * Properties of the pipeline state store *)
(* ===================================================================== *)

Module MetadataCacheFacts.
Import MetadataCache.

(** ** The expressions of the source, as the table reads them *)

Example condition_of_InitializeRecord :
  parse_condition "attribute_not_exists(userId) AND attribute_not_exists(assetId)"
  = Some ["userId"; "assetId"].
Proof. reflexivity. Qed.

Example expression_of_updateProgress :
  parse_update "SET progress.#stage = :value, progress.updatedAt = :time"
  = Some [ {| action_path := ["progress"; "#stage"]; action_operand := ":value" |};
           {| action_path := ["progress"; "updatedAt"]; action_operand := ":time" |} ].
Proof. reflexivity. Qed.

Example expression_of_markCriticalFailure :
  parse_update "SET progress.hasCriticalFailure = :value, progress.updatedAt = :time"
  = Some [ {| action_path := ["progress"; "hasCriticalFailure"];
              action_operand := ":value" |};
           {| action_path := ["progress"; "updatedAt"]; action_operand := ":time" |} ].
Proof. reflexivity. Qed.

Example command_of_updateMetadata :
  createUpdateCommand (H := integer_numbers) MetadataPath.VALIDATION_BASIC (JObj [])
  = Return {| UpdateExpression := "SET #metadata.#validation.#basic = :data";
              ExpressionAttributeNames :=
                object [("#metadata", "metadata"); ("#validation", "validation");
                        ("#basic", "basic")];
              ExpressionAttributeValues := object [(":data", AttrM ∅)] |}.
Proof. reflexivity. Qed.

Example expression_of_updateMetadata :
  parse_update "SET #metadata.#validation.#basic = :data"
  = Some [ {| action_path := ["#metadata"; "#validation"; "#basic"];
              action_operand := ":data" |} ].
Proof. reflexivity. Qed.

(** ** Document paths *)

Lemma set_path_cons2 k k1 rest v (item : Item) :
  set_path (k :: k1 :: rest) v item =
  match item !! k with
  | Some (AttrM m) => m' ← set_path (k1 :: rest) v m; Some (<[k := AttrM m']> item)
  | _ => None
  end.
Proof. reflexivity. Qed.

Lemma get_path_cons2 k k1 rest (item : Item) :
  get_path (k :: k1 :: rest) item =
  match item !! k with
  | Some (AttrM m) => get_path (k1 :: rest) m
  | _ => None
  end.
Proof. reflexivity. Qed.

(** What a successful [SET] on a nested path did. *)
Lemma set_path_cons2_Some k k1 rest v (item item' : Item) :
  set_path (k :: k1 :: rest) v item = Some item' ->
  exists m m', item !! k = Some (AttrM m) /\ set_path (k1 :: rest) v m = Some m' /\
               item' = <[k := AttrM m']> item.
Proof.
  rewrite set_path_cons2. intros Hset.
  destruct (item !! k) as [[| | | |m|]|]; try discriminate Hset.
  cbv beta iota in Hset.
  destruct (set_path (k1 :: rest) v m) as [m'|] eqn:Hm; cbn in Hset;
    [|discriminate Hset].
  injection Hset as <-. by exists m, m'.
Qed.

Lemma set_path_top k rest v (item item' : Item) k' :
  set_path (k :: rest) v item = Some item' -> k' <> k -> item' !! k' = item !! k'.
Proof.
  intros Hset Hne. destruct rest as [|k1 rest].
  - injection Hset as <-. by apply lookup_insert_ne.
  - apply set_path_cons2_Some in Hset as (m & m' & _ & _ & ->).
    by apply lookup_insert_ne.
Qed.

Lemma set_path_get_same path v (item item' : Item) :
  set_path path v item = Some item' -> get_path path item' = Some v.
Proof.
  revert item item'. induction path as [|k rest IH]; intros item item' Hset;
    [discriminate|].
  destruct rest as [|k1 rest].
  - injection Hset as <-. apply lookup_insert_eq.
  - apply set_path_cons2_Some in Hset as (m & m' & _ & Hm & ->).
    rewrite get_path_cons2, lookup_insert_eq. by apply (IH m).
Qed.

Lemma set_path_get_disjoint p q v (item item' : Item) :
  set_path p v item = Some item' -> overlap p q = false ->
  get_path q item' = get_path q item.
Proof.
  revert q item item'. induction p as [|k rest IH]; intros q item item' Hset Hov;
    [discriminate|].
  destruct q as [|k2 q]; [done|].
  unfold overlap in Hov. cbn [is_prefix] in Hov.
  destruct (String.eqb_spec k k2) as [<-|Hne].
  - rewrite String.eqb_refl in Hov. cbn in Hov.
    destruct rest as [|k1 rest]; [done|].
    destruct q as [|k3 q]; [by rewrite orb_true_r in Hov|].
    apply set_path_cons2_Some in Hset as (m & m' & Hk & Hm & ->).
    rewrite !get_path_cons2, lookup_insert_eq, Hk.
    eapply IH; [exact Hm | exact Hov].
  - assert (item' !! k2 = item !! k2) as Htop
      by (eapply set_path_top; [exact Hset | congruence]).
    destruct q as [|k3 q]; [exact Htop | by rewrite !get_path_cons2, Htop].
Qed.

(** ** The order on time stamps *)

Lemma ascii_compare_refl c : Ascii.compare c c = Eq.
Proof. unfold Ascii.compare. apply N.compare_refl. Qed.

Lemma string_compare_refl s : String.compare s s = Eq.
Proof. induction s as [|c s IH]; cbn; [done|]. by rewrite ascii_compare_refl. Qed.

Lemma ts_le_refl s : ts_le s s.
Proof. unfold ts_le, String.leb. by rewrite string_compare_refl. Qed.

Lemma string_compare_le_trans a b c :
  String.compare a b <> Gt -> String.compare b c <> Gt -> String.compare a c <> Gt.
Proof.
  revert b c. induction a as [|x a IH]; intros [|y b] [|z c]; cbn; try done.
  unfold Ascii.compare.
  destruct (N.compare_spec (N_of_ascii x) (N_of_ascii y)) as [Hxy|Hxy|Hxy];
  destruct (N.compare_spec (N_of_ascii y) (N_of_ascii z)) as [Hyz|Hyz|Hyz];
  destruct (N.compare_spec (N_of_ascii x) (N_of_ascii z)) as [Hxz|Hxz|Hxz];
  try done; try lia.
  apply IH.
Qed.

Lemma ts_le_trans a b c : ts_le a b -> ts_le b c -> ts_le a c.
Proof.
  unfold ts_le, String.leb. intros Hab Hbc.
  pose proof (string_compare_le_trans a b c) as Ht.
  destruct (String.compare a b), (String.compare b c), (String.compare a c);
    try done; exfalso; by apply Ht.
Qed.

(** ** The numbers of a request *)

Section Numbers.
Context `{Service}.

Lemma numbers_accepted_map (m : Item) :
  numbers_accepted (AttrM m) = true <->
  map_Forall (fun _ v => numbers_accepted v = true) m.
Proof.
  cbn [numbers_accepted].
  induction m as [|k v m Hk Hfold IH] using map_first_key_ind.
  - rewrite map_fold_empty. split; [intros _; apply map_Forall_empty | done].
  - rewrite map_fold_insert_first_key by done.
    rewrite andb_true_iff, IH, map_Forall_insert by done. reflexivity.
Qed.

Lemma numbers_accepted_data (m : Item) :
  numbers_accepted (AttrM (object [(":data", AttrM m)])) = numbers_accepted (AttrM m).
Proof.
  unfold object. cbn [foldl fst snd numbers_accepted].
  rewrite insert_empty, map_fold_singleton. apply andb_true_r.
Qed.

Lemma numbers_accepted_progress_values value now :
  numbers_accepted (AttrM (object [(":value", AttrBOOL value); (":time", AttrS now)])) = true.
Proof.
  apply numbers_accepted_map. unfold object. cbn [foldl fst snd].
  apply map_Forall_insert_2; [done|]. apply map_Forall_insert_2; [done|].
  apply map_Forall_empty.
Qed.

End Numbers.

(** ** What each operation does to the world *)

Lemma UpdateItem_sets `{Service} (input : UpdateItemCommandInput) (t : Table)
    key actions names sets :
  primary_key (upd_Key input) = Some key ->
  parse_update (upd_UpdateExpression input) = Some actions ->
  placeholder_names input = Some names ->
  mapM (resolve_action names (upd_ExpressionAttributeValues input)) actions = Some sets ->
  names_used names actions && values_used (upd_ExpressionAttributeValues input) actions
    && pairwise_disjoint sets.*1 && forallb (fun p => negb (touches_key p)) sets.*1 = true ->
  UpdateItem input t =
    if names_valid names && numbers_accepted (AttrM (upd_ExpressionAttributeValues input))
    then match apply_sets sets (default (upd_Key input) (t !! key)) with
         | Some item' => Return (<[key := item']> t)
         | None => Throw ValidationException
         end
    else Throw ValidationException.
Proof.
  intros Hk Hp Hn Hs Hc. unfold UpdateItem. rewrite Hk, Hp, Hn, Hs, Hc. reflexivity.
Qed.

Lemma names_valid_stage stage :
  names_valid (object [("#stage", stage)]) = negb (String.eqb stage EmptyString).
Proof.
  unfold names_valid, object. cbn [foldl fst snd]. rewrite insert_empty.
  destruct (String.eqb_spec stage EmptyString) as [->|Hne]; cbn [negb].
  - apply bool_decide_eq_false. intros Hall.
    eapply Hall; [apply lookup_singleton_eq | reflexivity].
  - apply bool_decide_eq_true. by apply map_Forall_singleton.
Qed.

Lemma UpdateItem_refused `{Service} (input : UpdateItemCommandInput) (t : Table)
    key actions names sets :
  primary_key (upd_Key input) = Some key ->
  parse_update (upd_UpdateExpression input) = Some actions ->
  placeholder_names input = Some names ->
  mapM (resolve_action names (upd_ExpressionAttributeValues input)) actions = Some sets ->
  names_used names actions && values_used (upd_ExpressionAttributeValues input) actions
    && pairwise_disjoint sets.*1 && forallb (fun p => negb (touches_key p)) sets.*1 = false ->
  UpdateItem input t = Throw ValidationException.
Proof.
  intros Hk Hp Hn Hs Hc. unfold UpdateItem. rewrite Hk, Hp, Hn, Hs, Hc. reflexivity.
Qed.

Lemma apply_sets_progress field value now (base : Item) :
  apply_sets [(["progress"; field], value); (["progress"; "updatedAt"], AttrS now)] base =
  match base !! "progress" with
  | Some (AttrM pm) =>
      Some (<["progress" := AttrM (<["updatedAt" := AttrS now]> (<[field := value]> pm))]> base)
  | _ => None
  end.
Proof.
  unfold apply_sets. cbn.
  destruct (base !! "progress") as [[| | | |pm|]|]; try reflexivity.
  cbn. rewrite lookup_insert_eq. cbn. by rewrite insert_insert_eq.
Qed.

Lemma key_item_lookup u a k :
  k <> "userId" -> k <> "assetId" ->
  (object [("userId", AttrS u); ("assetId", AttrS a)] : Item) !! k = None.
Proof.
  intros H1 H2. unfold object. cbn.
  rewrite lookup_insert_ne by done. rewrite lookup_insert_ne by done. apply lookup_empty.
Qed.

Lemma overlap_siblings parent f g :
  f <> g -> overlap [parent; f] [parent; g] = false.
Proof.
  intros Hne. unfold overlap. cbn [is_prefix]. rewrite String.eqb_refl.
  rewrite (proj2 (String.eqb_neq f g)) by done.
  by rewrite (proj2 (String.eqb_neq g f)).
Qed.

Lemma updateProgress_run `{Service} this u a stage value w :
  let now := clock w (tick w) in
  let base := default (object [("userId", AttrS u); ("assetId", AttrS a)]) (table w !! (u, a)) in
  exists cmd,
  updateProgress this u a stage value w =
  match (if refused_stage stage then None else
         match base !! "progress" with
         | Some (AttrM pm) =>
            Some (<["progress" := AttrM (<["updatedAt" := AttrS now]> (<[stage := AttrBOOL value]> pm))]> base)
         | _ => None
         end) with
  | Some item' =>
      (Return true, mkWorld (<[(u, a) := item']> (table w)) (requests w ++ [cmd])%list (clock w) (S (tick w)))
  | None =>
      (Throw ValidationException, mkWorld (table w) (requests w ++ [cmd])%list (clock w) (S (tick w)))
  end.
Proof.
  intros now base. eexists.
  unfold updateProgress, mbind, Prog_bind, Date_now_toISOString, send.
  cbn [table requests clock tick]. unfold refused_stage.
  destruct (String.eqb_spec stage "updatedAt") as [->|Hne]; cbn [orb].
  - erewrite UpdateItem_refused; [reflexivity | reflexivity ..].
  - erewrite (UpdateItem_sets _ _ (u, a)
      [{| action_path := ["progress"; "#stage"]; action_operand := ":value" |};
       {| action_path := ["progress"; "updatedAt"]; action_operand := ":time" |}]
      (object [("#stage", stage)])
      [(["progress"; stage], AttrBOOL value); (["progress"; "updatedAt"], AttrS (clock w (tick w)))]).
    + cbn [upd_Key upd_ExpressionAttributeValues].
      rewrite names_valid_stage, numbers_accepted_progress_values, andb_true_r.
      destruct (String.eqb stage EmptyString); cbn [negb]; [reflexivity|].
      rewrite apply_sets_progress. fold base. fold now.
      (destruct (base !! "progress") as [[| | | |pm|]|]; reflexivity).
    + reflexivity.
    + reflexivity.
    + reflexivity.
    + reflexivity.
    + apply andb_true_intro; split;
        [apply andb_true_intro; split; [apply andb_true_intro; split|]|].
      * reflexivity.
      * reflexivity.
      * cbn [fmap list_fmap fst pairwise_disjoint forallb].
        by rewrite overlap_siblings.
      * reflexivity.
Qed.

Lemma base_lookup_Some (t : Table) u a k (v : AttributeValue) :
  k <> "userId" -> k <> "assetId" ->
  default (object [("userId", AttrS u); ("assetId", AttrS a)]) (t !! (u, a)) !! k = Some v ->
  exists item, t !! (u, a) = Some item /\ item !! k = Some v.
Proof.
  intros H1 H2. destruct (t !! (u, a)) as [item|]; cbn [from_option id].
  - eauto.
  - by rewrite key_item_lookup.
Qed.

Lemma markCriticalFailure_run `{Service} this u a value w :
  let now := clock w (tick w) in
  let base := default (object [("userId", AttrS u); ("assetId", AttrS a)]) (table w !! (u, a)) in
  exists cmd,
  markCriticalFailure this u a value w =
  match base !! "progress" with
  | Some (AttrM pm) =>
      (Return true,
       mkWorld (<[(u, a) := <["progress" := AttrM (<["updatedAt" := AttrS now]>
                   (<["hasCriticalFailure" := AttrBOOL value]> pm))]> base]> (table w))
               (requests w ++ [cmd])%list (clock w) (S (tick w)))
  | _ =>
      (Throw ValidationException,
       mkWorld (table w) (requests w ++ [cmd])%list (clock w) (S (tick w)))
  end.
Proof.
  intros now base. eexists.
  unfold markCriticalFailure, mbind, Prog_bind, Date_now_toISOString, send.
  cbn [table requests clock tick].
  erewrite (UpdateItem_sets _ _ (u, a)
      [{| action_path := ["progress"; "hasCriticalFailure"]; action_operand := ":value" |};
       {| action_path := ["progress"; "updatedAt"]; action_operand := ":time" |}]
      ∅
      [(["progress"; "hasCriticalFailure"], AttrBOOL value);
       (["progress"; "updatedAt"], AttrS (clock w (tick w)))]);
    [| reflexivity ..].
  cbn [upd_Key upd_ExpressionAttributeValues].
  rewrite numbers_accepted_progress_values.
  replace (names_valid ∅) with true
    by (symmetry; apply bool_decide_eq_true, map_Forall_empty).
  cbn [andb]. rewrite apply_sets_progress. fold base. fold now.
  destruct (base !! "progress") as [[| | | |pm|]|]; reflexivity.
Qed.

Lemma UPDATE_PATHS_lookup c p :
  UPDATE_PATHS !! c = Some p ->
  (c, p) ∈ [ ("validation.basic", ["metadata"; "validation"; "basic"]);
             ("validation.stream", ["metadata"; "validation"; "stream"]);
             ("metadata.technical", ["metadata"; "technical"]);
             ("metadata.quality", ["metadata"; "quality"]);
             ("metadata.content", ["metadata"; "content"]) ].
Proof.
  unfold UPDATE_PATHS, object. cbn [foldl fst snd].
  unfold MetadataPath.VALIDATION_BASIC, MetadataPath.VALIDATION_STREAM,
    MetadataPath.METADATA_TECHNICAL, MetadataPath.METADATA_QUALITY,
    MetadataPath.METADATA_CONTENT.
  intros Hl.
  repeat (rewrite lookup_insert in Hl; case_decide;
          [injection Hl as <-; subst c; set_solver|]).
  by rewrite lookup_empty in Hl.
Qed.

Lemma leaf_path_head c p :
  UPDATE_PATHS !! c = Some p -> exists rest, p = "metadata" :: rest.
Proof.
  intros Hp. apply UPDATE_PATHS_lookup in Hp. rewrite !elem_of_cons, elem_of_nil in Hp.
  destruct Hp as [Hp|[Hp|[Hp|[Hp|[Hp|[]]]]]]; injection Hp as _ ->; by eexists.
Qed.

Lemma UPDATE_PATHS_members c :
  is_Some (UPDATE_PATHS !! c) <-> c ∈ MetadataPath.members.
Proof.
  split.
  - intros [p Hp]. apply UPDATE_PATHS_lookup in Hp.
    unfold MetadataPath.members, MetadataPath.VALIDATION_BASIC, MetadataPath.VALIDATION_STREAM,
      MetadataPath.METADATA_TECHNICAL, MetadataPath.METADATA_QUALITY,
      MetadataPath.METADATA_CONTENT.
    rewrite !elem_of_cons, elem_of_nil in Hp. rewrite !elem_of_cons, elem_of_nil.
    destruct Hp as [Hp|[Hp|[Hp|[Hp|[Hp|[]]]]]]; injection Hp as -> _; tauto.
  - unfold MetadataPath.members. rewrite !elem_of_cons, elem_of_nil.
    intros [->|[->|[->|[->|[->|[]]]]]]; eexists; reflexivity.
Qed.

Section UpdateMetadataRuns.
Context `{NumberModel} `{Service}.

Lemma updateMetadata_unknown this u a c data w :
  UPDATE_PATHS !! c = None ->
  updateMetadata this u a c data w = (Throw TypeError, w).
Proof.
  intros Hc. unfold updateMetadata, createUpdateCommand. rewrite Hc. reflexivity.
Qed.

Lemma updateMetadata_not_encodable this u a c data w e :
  convertToMapAttribute data = Throw e ->
  updateMetadata this u a c data w = (Throw TypeError, w).
Proof.
  intros Hd. unfold updateMetadata, createUpdateCommand.
  destruct (UPDATE_PATHS !! c); [|reflexivity].
  assert (e = TypeError) as ->
    by (destruct data; cbn in Hd; try discriminate Hd; by injection Hd).
  rewrite Hd. reflexivity.
Qed.

Lemma updateMetadata_run this u a c p data m w :
  UPDATE_PATHS !! c = Some p -> convertToMapAttribute data = Return m ->
  let base := default (object [("userId", AttrS u); ("assetId", AttrS a)]) (table w !! (u, a)) in
  exists cmd,
  updateMetadata this u a c data w =
  match (if numbers_accepted (AttrM m) then set_path p (AttrM m) base else None) with
  | Some item' =>
      (Return true,
       mkWorld (<[(u, a) := item']> (table w)) (requests w ++ [cmd])%list (clock w) (tick w))
  | None =>
      (Throw ValidationException,
       mkWorld (table w) (requests w ++ [cmd])%list (clock w) (tick w))
  end.
Proof.
  intros Hc Hd base.
  unfold updateMetadata, createUpdateCommand. rewrite Hc, Hd.
  unfold mbind, Prog_bind, Completion_bind, lift, mret, Completion_ret, send.
  cbn [table requests clock tick UpdateExpression ExpressionAttributeNames
       ExpressionAttributeValues].
  apply UPDATE_PATHS_lookup in Hc.
  rewrite !elem_of_cons, elem_of_nil in Hc.
  destruct Hc as [Hc|[Hc|[Hc|[Hc|[Hc|[]]]]]]; injection Hc as -> ->; eexists.
  all: erewrite (UpdateItem_sets _ _ (u, a)); [| reflexivity ..].
  all: cbn [upd_Key upd_ExpressionAttributeValues]; fold base.
  all: match goal with
       | |- context [names_valid ?names] =>
           replace (names_valid names) with true by (symmetry; by vm_compute)
       end.
  all: cbn [andb]; rewrite numbers_accepted_data.
  all: destruct (numbers_accepted (AttrM m)); [|reflexivity].
  all: unfold apply_sets; cbn [foldl fst snd mbind option_bind].
  all: match goal with |- context [set_path ?p ?v ?b] => destruct (set_path p v b) end;
       reflexivity.
Qed.
End UpdateMetadataRuns.

Lemma PutItem_eval `{Service} (input : PutItemCommandInput) (t : Table) key attrs :
  parse_condition (put_ConditionExpression input) = Some attrs ->
  primary_key (put_Item input) = Some key ->
  PutItem input t =
    if forallb (attribute_not_exists (t !! key)) attrs
    then (if valid_key key && numbers_accepted (AttrM (put_Item input))
          then Return (<[key := put_Item input]> t)
          else Throw ValidationException)
    else Throw ConditionalCheckFailedException.
Proof. intros Hc Hk. unfold PutItem. by rewrite Hc, Hk. Qed.

Section InitializeRecordRuns.
Context `{NumberModel} `{Service}.

Lemma InitializeRecord_run this u a w :
  exists cmd item,
  InitializeRecord this u a w =
    (if forallb (attribute_not_exists (table w !! (u, a))) ["userId"; "assetId"]
     then (if valid_key (u, a)
           then (Return true,
                 mkWorld (<[(u, a) := item]> (table w)) (requests w ++ [cmd])%list
                         (clock w) (S (S (tick w))))
           else (Throw ValidationException,
                 mkWorld (table w) (requests w ++ [cmd])%list (clock w) (S (S (tick w)))))
     else (Throw ConditionalCheckFailedException,
           mkWorld (table w) (requests w ++ [cmd])%list (clock w) (S (S (tick w)))))
  /\ fresh_record u a (clock w (tick w)) (clock w (S (tick w))) item.
Proof.
  eexists _, _. split.
  - unfold InitializeRecord, mbind, Prog_bind, Date_now_toISOString, send.
    cbn [table requests clock tick].
    erewrite (PutItem_eval _ _ (u, a) ["userId"; "assetId"]); [| reflexivity ..].
    cbn [put_Item].
    match goal with
    | |- context [numbers_accepted ?v] =>
        replace (numbers_accepted v) with true by (symmetry; by vm_compute)
    end.
    rewrite andb_true_r.
    destruct (forallb _ _); [|reflexivity]. destruct (valid_key (u, a)); reflexivity.
  - unfold fresh_record. repeat split; try reflexivity.
    + intros c p Hc. apply UPDATE_PATHS_lookup in Hc.
      rewrite !elem_of_cons, elem_of_nil in Hc.
      destruct Hc as [Hc|[Hc|[Hc|[Hc|[Hc|[]]]]]]; injection Hc as -> ->; reflexivity.
    + intros stage Hs. unfold ProcessingStage.members in Hs.
      rewrite !elem_of_cons, elem_of_nil in Hs.
      destruct Hs as [->|[->|[->|[->|[->|[->|[->|[]]]]]]]]; reflexivity.
    + eexists _, _, _. repeat split; reflexivity.
Qed.
End InitializeRecordRuns.

(** ** Readings consumed and stamps written *)

Lemma stamp_of_progress_write (item pm : Item) field v now :
  stamp_of (<["progress" := AttrM (<["updatedAt" := AttrS now]> (<[field := v]> pm))]> item)
  = Some now.
Proof.
  unfold stamp_of. rewrite get_path_cons2, lookup_insert_eq. cbn [get_path].
  by rewrite lookup_insert_eq.
Qed.

Lemma stamp_of_base (t : Table) u a :
  stamp_of (default (object [("userId", AttrS u); ("assetId", AttrS a)]) (t !! (u, a)))
  = t !! (u, a) ≫= stamp_of.
Proof.
  destruct (t !! (u, a)) as [item|]; cbn [default]; [reflexivity|].
  unfold stamp_of. rewrite get_path_cons2. by rewrite key_item_lookup.
Qed.

Lemma updatedAt_of_insert (t : Table) key item' reqs clk tk u a :
  updatedAt_of (mkWorld (<[key := item']> t) reqs clk tk) u a =
  if decide (key = (u, a)) then stamp_of item' else t !! (u, a) ≫= stamp_of.
Proof.
  unfold updatedAt_of. cbn [table]. rewrite lookup_insert.
  by case_decide.
Qed.

Lemma advances_refl w : advances w w.
Proof. repeat split; [lia | by left]. Qed.

Lemma advances_same_table w reqs n :
  tick w <= n -> advances w (mkWorld (table w) reqs (clock w) n).
Proof. intros Hn. repeat split; cbn; [lia | by left]. Qed.

Lemma advances_trans w1 w2 w3 : advances w1 w2 -> advances w2 w3 -> advances w1 w3.
Proof.
  intros (Hc1 & Ht1 & Hs1) (Hc2 & Ht2 & Hs2). repeat split.
  - congruence.
  - lia.
  - intros u a. destruct (Hs2 u a) as [Heq | (i & Hi & Heq)].
    + rewrite Heq. destruct (Hs1 u a) as [? | (i & Hi & ?)]; [by left|].
      right. exists i. split; [lia | done].
    + right. exists i. split; [lia | by rewrite <- Hc1].
Qed.

Lemma leaf_path_off_progress c p q :
  UPDATE_PATHS !! c = Some p -> overlap p ("progress" :: q) = false.
Proof.
  intros Hc. apply UPDATE_PATHS_lookup in Hc.
  rewrite !elem_of_cons, elem_of_nil in Hc.
  destruct Hc as [Hc|[Hc|[Hc|[Hc|[Hc|[]]]]]]; injection Hc as -> ->;
    destruct q; reflexivity.
Qed.

Section Advances.
Context `{NumberModel} `{Service}.

Lemma perform_advances this c w : advances w (perform this c w).2.
Proof.
  destruct c as [u0 a0 | u0 a0 path data | u0 a0 stage value | u0 a0 value]; cbn [perform].
  - destruct (InitializeRecord_run this u0 a0 w) as (cmd & item & -> & Hfresh).
    destruct (forallb _ _); [destruct (valid_key _)|]; cbn [snd].
    + repeat split; cbn [clock tick]; [lia|]. intros u a.
      rewrite updatedAt_of_insert. case_decide as Hk; [|by left].
      right. exists (S (tick w)). split; [lia|].
      destruct Hfresh as (_ & _ & _ & _ & _ & Hup & _). unfold stamp_of. by rewrite Hup.
    + apply advances_same_table; lia.
    + apply advances_same_table; lia.
  - destruct (UPDATE_PATHS !! path) as [p|] eqn:Hp;
      [| rewrite updateMetadata_unknown by done; apply advances_refl].
    destruct (convertToMapAttribute data) as [m|e] eqn:Hd;
      [| erewrite updateMetadata_not_encodable by done; apply advances_refl].
    destruct (updateMetadata_run this u0 a0 path p data m w Hp Hd) as (cmd & ->).
    destruct (numbers_accepted (AttrM m));
      [| cbn [snd]; apply advances_same_table; lia].
    destruct (set_path p (AttrM m) _) as [item'|] eqn:Hset; cbn [snd].
    + repeat split; cbn [clock tick]; [lia|]. intros u a. left.
      rewrite updatedAt_of_insert. case_decide as Hk; [|reflexivity].
      injection Hk as <- <-. unfold updatedAt_of. rewrite <- stamp_of_base.
      unfold stamp_of. erewrite set_path_get_disjoint; [reflexivity | exact Hset |].
      by eapply leaf_path_off_progress.
    + apply advances_same_table; lia.
  - destruct (updateProgress_run this u0 a0 stage value w) as (cmd & ->).
    destruct (refused_stage stage);
      [apply advances_same_table; lia|].
    destruct (_ !! "progress") as [[| | | |pm|]|]; cbn [snd];
      try (apply advances_same_table; lia).
    repeat split; cbn [clock tick]; [lia|]. intros u a.
    rewrite updatedAt_of_insert. case_decide as Hk; [|by left].
    right. exists (tick w). split; [lia|]. apply stamp_of_progress_write.
  - destruct (markCriticalFailure_run this u0 a0 value w) as (cmd & ->).
    destruct (_ !! "progress") as [[| | | |pm|]|]; cbn [snd];
      try (apply advances_same_table; lia).
    repeat split; cbn [clock tick]; [lia|]. intros u a.
    rewrite updatedAt_of_insert. case_decide as Hk; [|by left].
    right. exists (tick w). split; [lia|]. apply stamp_of_progress_write.
Qed.

Lemma run_app this calls1 calls2 w :
  run this (calls1 ++ calls2)%list w = run this calls2 (run this calls1 w).
Proof. unfold run. apply foldl_app. Qed.

Lemma run_advances this calls w : advances w (run this calls w).
Proof.
  revert w. induction calls as [|c calls IH]; intros w.
  - apply advances_refl.
  - change (run this (c :: calls) w) with (run this calls (perform this c w).2).
    eapply advances_trans; [apply perform_advances | apply IH].
Qed.

Lemma advances_keeps_order w w' :
  monotone_clock w -> stamps_in_past w -> advances w w' ->
  (forall u a s s', updatedAt_of w u a = Some s -> updatedAt_of w' u a = Some s' ->
                    ts_le s s') /\
  monotone_clock w' /\ stamps_in_past w'.
Proof.
  intros Hmono Hpast (Hc & Ht & Hs). repeat split.
  - intros u a s s' Hs0 Hs1. destruct (Hs u a) as [Heq | (i & Hi & Heq)].
    + rewrite Heq, Hs0 in Hs1. injection Hs1 as <-. apply ts_le_refl.
    + rewrite Heq in Hs1. injection Hs1 as <-. eapply Hpast; [exact Hs0 | lia].
  - unfold monotone_clock. rewrite Hc. exact Hmono.
  - intros u a s Hs1 j Hj. rewrite Hc.
    destruct (Hs u a) as [Heq | (i & Hi & Heq)].
    + rewrite Heq in Hs1. eapply Hpast; [exact Hs1 | lia].
    + rewrite Heq in Hs1. injection Hs1 as <-. apply Hmono. lia.
Qed.
End Advances.

(** ** The operations on records *)

Lemma leaf_paths_disjoint c1 c2 p1 p2 :
  UPDATE_PATHS !! c1 = Some p1 -> UPDATE_PATHS !! c2 = Some p2 -> c1 <> c2 ->
  overlap p1 p2 = false.
Proof.
  intros H1 H2 Hne. apply UPDATE_PATHS_lookup in H1, H2.
  rewrite !elem_of_cons, elem_of_nil in H1, H2.
  destruct H1 as [H1|[H1|[H1|[H1|[H1|[]]]]]]; injection H1 as -> ->;
  destruct H2 as [H2|[H2|[H2|[H2|[H2|[]]]]]]; injection H2 as -> ->;
  first [congruence | reflexivity].
Qed.

Lemma overlap_sym p q : overlap p q = overlap q p.
Proof. unfold overlap. apply orb_comm. Qed.

(** A write to a leaf of an initialized record applies, keeps the shape and
    leaves every attribute but [metadata] as it was. *)
Lemma set_leaf c p v (item : Item) :
  UPDATE_PATHS !! c = Some p -> initialized item ->
  exists item', set_path p v item = Some item' /\ initialized item' /\
                forall k, k <> "metadata" -> item' !! k = item !! k.
Proof.
  intros Hc (md & vd & pm & Hmd & Hvd & Hpm). apply UPDATE_PATHS_lookup in Hc.
  rewrite !elem_of_cons, elem_of_nil in Hc.
  destruct Hc as [Hc|[Hc|[Hc|[Hc|[Hc|[]]]]]]; injection Hc as -> ->.
  1,2: rewrite set_path_cons2, Hmd, set_path_cons2, Hvd; cbn [set_path mbind option_bind].
  3,4,5: rewrite set_path_cons2, Hmd; cbn [set_path mbind option_bind].
  all: eexists; split; [reflexivity|]; split;
    [| by intros k Hk; rewrite lookup_insert_ne].
  all: eexists _, _, _; rewrite lookup_insert_eq; split; [reflexivity|]; split;
    [| by rewrite lookup_insert_ne].
  1,2: by rewrite lookup_insert_eq.
  all: by rewrite lookup_insert_ne.
Qed.

Lemma stage_not_updatedAt stage :
  stage ∈ ProcessingStage.members -> stage <> "updatedAt" /\ stage <> "hasCriticalFailure".
Proof.
  unfold ProcessingStage.members. rewrite !elem_of_cons, elem_of_nil.
  intros [->|[->|[->|[->|[->|[->|[->|[]]]]]]]]; split; discriminate.
Qed.

Lemma primary_key_insert (item : Item) k v :
  k <> "userId" -> k <> "assetId" -> primary_key (<[k := v]> item) = primary_key item.
Proof. intros H1 H2. unfold primary_key. by rewrite !lookup_insert_ne. Qed.

Lemma consistent_insert (t : Table) key item :
  consistent t -> primary_key item = Some key -> consistent (<[key := item]> t).
Proof.
  intros Ht Hk key' item'. rewrite lookup_insert. case_decide as Heq.
  - intros [= <-]. by subst.
  - apply Ht.
Qed.

Lemma stage_not_refused stage :
  stage ∈ ProcessingStage.members -> refused_stage stage = false.
Proof.
  unfold ProcessingStage.members. rewrite !elem_of_cons, elem_of_nil.
  intros [->|[->|[->|[->|[->|[->|[->|[]]]]]]]]; reflexivity.
Qed.

Lemma refused_stage_false stage :
  refused_stage stage = false <-> stage <> "updatedAt" /\ stage <> EmptyString.
Proof.
  unfold refused_stage. rewrite orb_false_iff, !String.eqb_neq. reflexivity.
Qed.

Section Records.
Context `{NumberModel} `{Service}.

(** C1.  [InitializeRecord] on a key that already has a record: the
    conditional [PutItem] is refused, [send] rejects with
    [ConditionalCheckFailedException], and the operation, which catches
    nothing, raises it; it does not return [false].  The table, and with
    it the stored record, is left as it was. *)
Theorem InitializeRecord_existing_record_raises this u a w :
  consistent (table w) -> is_Some (table w !! (u, a)) ->
  (InitializeRecord this u a w).1 = Throw ConditionalCheckFailedException /\
  (InitializeRecord this u a w).1 <> Return false /\
  table (InitializeRecord this u a w).2 = table w.
Proof.
  intros Hcons [item Hitem].
  destruct (InitializeRecord_run this u a w) as (cmd & fresh & -> & _).
  rewrite Hitem. apply Hcons in Hitem. unfold primary_key in Hitem.
  destruct (item !! "userId") as [[uid| | | | |]|] eqn:Hu; try discriminate Hitem.
  cbn [forallb attribute_not_exists]. rewrite Hu.
  rewrite bool_decide_eq_false_2 by discriminate. cbn [andb fst snd table]. done.
Qed.

(** C8.  An [InitializeRecord] on a key without a record that returns
    [true] has sent one request and stored under the key a record whose
    five metadata leaves are empty maps, whose seven stage flags and
    [hasCriticalFailure] are [false], and whose [createdAt] is the reading
    of the clock taken first ([progress.updatedAt] is the reading taken
    next). *)
Theorem InitializeRecord_creates_record this u a w :
  table w !! (u, a) = None ->
  (InitializeRecord this u a w).1 = Return true ->
  exists cmd item,
    InitializeRecord this u a w =
      (Return true, mkWorld (<[(u, a) := item]> (table w)) (requests w ++ [cmd])%list
                            (clock w) (S (S (tick w)))) /\
    (forall c p, UPDATE_PATHS !! c = Some p -> get_path p item = Some (AttrM ∅)) /\
    (forall stage, stage ∈ ProcessingStage.members ->
       get_path ["progress"; stage] item = Some (AttrBOOL false)) /\
    get_path ["progress"; "hasCriticalFailure"] item = Some (AttrBOOL false) /\
    item !! "createdAt" = Some (AttrS (clock w (tick w))) /\
    get_path ["progress"; "updatedAt"] item = Some (AttrS (clock w (S (tick w)))) /\
    primary_key item = Some (u, a) /\
    initialized item.
Proof.
  intros Hnone.
  destruct (InitializeRecord_run this u a w) as (cmd & item & -> & Hfresh).
  rewrite Hnone. cbn [forallb attribute_not_exists andb].
  destruct (valid_key (u, a)); cbn [fst]; [intros _ | discriminate].
  destruct Hfresh as (Hk & Hc & Hl & Hs & Hf & Hu & Hi).
  exists cmd, item. repeat split; assumption.
Qed.

(** The service refuses a record whose key holds an empty string: the call
    raises and nothing is stored. *)
Lemma InitializeRecord_empty_key_refused this u a w :
  u = EmptyString \/ a = EmptyString -> table w !! (u, a) = None ->
  (InitializeRecord this u a w).1 = Throw ValidationException /\
  table (InitializeRecord this u a w).2 = table w.
Proof.
  intros Hempty Hnone.
  destruct (InitializeRecord_run this u a w) as (cmd & item & -> & _).
  rewrite Hnone. cbn [forallb attribute_not_exists andb].
  assert (valid_key (u, a) = false) as ->; [|done].
  unfold valid_key. cbn [fst snd].
  destruct Hempty as [-> | ->]; rewrite refuses_empty_key;
    [reflexivity | apply andb_false_r].
Qed.

(** A call of [updateMetadata], whatever its arguments, keeps every record:
    its [progress] document is unchanged, and so is the value at every
    path that does not overlap the path of the category. *)
Lemma updateMetadata_frame this u a c data w key item :
  table w !! key = Some item ->
  exists item',
    table (updateMetadata this u a c data w).2 !! key = Some item' /\
    item' !! "progress" = item !! "progress" /\
    forall p q, UPDATE_PATHS !! c = Some p -> overlap p q = false ->
                get_path q item' = get_path q item.
Proof.
  intros Hitem.
  destruct (UPDATE_PATHS !! c) as [p|] eqn:Hp;
    [| rewrite updateMetadata_unknown by done; by exists item].
  destruct (convertToMapAttribute data) as [m|e] eqn:Hd;
    [| erewrite updateMetadata_not_encodable by done; by exists item].
  destruct (updateMetadata_run this u a c p data m w Hp Hd) as (cmd & ->).
  destruct (numbers_accepted (AttrM m)); [| by exists item].
  destruct (set_path p (AttrM m) _) as [item'|] eqn:Hset; cbn [snd table];
    [| by exists item].
  rewrite lookup_insert. case_decide as Hk; [| by exists item].
  subst key. rewrite Hitem in Hset. cbn [from_option id] in Hset.
  exists item'. split; [done|]. split.
  - destruct (leaf_path_head c p Hp) as (rest & ->).
    by eapply set_path_top.
  - intros p' q [= <-] Hq. eapply set_path_get_disjoint; [exact Hset | exact Hq].
Qed.

(** C2.  On an initialized record, when [updateMetadata] for a category
    and then for another one both return [true], both leaves hold
    afterwards what was written: each call sets the value at the path of
    its category and leaves the value at every path that does not overlap
    it, so every other leaf, and the [progress] document, as they were. *)
Theorem updateMetadata_category_isolation this u a c1 c2 p1 p2 d1 d2 m1 m2 w item :
  table w !! (u, a) = Some item -> initialized item ->
  UPDATE_PATHS !! c1 = Some p1 -> UPDATE_PATHS !! c2 = Some p2 -> c1 <> c2 ->
  convertToMapAttribute d1 = Return m1 -> convertToMapAttribute d2 = Return m2 ->
  (updateMetadata this u a c1 d1 w).1 = Return true ->
  (updateMetadata this u a c2 d2 (updateMetadata this u a c1 d1 w).2).1 = Return true ->
  exists item1 item2,
    table (updateMetadata this u a c1 d1 w).2 = <[(u, a) := item1]> (table w) /\
    table (updateMetadata this u a c2 d2 (updateMetadata this u a c1 d1 w).2).2
      = <[(u, a) := item2]> (table w) /\
    get_path p1 item2 = Some (AttrM m1) /\
    get_path p2 item2 = Some (AttrM m2) /\
    (forall q, overlap p1 q = false -> get_path q item1 = get_path q item) /\
    (forall q, overlap p2 q = false -> get_path q item2 = get_path q item1) /\
    (forall c3 p3, UPDATE_PATHS !! c3 = Some p3 -> c3 <> c1 -> c3 <> c2 ->
                   get_path p3 item2 = get_path p3 item) /\
    item1 !! "progress" = item !! "progress" /\
    item2 !! "progress" = item !! "progress".
Proof.
  intros Hitem Hinit Hc1 Hc2 Hne Hd1 Hd2.
  destruct (updateMetadata_run this u a c1 p1 d1 m1 w Hc1 Hd1) as (cmd1 & ->).
  rewrite Hitem. cbn [from_option id].
  destruct (set_leaf c1 p1 (AttrM m1) item Hc1 Hinit) as (item1 & Hset1 & Hinit1 & Htop1).
  rewrite Hset1.
  destruct (numbers_accepted (AttrM m1)); cbn [fst snd]; [intros _ | discriminate].
  set (w1 := mkWorld _ _ _ _).
  destruct (updateMetadata_run this u a c2 p2 d2 m2 w1 Hc2 Hd2) as (cmd2 & ->).
  subst w1. cbn [table requests clock tick]. rewrite lookup_insert_eq. cbn [from_option id].
  destruct (set_leaf c2 p2 (AttrM m2) item1 Hc2 Hinit1) as (item2 & Hset2 & Hinit2 & Htop2).
  rewrite Hset2.
  destruct (numbers_accepted (AttrM m2)); cbn [fst snd table]; [intros _ | discriminate].
  assert (forall q, overlap p1 q = false -> get_path q item1 = get_path q item) as Hf1
    by (intros q Hq; eapply set_path_get_disjoint; [exact Hset1 | exact Hq]).
  assert (forall q, overlap p2 q = false -> get_path q item2 = get_path q item1) as Hf2
    by (intros q Hq; eapply set_path_get_disjoint; [exact Hset2 | exact Hq]).
  exists item1, item2. rewrite insert_insert_eq. repeat split; try done.
  - rewrite Hf2 by (rewrite overlap_sym; by eapply leaf_paths_disjoint).
    by eapply set_path_get_same.
  - by eapply set_path_get_same.
  - intros c3 p3 Hc3 Hn1 Hn2.
    rewrite Hf2, Hf1; [reflexivity | |]; by eapply leaf_paths_disjoint.
  - by apply Htop1.
  - rewrite Htop2, Htop1; done.
Qed.

(** A leaf that holds a number the service does not accept is refused:
    the call raises and nothing is written. *)
Lemma updateMetadata_number_refused this u a c p data m w :
  UPDATE_PATHS !! c = Some p -> convertToMapAttribute data = Return m ->
  numbers_accepted (AttrM m) = false ->
  (updateMetadata this u a c data w).1 = Throw ValidationException /\
  table (updateMetadata this u a c data w).2 = table w.
Proof.
  intros Hp Hd Hno.
  destruct (updateMetadata_run this u a c p data m w Hp Hd) as (cmd & ->).
  by rewrite Hno.
Qed.

(** C6.  For each of the seven stages and each boolean, [updateProgress] on
    a stored record sends one request and returns [true]; the record
    differs from the former one in its [progress] document only, where the
    flag of the stage holds the value and [updatedAt] the reading of the
    clock; every other entry of [progress], the other flags and
    [hasCriticalFailure] among them, and every other attribute of the
    record, [metadata] among them, are as before. *)
Theorem updateProgress_sets_one_flag this u a stage value w item progress :
  stage ∈ ProcessingStage.members ->
  table w !! (u, a) = Some item -> item !! "progress" = Some (AttrM progress) ->
  exists cmd progress',
    updateProgress this u a stage value w =
      (Return true,
       mkWorld (<[(u, a) := <["progress" := AttrM progress']> item]> (table w))
               (requests w ++ [cmd])%list (clock w) (S (tick w))) /\
    progress' !! stage = Some (AttrBOOL value) /\
    progress' !! "updatedAt" = Some (AttrS (clock w (tick w))) /\
    (forall k, k <> stage -> k <> "updatedAt" -> progress' !! k = progress !! k) /\
    (forall other, other ∈ ProcessingStage.members -> other <> stage ->
                   progress' !! other = progress !! other) /\
    progress' !! "hasCriticalFailure" = progress !! "hasCriticalFailure" /\
    (forall k, k <> "progress" -> (<["progress" := AttrM progress']> item) !! k = item !! k).
Proof.
  intros Hstage Hitem Hprog.
  destruct (stage_not_updatedAt stage Hstage) as [Hnu Hnf].
  destruct (updateProgress_run this u a stage value w) as (cmd & ->).
  rewrite (stage_not_refused stage Hstage).
  rewrite Hitem. cbn [from_option id]. rewrite Hprog.
  eexists cmd, _. split; [reflexivity|]. repeat split.
  - rewrite lookup_insert_ne by done. apply lookup_insert_eq.
  - apply lookup_insert_eq.
  - intros k Hk1 Hk2. by rewrite !lookup_insert_ne.
  - intros other Hother Hk. destruct (stage_not_updatedAt other Hother) as [Hou _].
    by rewrite !lookup_insert_ne.
  - by rewrite !lookup_insert_ne.
  - intros k Hk. by rewrite lookup_insert_ne.
Qed.
End Records.

Lemma primary_key_base (t : Table) u a :
  consistent t ->
  primary_key (default (object [("userId", AttrS u); ("assetId", AttrS a)]) (t !! (u, a)))
  = Some (u, a).
Proof.
  intros Ht. destruct (t !! (u, a)) as [item|] eqn:Hitem; cbn [from_option id].
  - by apply Ht.
  - reflexivity.
Qed.

Section Sequences.
Context `{NumberModel} `{Service}.

Lemma perform_consistent this c w :
  consistent (table w) -> consistent (table (perform this c w).2).
Proof.
  intros Hcons.
  destruct c as [u0 a0 | u0 a0 path data | u0 a0 stage value | u0 a0 value]; cbn [perform].
  - destruct (InitializeRecord_run this u0 a0 w) as (cmd & item & -> & Hfresh).
    destruct (forallb _ _); [destruct (valid_key _)|]; cbn [snd table]; [|done..].
    apply consistent_insert; [done | apply Hfresh].
  - destruct (UPDATE_PATHS !! path) as [p|] eqn:Hp;
      [| by rewrite updateMetadata_unknown].
    destruct (convertToMapAttribute data) as [m|e] eqn:Hd;
      [| by erewrite updateMetadata_not_encodable].
    destruct (updateMetadata_run this u0 a0 path p data m w Hp Hd) as (cmd & ->).
    destruct (numbers_accepted (AttrM m)); [|done].
    destruct (set_path p (AttrM m) _) as [item'|] eqn:Hset; cbn [snd table]; [|done].
    apply consistent_insert; [done|].
    rewrite <- (primary_key_base (table w) u0 a0 Hcons).
    unfold primary_key.
    destruct (leaf_path_head _ _ Hp) as (rest & ->).
    by rewrite !(set_path_top _ _ _ _ _ _ Hset).
  - destruct (updateProgress_run this u0 a0 stage value w) as (cmd & ->).
    destruct (refused_stage stage); [done|].
    destruct (_ !! "progress") as [[| | | |pm|]|]; cbn [snd table]; try done.
    apply consistent_insert; [done|].
    rewrite primary_key_insert by done. by apply primary_key_base.
  - destruct (markCriticalFailure_run this u0 a0 value w) as (cmd & ->).
    destruct (_ !! "progress") as [[| | | |pm|]|]; cbn [snd table]; try done.
    apply consistent_insert; [done|].
    rewrite primary_key_insert by done. by apply primary_key_base.
Qed.

Lemma initialized_progress_write (item progress : Item) :
  initialized item -> initialized (<["progress" := AttrM progress]> item).
Proof.
  intros (md & vd & pm & Hmd & Hvd & Hpm). exists md, vd, progress.
  rewrite lookup_insert_ne by done. by rewrite lookup_insert_eq.
Qed.

Lemma all_initialized_insert (t : Table) key item :
  all_initialized t -> initialized item -> all_initialized (<[key := item]> t).
Proof.
  intros Ht Hitem key' item'. rewrite lookup_insert. case_decide.
  - by intros [= <-].
  - apply Ht.
Qed.

(** The operations keep the shape of every record: what [InitializeRecord]
    has created stays initialized under any calls. *)
Lemma perform_all_initialized this c w :
  all_initialized (table w) -> all_initialized (table (perform this c w).2).
Proof.
  intros Hall.
  destruct c as [u0 a0 | u0 a0 path data | u0 a0 stage value | u0 a0 value]; cbn [perform].
  - destruct (InitializeRecord_run this u0 a0 w) as (cmd & item & -> & Hfresh).
    destruct (forallb _ _); [destruct (valid_key _)|]; cbn [snd table]; [|done..].
    apply all_initialized_insert; [done | apply Hfresh].
  - destruct (UPDATE_PATHS !! path) as [p|] eqn:Hp;
      [| by rewrite updateMetadata_unknown].
    destruct (convertToMapAttribute data) as [m|e] eqn:Hd;
      [| by erewrite updateMetadata_not_encodable].
    destruct (updateMetadata_run this u0 a0 path p data m w Hp Hd) as (cmd & ->).
    destruct (numbers_accepted (AttrM m)); [|done].
    destruct (set_path p (AttrM m) _) as [item'|] eqn:Hset; cbn [snd table]; [|done].
    apply all_initialized_insert; [done|].
    destruct (table w !! (u0, a0)) as [item|] eqn:Hitem; cbn [from_option id] in Hset.
    + destruct (set_leaf path p (AttrM m) item Hp (Hall _ _ Hitem))
        as (item'' & Hset' & Hinit & _).
      rewrite Hset' in Hset. by injection Hset as <-.
    + destruct (leaf_path_head _ _ Hp) as ([|k rest] & ->).
      * apply UPDATE_PATHS_lookup in Hp. rewrite !elem_of_cons, elem_of_nil in Hp.
        by destruct Hp as [Hp|[Hp|[Hp|[Hp|[Hp|[]]]]]].
      * rewrite set_path_cons2, key_item_lookup in Hset by done. discriminate.
  - destruct (updateProgress_run this u0 a0 stage value w) as (cmd & ->).
    destruct (refused_stage stage); [done|].
    destruct (_ !! "progress") as [[| | | |pm|]|] eqn:Hprog; cbn [snd table]; try done.
    apply all_initialized_insert; [done|]. apply initialized_progress_write.
    apply base_lookup_Some in Hprog as (item & Hitem & _); [|done..].
    rewrite Hitem. by eapply Hall.
  - destruct (markCriticalFailure_run this u0 a0 value w) as (cmd & ->).
    destruct (_ !! "progress") as [[| | | |pm|]|] eqn:Hprog; cbn [snd table]; try done.
    apply all_initialized_insert; [done|]. apply initialized_progress_write.
    apply base_lookup_Some in Hprog as (item & Hitem & _); [|done..].
    rewrite Hitem. by eapply Hall.
Qed.

Lemma run_all_initialized this calls w :
  all_initialized (table w) -> all_initialized (table (run this calls w)).
Proof.
  revert w. induction calls as [|c calls IH]; intros w Hw; [done|].
  change (run this (c :: calls) w) with (run this calls (perform this c w).2).
  apply IH. by apply perform_all_initialized.
Qed.

(** Every table the operations reach from a consistent one is consistent;
    the empty table is. *)
Lemma run_consistent this calls w :
  consistent (table w) -> consistent (table (run this calls w)).
Proof.
  revert w. induction calls as [|c calls IH]; intros w Hw; [done|].
  change (run this (c :: calls) w) with (run this calls (perform this c w).2).
  apply IH. by apply perform_consistent.
Qed.

Lemma consistent_empty : consistent ∅.
Proof. intros key item. by rewrite lookup_empty. Qed.

(** C5 (as amended).  A category outside the five members of
    [MetadataPath] makes [updateMetadata] raise a TypeError inside
    [createUpdateCommand], before any request: the world is untouched.
    [updateProgress] has no such check: for every string given as stage it
    sends one [UpdateItem] request naming that string under [#stage] and
    leaves the decision to the store.  A call that returns [true],
    whatever the string, was made on a stored record and has written the
    flag [progress.<stage>]; the store refuses the stage ["updatedAt"] and
    the empty stage, and the call raises its exception. *)
Theorem misuse_is_screened_for_categories_only this u a w :
  (forall c data, c ∉ MetadataPath.members ->
     updateMetadata this u a c data w = (Throw TypeError, w)) /\
  (forall stage value, exists input,
     requests (updateProgress this u a stage value w).2
       = (requests w ++ [UpdateItemCommand input])%list /\
     upd_ExpressionAttributeNames input = Some (object [("#stage", stage)])) /\
  (forall stage value,
     (updateProgress this u a stage value w).1 = Return true ->
     exists item progress progress',
       table w !! (u, a) = Some item /\ item !! "progress" = Some (AttrM progress) /\
       table (updateProgress this u a stage value w).2
         = <[(u, a) := <["progress" := AttrM progress']> item]> (table w) /\
       progress' !! stage = Some (AttrBOOL value)) /\
  (forall stage value,
     stage = "updatedAt" \/ stage = EmptyString ->
     (updateProgress this u a stage value w).1 = Throw ValidationException /\
     table (updateProgress this u a stage value w).2 = table w).
Proof.
  split; [|split; [|split]].
  - intros c data Hc. apply updateMetadata_unknown.
    destruct (UPDATE_PATHS !! c) eqn:Hl; [|done].
    exfalso. apply Hc, UPDATE_PATHS_members. by eexists.
  - intros stage value. eexists.
    unfold updateProgress, mbind, Prog_bind, Date_now_toISOString, send.
    cbn [table requests clock tick].
    destruct (UpdateItem _ _); cbn [snd requests]; split; reflexivity.
  - intros stage value.
    destruct (updateProgress_run this u a stage value w) as (cmd & ->).
    destruct (refused_stage stage) eqn:Hstage; [discriminate|].
    apply refused_stage_false in Hstage as [Hnu _].
    destruct (_ !! "progress") as [[| | | |pm|]|] eqn:Hprog; try discriminate.
    intros _. apply base_lookup_Some in Hprog as (item & Hitem & Hprog); [|done..].
    rewrite Hitem. cbn [from_option id fst snd table].
    exists item, pm. eexists. split; [done|]. split; [done|]. split; [reflexivity|].
    rewrite lookup_insert_ne by done. apply lookup_insert_eq.
  - intros stage value Hstage.
    destruct (updateProgress_run this u a stage value w) as (cmd & ->).
    assert (refused_stage stage = true) as ->; [|done].
    by destruct Hstage as [-> | ->].
Qed.

(** C7 (as amended).  [progress.updatedAt] holds the clock reading of the
    last write that set it, and nothing compares it with the former value:
    along every sequence of calls made under a clock whose readings do not
    decrease, from a world whose stamps are not ahead of that clock, it
    does not decrease.  Every [updateProgress] and [markCriticalFailure]
    that returns [true] sets it to the reading the call took;
    [updateMetadata] never changes the [progress] document of any record;
    a successful [markCriticalFailure] sets [progress.hasCriticalFailure]
    and [progress.updatedAt] and leaves the seven stage flags as they
    were. *)
Theorem updatedAt_follows_the_clock this :
  (forall w calls1 calls2 u a s1 s2,
     monotone_clock w -> stamps_in_past w ->
     updatedAt_of (run this calls1 w) u a = Some s1 ->
     updatedAt_of (run this (calls1 ++ calls2)%list w) u a = Some s2 ->
     ts_le s1 s2) /\
  (forall w u a stage value,
     (updateProgress this u a stage value w).1 = Return true ->
     updatedAt_of (updateProgress this u a stage value w).2 u a = Some (clock w (tick w))) /\
  (forall w u a value,
     (markCriticalFailure this u a value w).1 = Return true ->
     updatedAt_of (markCriticalFailure this u a value w).2 u a = Some (clock w (tick w))) /\
  (forall w u a c data key,
     table (updateMetadata this u a c data w).2 !! key ≫= (.!! "progress")
     = table w !! key ≫= (.!! "progress")) /\
  (forall w u a value,
     (markCriticalFailure this u a value w).1 = Return true ->
     exists item progress progress',
       table w !! (u, a) = Some item /\ item !! "progress" = Some (AttrM progress) /\
       table (markCriticalFailure this u a value w).2
         = <[(u, a) := <["progress" := AttrM progress']> item]> (table w) /\
       progress' !! "hasCriticalFailure" = Some (AttrBOOL value) /\
       progress' !! "updatedAt" = Some (AttrS (clock w (tick w))) /\
       (forall stage, stage ∈ ProcessingStage.members ->
                      progress' !! stage = progress !! stage)).
Proof.
  repeat apply conj.
  - intros w calls1 calls2 u a s1 s2 Hmono Hpast Hs1 Hs2.
    rewrite run_app in Hs2.
    destruct (advances_keeps_order w (run this calls1 w) Hmono Hpast
                (run_advances this calls1 w)) as (_ & Hmono1 & Hpast1).
    destruct (advances_keeps_order _ _ Hmono1 Hpast1
                (run_advances this calls2 (run this calls1 w))) as (Hord & _ & _).
    by eapply Hord.
  - intros w u a stage value.
    destruct (updateProgress_run this u a stage value w) as (cmd & ->).
    destruct (refused_stage stage); [discriminate|].
    destruct (_ !! "progress") as [[| | | |pm|]|]; try discriminate.
    intros _. cbn [snd]. rewrite updatedAt_of_insert. rewrite decide_True by done.
    apply stamp_of_progress_write.
  - intros w u a value.
    destruct (markCriticalFailure_run this u a value w) as (cmd & ->).
    destruct (_ !! "progress") as [[| | | |pm|]|]; try discriminate.
    intros _. cbn [snd]. rewrite updatedAt_of_insert. rewrite decide_True by done.
    apply stamp_of_progress_write.
  - intros w u a c data key.
    destruct (UPDATE_PATHS !! c) as [p|] eqn:Hp;
      [| by rewrite updateMetadata_unknown].
    destruct (convertToMapAttribute data) as [m|e] eqn:Hd;
      [| by erewrite updateMetadata_not_encodable].
    destruct (updateMetadata_run this u a c p data m w Hp Hd) as (cmd & ->).
    destruct (numbers_accepted (AttrM m)); [|done].
    destruct (set_path p (AttrM m) _) as [item'|] eqn:Hset; cbn [snd table]; [|done].
    rewrite lookup_insert. case_decide as Hk; [|done]. subst key. cbn [mbind option_bind].
    destruct (leaf_path_head _ _ Hp) as (rest & ->).
    rewrite (set_path_top _ _ _ _ _ "progress" Hset) by done.
    destruct (table w !! (u, a)) as [item|]; cbn [from_option id option_bind]; [done|].
    by rewrite key_item_lookup.
  - intros w u a value.
    destruct (markCriticalFailure_run this u a value w) as (cmd & ->).
    destruct (_ !! "progress") as [[| | | |pm|]|] eqn:Hprog; try discriminate.
    intros _. apply base_lookup_Some in Hprog as (item & Hitem & Hprog); [|done..].
    rewrite Hitem. cbn [from_option id snd table].
    exists item, pm. eexists. split; [done|]. split; [done|]. split; [reflexivity|].
    split; [by rewrite lookup_insert_ne; [apply lookup_insert_eq|]|].
    split; [apply lookup_insert_eq|].
    intros stage Hstage. destruct (stage_not_updatedAt stage Hstage) as [Hnu Hnf].
    by rewrite !lookup_insert_ne.
Qed.
End Sequences.

(** ** The encoder *)

Section EncoderTheorems.
Context `{NumberModel}.


(** C4 (as amended).  On every value other than [null] and [undefined] at
    the top level (a boolean, number, string, array or object, with any
    values nested in it), [convertToMapAttribute] returns a map, and
    [createUpdateCommand] returns its parameters for each of the five
    categories.  The encoder is a function of its argument alone. *)
Theorem convertToMapAttribute_total_on_non_null (data : JSValue) :
  data <> JNull -> data <> JUndefined ->
  (exists result, convertToMapAttribute data = Return result) /\
  (forall path, path ∈ MetadataPath.members ->
     exists params, createUpdateCommand path data = Return params).
Proof.
  intros Hnull Hundef.
  assert (exists result, convertToMapAttribute data = Return result) as [result Hr]
    by (destruct data; try done; eexists; reflexivity).
  split; [by exists result|].
  intros path Hpath. apply UPDATE_PATHS_members in Hpath as [p Hp].
  unfold createUpdateCommand. rewrite Hp, Hr. eexists. reflexivity.
Qed.

End EncoderTheorems.

(** ** The theorems at concrete inputs *)

Section Examples.
#[local] Existing Instance integer_numbers.
#[local] Existing Instance sample_service.

Lemma clock_of_late readings n :
  length readings <= n -> clock_of readings n = "9999-12-31T23:59:59.999Z".
Proof. intros Hn. unfold clock_of. by rewrite lookup_ge_None_2. Qed.

Lemma empty_world_monotone : monotone_clock empty_world.
Proof.
  intros i j Hij. cbn [empty_world clock].
  destruct (decide (4 <= i)) as [Hi|Hi].
  - rewrite !clock_of_late by (cbn; lia). apply ts_le_refl.
  - destruct (decide (4 <= j)) as [Hj|Hj].
    + rewrite (clock_of_late _ j) by (cbn; lia).
      destruct i as [|[|[|[|i]]]]; [reflexivity.. | lia].
    + destruct i as [|[|[|[|i]]]]; [| | | | lia];
      destruct j as [|[|[|[|j]]]]; try lia; reflexivity.
Qed.

Lemma empty_world_stamps : stamps_in_past empty_world.
Proof.
  intros u a s Hs. unfold updatedAt_of in Hs. cbn [empty_world table] in Hs.
  by rewrite lookup_empty in Hs.
Qed.

(** The record of ("u1", "a1") after [InitializeRecord] on the empty table. *)
Lemma first_record :
  exists item, table stored_world !! ("u1", "a1") = Some item /\ initialized item.
Proof.
  unfold stored_world.
  destruct (InitializeRecord_run cache "u1" "a1" empty_world)
    as (cmd & item & -> & Hfresh).
  cbn [empty_world table]. rewrite lookup_empty.
  cbn [forallb attribute_not_exists andb snd table].
  exists item. split; [apply lookup_insert_eq | apply Hfresh].
Qed.

Lemma InitializeRecord_twice :
  (InitializeRecord cache "u1" "a1" empty_world).1 = Return true /\
  consistent (table stored_world) /\
  is_Some (table stored_world !! ("u1", "a1")) /\
  (InitializeRecord cache "u1" "a1" stored_world).1
    = Throw ConditionalCheckFailedException /\
  (InitializeRecord cache "u1" "a1" stored_world).1 <> Return false /\
  table (InitializeRecord cache "u1" "a1" stored_world).2 = table stored_world.
Proof.
  assert (consistent (table stored_world)) as Hc
    by apply (perform_consistent cache (CallInitializeRecord "u1" "a1") empty_world),
             consistent_empty.
  assert (is_Some (table stored_world !! ("u1", "a1"))) as Hs
    by (destruct first_record as (item & Hitem & _); by exists item).
  split; [reflexivity|]. split; [exact Hc|]. split; [exact Hs|].
  exact (InitializeRecord_existing_record_raises cache "u1" "a1" stored_world Hc Hs).
Defined.

Lemma category_isolation_example :
  exists item,
    table (updateMetadata cache "u1" "a1" "metadata.quality" quality_data
             (updateMetadata cache "u1" "a1" "metadata.technical" technical_data
                stored_world).2).2 !! ("u1", "a1") = Some item /\
    get_path ["metadata"; "technical"] item
      = Some (AttrM (object [("codec", AttrS "h264"); ("frames", AttrN "300")])) /\
    get_path ["metadata"; "quality"] item
      = Some (AttrM (object [("score", AttrN "9")])).
Proof.
  destruct first_record as (item & Hitem & Hinit).
  destruct (updateMetadata_category_isolation cache "u1" "a1"
              "metadata.technical" "metadata.quality"
              ["metadata"; "technical"] ["metadata"; "quality"]
              technical_data quality_data
              (object [("codec", AttrS "h264"); ("frames", AttrN "300")])
              (object [("score", AttrN "9")])
              stored_world item Hitem Hinit)
    as (item1 & item2 & _ & Htable & Hl1 & Hl2 & _);
    [reflexivity | reflexivity | discriminate | reflexivity | reflexivity
    | reflexivity | reflexivity |].
  exists item2. split; [|split; assumption].
  rewrite Htable. apply lookup_insert_eq.
Defined.

Lemma sets_one_flag_example :
  ("transcoding" ∈ ProcessingStage.members) /\
  (updateProgress cache "u1" "a1" "transcoding" true stored_world).1 = Return true.
Proof.
  assert ("transcoding" ∈ ProcessingStage.members) as Hstage.
  { unfold ProcessingStage.members, ProcessingStage.TRANSCODING.
    rewrite !elem_of_cons. tauto. }
  split; [exact Hstage|].
  destruct first_record as (item & Hitem & (md & vd & pm & _ & _ & Hpm)).
  destruct (updateProgress_sets_one_flag cache "u1" "a1" "transcoding" true
              stored_world item pm Hstage Hitem Hpm)
    as (cmd & pm' & -> & _).
  reflexivity.
Defined.

Lemma creates_record_example :
  table empty_world !! ("u1", "a1") = None /\
  (InitializeRecord cache "u1" "a1" empty_world).1 = Return true /\
  exists item,
    table (InitializeRecord cache "u1" "a1" empty_world).2 !! ("u1", "a1") = Some item /\
    item !! "createdAt" = Some (AttrS "2024-05-01T10:00:00.000Z") /\
    get_path ["metadata"; "technical"] item = Some (AttrM ∅).
Proof.
  assert (table empty_world !! ("u1", "a1") = None) as Hnone by apply lookup_empty.
  assert ((InitializeRecord cache "u1" "a1" empty_world).1 = Return true) as Htrue
    by reflexivity.
  split; [exact Hnone|]. split; [exact Htrue|].
  destruct (InitializeRecord_creates_record cache "u1" "a1" empty_world Hnone Htrue)
    as (cmd & item & Hrun & Hleaves & _ & _ & Hcreated & _).
  exists item. rewrite Hrun. cbn [snd table].
  split; [apply lookup_insert_eq|]. split; [exact Hcreated|].
  by apply (Hleaves "metadata.technical").
Defined.

Lemma misuse_example :
  ("thumbnails" ∉ MetadataPath.members) /\
  updateMetadata cache "u1" "a1" "thumbnails" (JObj []) empty_world
    = (Throw TypeError, empty_world).
Proof.
  assert ("thumbnails" ∉ MetadataPath.members) as Hc.
  { unfold MetadataPath.members. rewrite !not_elem_of_cons.
    repeat split; [discriminate.. | apply not_elem_of_nil]. }
  split; [exact Hc|].
  destruct (misuse_is_screened_for_categories_only cache "u1" "a1" empty_world)
    as (Hmeta & _).
  exact (Hmeta "thumbnails" (JObj []) Hc).
Defined.

(** C5, the claim as stated: a stage outside the enumeration is not
    rejected; the request is sent and the table applies it. *)
Lemma unknown_stage_is_written :
  ("thumbnails" ∉ ProcessingStage.members) /\
  (updateProgress cache "u1" "a1" "thumbnails" true stored_world).1 = Return true /\
  length (requests (updateProgress cache "u1" "a1" "thumbnails" true stored_world).2)
    = S (length (requests stored_world)) /\
  table (updateProgress cache "u1" "a1" "thumbnails" true stored_world).2
    !! ("u1", "a1") ≫= get_path ["progress"; "thumbnails"]
    = Some (AttrBOOL true).
Proof.
  split.
  { unfold ProcessingStage.members. rewrite !not_elem_of_cons.
    repeat split; [discriminate.. | apply not_elem_of_nil]. }
  split; [reflexivity|]. split; reflexivity.
Qed.

Lemma updatedAt_order_example :
  monotone_clock empty_world /\ stamps_in_past empty_world /\
  ts_le "2024-05-01T10:00:05.000Z" "2024-05-01T10:00:09.250Z".
Proof.
  split; [exact empty_world_monotone|]. split; [exact empty_world_stamps|].
  destruct (updatedAt_follows_the_clock cache) as (Hmono & _).
  apply (Hmono empty_world
           [CallInitializeRecord "u1" "a1"; CallUpdateProgress "u1" "a1" "upload" true]
           [CallUpdateMetadata "u1" "a1" "metadata.content" (JObj []);
            CallMarkCriticalFailure "u1" "a1" true]
           "u1" "a1");
    [exact empty_world_monotone | exact empty_world_stamps | reflexivity | reflexivity].
Defined.

(** C7, the claim as stated: when a write carries a reading that lies
    before the stored one, [progress.updatedAt] goes back to it. *)
Lemma updatedAt_can_go_back :
  (updateProgress cache "u1" "a1" "upload" true skewed_stored_world).1 = Return true /\
  updatedAt_of (updateProgress cache "u1" "a1" "upload" true skewed_stored_world).2
    "u1" "a1" = Some "2024-05-01T10:00:05.000Z" /\
  (updateProgress cache "u1" "a1" "validation" true
     (updateProgress cache "u1" "a1" "upload" true skewed_stored_world).2).1
    = Return true /\
  updatedAt_of
    (updateProgress cache "u1" "a1" "validation" true
       (updateProgress cache "u1" "a1" "upload" true skewed_stored_world).2).2
    "u1" "a1" = Some "2024-05-01T09:59:58.000Z" /\
  ~ ts_le "2024-05-01T10:00:05.000Z" "2024-05-01T09:59:58.000Z".
Proof. repeat split; try reflexivity. unfold ts_le. discriminate. Qed.



Lemma total_example :
  JArr [JNull; JStr "N/A"] <> JNull /\ JArr [JNull; JStr "N/A"] <> JUndefined /\
  exists result, convertToMapAttribute (JArr [JNull; JStr "N/A"]) = Return result.
Proof.
  assert (JArr [JNull; JStr "N/A"] <> JNull) as H1 by discriminate.
  assert (JArr [JNull; JStr "N/A"] <> JUndefined) as H2 by discriminate.
  split; [exact H1|]. split; [exact H2|].
  exact (proj1 (convertToMapAttribute_total_on_non_null _ H1 H2)).
Defined.

(** C4, the claim as stated: at [null] the encoder throws, and so do the
    command builder and [updateMetadata], before any request. *)
Lemma convertToMapAttribute_null_throws :
  convertToMapAttribute JNull = Throw TypeError /\
  createUpdateCommand "metadata.technical" JNull = Throw TypeError /\
  updateMetadata cache "u1" "a1" "metadata.technical" JNull empty_world
    = (Throw TypeError, empty_world).
Proof. repeat split. Qed.



(** What the encoder returns on values that are not objects. *)
Example top_level_values :
  convertToMapAttribute (JNum 5%Z) = Return ∅ /\
  convertToMapAttribute (JBool true) = Return ∅ /\
  convertToMapAttribute (JStr "ab")
    = Return (object [("0", AttrS "a"); ("1", AttrS "b")]) /\
  convertToMapAttribute (JArr [JNum 7%Z; JObj [("k", JNull)]])
    = Return (object [("0", AttrN "7"); ("1", AttrM (object [("k", AttrNULL true)]))]) /\
  convertToMapAttribute JUndefined = Throw TypeError.
Proof. repeat split. Qed.

(** The scenario of the specification, run on the model. *)
Example end_to_end :
  let r1 := InitializeRecord cache "u1" "a1" empty_world in
  let r2 := updateMetadata cache "u1" "a1" MetadataPath.METADATA_TECHNICAL
              (JObj [("codec", JStr "h264"); ("frames", JNum 300%Z)]) r1.2 in
  let r3 := updateProgress cache "u1" "a1" ProcessingStage.TRANSCODING true r2.2 in
  let r4 := markCriticalFailure cache "u1" "a1" true r3.2 in
  let final := table r4.2 !! ("u1", "a1") in
  r1.1 = Return true /\ r2.1 = Return true /\ r3.1 = Return true /\ r4.1 = Return true /\
  final ≫= get_path ["metadata"; "technical"]
    = Some (AttrM (object [("codec", AttrS "h264"); ("frames", AttrN "300")])) /\
  final ≫= get_path ["progress"; "transcoding"] = Some (AttrBOOL true) /\
  final ≫= get_path ["progress"; "upload"] = Some (AttrBOOL false) /\
  final ≫= get_path ["progress"; "hasCriticalFailure"] = Some (AttrBOOL true) /\
  final ≫= get_path ["progress"; "updatedAt"] = Some (AttrS "2024-05-01T10:00:09.250Z") /\
  length (requests r4.2) = 4.
Proof. repeat split. Qed.
End Examples.

End MetadataCacheFacts.

(* ===================================================================== *)
(** * Properties of the upload service *)
(* ===================================================================== *)

Module UploadServiceFacts.
Import UploadService.

(** [parseInt] at the radixes 2 and 10: no prefix is stripped. *)
Lemma parseInt_radix (R : Z) input :
  R = 2%Z \/ R = 10%Z ->
  parseInt input R =
  let S0 := trimStart input in
  let S1 := if starts_with is_sign S0 then drop_first S0 else S0 in
  let digits := leading_digits R S1 in
  if bool_decide (digits = []) then NaN
  else if bool_decide (radix_value R digits = 0%Z)
       then (if starts_with (Ascii.eqb "-") S0 then NegZero else Num 0)
       else Number_of_integer ((if starts_with (Ascii.eqb "-") S0 then -1 else 1)
                               * radix_value R digits).
Proof.
  intros [-> | ->]; unfold parseInt; cbn zeta.
  - change (bool_decide (2%Z <> 0%Z) && ((2 <? 2)%Z || (36 <? 2)%Z)) with false.
    change (bool_decide (2%Z = 0%Z) || bool_decide (2%Z = 16%Z)) with false.
    change (bool_decide (2%Z = 0%Z)) with false. cbn [andb].
    destruct (starts_with (Ascii.eqb "-") (trimStart input));
      destruct (leading_digits 2 _); reflexivity.
  - change (bool_decide (10%Z <> 0%Z) && ((10 <? 2)%Z || (36 <? 10)%Z)) with false.
    change (bool_decide (10%Z = 0%Z) || bool_decide (10%Z = 16%Z)) with false.
    change (bool_decide (10%Z = 0%Z)) with false. cbn [andb].
    destruct (starts_with (Ascii.eqb "-") (trimStart input));
      destruct (leading_digits 10 _); reflexivity.
Qed.

Lemma append_String c s1 s2 : String c s1 +:+ s2 = String c (s1 +:+ s2).
Proof. reflexivity. Qed.

Lemma append_empty s : "" +:+ s = s.
Proof. reflexivity. Qed.

Lemma trimStart_app ws s :
  all_units is_white_space ws = true -> trimStart (ws +:+ s) = trimStart s.
Proof.
  unfold all_units. induction ws as [|c ws IH];
    cbn [list_ascii_of_string forallb]; [done|].
  intros [Hc Hws]%andb_true_iff. rewrite append_String. cbn [trimStart].
  rewrite Hc. by apply IH.
Qed.

Lemma trimStart_id s : starts_with is_white_space s = false -> trimStart s = s.
Proof. destruct s as [|c s]; cbn [starts_with trimStart]; [done|]. by intros ->. Qed.

Lemma binary_digit_not_white c : is_binary_digit c = true -> is_white_space c = false.
Proof.
  unfold is_binary_digit. intros [->%Ascii.eqb_eq | ->%Ascii.eqb_eq]%orb_true_iff;
    reflexivity.
Qed.

Lemma binary_digit_not_sign c : is_binary_digit c = true -> is_sign c = false.
Proof.
  unfold is_binary_digit. intros [->%Ascii.eqb_eq | ->%Ascii.eqb_eq]%orb_true_iff;
    reflexivity.
Qed.

Lemma radix_digit_binary c :
  radix_digit 2 c =
  if is_binary_digit c then Some (if Ascii.eqb c "1" then 1%Z else 0%Z) else None.
Proof.
  destruct c as [[] [] [] [] [] [] [] []]; reflexivity.
Qed.

Lemma leading_digits_binary_numeral bits rest :
  starts_with is_binary_digit rest = false ->
  leading_digits 2 (binary_numeral bits +:+ rest) = bit_value <$> bits.
Proof.
  intros Hrest. induction bits as [|b bits IH]; cbn [binary_numeral fmap list_fmap].
  - rewrite append_empty. destruct rest as [|c rest]; [reflexivity|].
    cbn [starts_with] in Hrest.
    cbn [leading_digits]. rewrite radix_digit_binary. by rewrite Hrest.
  - rewrite append_String. cbn [leading_digits]. rewrite radix_digit_binary.
    destruct b; cbn [is_binary_digit Ascii.eqb Bool.eqb orb andb bit_value];
      by rewrite IH.
Qed.

Lemma radix_value_binary_from acc bits :
  foldl (fun acc d => acc * 2 + d)%Z acc (bit_value <$> bits)
  = (acc * 2 ^ Z.of_nat (length bits) + binary_value bits)%Z.
Proof.
  revert acc. induction bits as [|b bits IH]; intros acc.
  - cbn. lia.
  - cbn [fmap list_fmap foldl length binary_value]. rewrite IH.
    rewrite Nat2Z.inj_succ, Z.pow_succ_r by lia.
    destruct b; unfold bit_value; lia.
Qed.

Lemma radix_value_binary bits : radix_value 2 (bit_value <$> bits) = binary_value bits.
Proof. unfold radix_value. rewrite radix_value_binary_from. lia. Qed.

Lemma starts_with_numeral P bits rest :
  bits <> [] ->
  starts_with P (binary_numeral bits +:+ rest)
  = P (if hd false bits then "1" else "0")%char.
Proof.
  destruct bits as [|b bits]; [done|]. intros _.
  cbn [binary_numeral]. by rewrite append_String.
Qed.

(** An integer below [2 ^ 53] in magnitude is a double. *)
Lemma Number_of_small_integer (z : Z) :
  (Z.abs z < 2 ^ 53)%Z -> Number_of_integer z = Num z.
Proof.
  intros Hz. unfold Number_of_integer, nearest_double.
  assert (Z.log2 (Z.abs z) + 1 <= 53)%Z as Hbits.
  { destruct (decide (Z.abs z = 0)%Z) as [-> | Hne]; [done|].
    assert (Z.log2 (Z.abs z) < 53)%Z; [|lia]. apply Z.log2_lt_pow2; lia. }
  rewrite (proj2 (Z.leb_le _ _) Hbits).
  assert ((2 ^ 1024 <=? Z.abs z)%Z = false) as ->.
  { apply Z.leb_gt. eapply Z.lt_trans; [exact Hz|]. reflexivity. }
  f_equal. lia.
Qed.

(** A binary numeral after white space and an optional sign. *)
Lemma parseInt_binary_numeral ws sign bits rest :
  all_units is_white_space ws = true ->
  sign ∈ [""; "+"; "-"] ->
  bits <> [] ->
  starts_with is_binary_digit rest = false ->
  parseInt (ws +:+ sign +:+ binary_numeral bits +:+ rest) 2
  = signed sign (binary_value bits).
Proof.
  intros Hws Hsign Hbits Hrest.
  rewrite parseInt_radix by (by left). cbn zeta.
  rewrite trimStart_app by done.
  assert (is_binary_digit (if hd false bits then "1" else "0")%char = true) as Hd
    by (by destruct (hd false bits)).
  assert (bit_value <$> bits <> []) as Hne by (by destruct bits).
  rewrite !elem_of_cons, elem_of_nil in Hsign.
  destruct Hsign as [-> | [-> | [-> | []]]].
  - rewrite append_empty.
    rewrite trimStart_id
      by (rewrite starts_with_numeral by done; by apply binary_digit_not_white).
    rewrite !starts_with_numeral by done.
    rewrite binary_digit_not_sign by done.
    rewrite leading_digits_binary_numeral by done.
    rewrite bool_decide_eq_false_2 by done.
    rewrite radix_value_binary. unfold signed. cbn [String.eqb].
    replace (("-"%char =? (if hd false bits then "1" else "0"))%char) with false
      by (by destruct (hd false bits)).
    case_bool_decide as Hz; [by rewrite Hz | f_equal; lia].
  - rewrite append_String, append_empty.
    rewrite trimStart_id by reflexivity.
    cbn [starts_with is_sign drop_first Ascii.eqb orb Bool.eqb andb].
    rewrite leading_digits_binary_numeral by done.
    rewrite bool_decide_eq_false_2 by done.
    rewrite radix_value_binary. unfold signed. cbn [String.eqb Ascii.eqb Bool.eqb].
    case_bool_decide as Hz; [by rewrite Hz | f_equal; lia].
  - rewrite append_String, append_empty.
    rewrite trimStart_id by reflexivity.
    cbn [starts_with is_sign drop_first Ascii.eqb orb Bool.eqb andb].
    rewrite leading_digits_binary_numeral by done.
    rewrite bool_decide_eq_false_2 by done.
    rewrite radix_value_binary. unfold signed. cbn [String.eqb Ascii.eqb Bool.eqb].
    case_bool_decide as Hz; [reflexivity | f_equal; lia].
Qed.

Lemma leading_digits_none rest :
  starts_with is_binary_digit rest = false -> leading_digits 2 rest = [].
Proof.
  destruct rest as [|c rest]; [reflexivity|]. cbn [starts_with leading_digits].
  rewrite radix_digit_binary. by intros ->.
Qed.

(** No binary digit after the white space and the sign. *)
Lemma parseInt_no_binary_digit ws sign rest :
  all_units is_white_space ws = true ->
  sign ∈ [""; "+"; "-"] ->
  starts_with is_binary_digit rest = false ->
  (sign = "" -> starts_with is_white_space rest = false /\ starts_with is_sign rest = false) ->
  parseInt (ws +:+ sign +:+ rest) 2 = NaN.
Proof.
  intros Hws Hsign Hrest Hbare.
  rewrite parseInt_radix by (by left). cbn zeta.
  rewrite trimStart_app by done.
  rewrite !elem_of_cons, elem_of_nil in Hsign.
  destruct Hsign as [-> | [-> | [-> | []]]].
  - destruct (Hbare eq_refl) as [Hw Hs]. rewrite append_empty.
    rewrite trimStart_id by done. rewrite Hs.
    rewrite leading_digits_none by done. reflexivity.
  - rewrite append_String, append_empty. rewrite trimStart_id by reflexivity.
    cbn [starts_with is_sign drop_first Ascii.eqb orb Bool.eqb andb].
    rewrite leading_digits_none by done. reflexivity.
  - rewrite append_String, append_empty. rewrite trimStart_id by reflexivity.
    cbn [starts_with is_sign drop_first Ascii.eqb orb Bool.eqb andb].
    rewrite leading_digits_none by done. reflexivity.
Qed.

Lemma radix_digit_decimal c :
  is_decimal_digit c = true ->
  exists d, radix_digit 10 c = Some d /\ (0 <= d <= 9)%Z /\
            (is_binary_digit c = false -> 2 <= d)%Z /\
            is_white_space c = false /\ is_sign c = false.
Proof.
  destruct c as [[] [] [] [] [] [] [] []]; try discriminate; intros _;
    eexists; (split; [vm_compute; reflexivity|]); (split; [lia|]);
    (split; [first [discriminate | intros _; lia]|]); split; reflexivity.
Qed.

Lemma parseInt_unsigned (R : Z) s :
  R = 2%Z \/ R = 10%Z -> starts_with is_decimal_digit s = true ->
  parseInt s R =
  if bool_decide (leading_digits R s = []) then NaN
  else Number_of_integer (radix_value R (leading_digits R s)).
Proof.
  intros HR Hs. rewrite parseInt_radix by done. cbn zeta.
  destruct s as [|c s]; [discriminate|]. cbn [starts_with] in Hs.
  destruct (radix_digit_decimal c Hs) as (d & _ & _ & _ & Hw & Hsg).
  rewrite trimStart_id by done. cbn [starts_with]. rewrite Hsg.
  replace (("-"%char =? c)%char) with false.
  - case_bool_decide; [reflexivity|]. case_bool_decide as Hz; [by rewrite Hz|].
    f_equal. lia.
  - unfold is_sign in Hsg. apply orb_false_iff in Hsg as [_ Hm].
    by rewrite Ascii.eqb_sym.
Qed.

Lemma decimal_fold_grows s acc :
  all_units is_decimal_digit s = true -> (0 <= acc)%Z ->
  (acc <= foldl (fun acc d => acc * 10 + d) acc (leading_digits 10 s))%Z.
Proof.
  unfold all_units. revert acc.
  induction s as [|c s IH]; intros acc; cbn [list_ascii_of_string forallb leading_digits];
    [cbn; lia|].
  intros [Hc Hs]%andb_true_iff Hacc.
  destruct (radix_digit_decimal c Hc) as (d & -> & Hd & _). cbn [foldl].
  etransitivity; [|apply IH; [done | lia]]. lia.
Qed.

Lemma binary_prefix_below_decimal s acc2 acc10 :
  all_units is_decimal_digit s = true ->
  some_unit (fun c => negb (is_binary_digit c)) s = true ->
  (0 <= acc2 <= acc10)%Z ->
  (foldl (fun acc d => acc * 2 + d) acc2 (leading_digits 2 s)
   < foldl (fun acc d => acc * 10 + d) acc10 (leading_digits 10 s))%Z.
Proof.
  unfold all_units, some_unit. revert acc2 acc10.
  induction s as [|c s IH]; intros acc2 acc10;
    cbn [list_ascii_of_string forallb existsb leading_digits]; [discriminate|].
  intros [Hc Hs]%andb_true_iff Hsome Hacc.
  destruct (radix_digit_decimal c Hc) as (d & Hd10 & Hd & Hbig & _).
  rewrite Hd10, radix_digit_binary.
  destruct (is_binary_digit c) eqn:Hb.
  - cbn [negb orb] in Hsome. cbn [foldl].
    assert (d = if Ascii.eqb c "1" then 1 else 0)%Z as Hdv.
    { unfold is_binary_digit in Hb. apply orb_true_iff in Hb as [He | He];
        apply Ascii.eqb_eq in He; subst c; cbn in Hd10; by injection Hd10. }
    rewrite <- Hdv. apply IH; [done | done | lia].
  - cbn [foldl]. specialize (Hbig eq_refl).
    eapply Z.lt_le_trans; [|apply decimal_fold_grows; [done | lia]]. lia.
Qed.

Lemma binary_fold_nonneg s acc :
  (0 <= acc)%Z -> (0 <= foldl (fun acc d => acc * 2 + d) acc (leading_digits 2 s))%Z.
Proof.
  revert acc. induction s as [|c s IH]; intros acc Hacc; cbn [leading_digits];
    [exact Hacc|].
  rewrite radix_digit_binary. destruct (is_binary_digit c); [|exact Hacc].
  cbn [foldl]. apply IH. destruct (Ascii.eqb c "1"); lia.
Qed.

Lemma decimal_value_leading_from s acc :
  all_units is_decimal_digit s = true ->
  foldl (fun acc d => acc * 10 + d)%Z acc (leading_digits 10 s)
  = foldl (fun acc c => acc * 10 + (Z.of_N (N_of_ascii c) - 48))%Z acc
          (list_ascii_of_string s).
Proof.
  unfold all_units. revert acc.
  induction s as [|c s IH]; intros acc;
    cbn [list_ascii_of_string forallb leading_digits]; [done|].
  intros [Hc Hs]%andb_true_iff.
  assert (radix_digit 10 c = Some (Z.of_N (N_of_ascii c) - 48)%Z) as ->
    by (destruct c as [[] [] [] [] [] [] [] []]; try discriminate Hc; reflexivity).
  cbn [foldl]. by apply IH.
Qed.

Lemma decimal_value_leading s :
  all_units is_decimal_digit s = true ->
  radix_value 10 (leading_digits 10 s) = decimal_value s.
Proof. apply decimal_value_leading_from. Qed.

(** A string of decimal digits with a digit other than 0 and 1 is read
    as [NaN] or as an integer below its decimal value. *)
Lemma parseInt_decimal_numeral s :
  all_units is_decimal_digit s = true ->
  some_unit (fun c => negb (is_binary_digit c)) s = true ->
  parseInt s 2 = NaN \/
  exists binary, parseInt s 2 = Number_of_integer binary /\
                 (0 <= binary < decimal_value s)%Z.
Proof.
  intros Hall Hsome.
  assert (starts_with is_decimal_digit s = true) as Hstart.
  { destruct s as [|c s]; [discriminate|]. unfold all_units in Hall.
    cbn [list_ascii_of_string forallb] in Hall. by apply andb_true_iff in Hall as [? _]. }
  pose proof (binary_prefix_below_decimal s 0 0 Hall Hsome ltac:(lia)) as Hlt.
  rewrite (parseInt_unsigned 2) by (first [exact Hstart | auto]).
  case_bool_decide; [by left|]. right. eexists. split; [reflexivity|].
  rewrite <- (decimal_value_leading s Hall). split; [|exact Hlt].
  by apply binary_fold_nonneg.
Qed.




Example decimal_limits_misread :
  uploadSizeLimit (constructor "uploads" "eu-west-1" "10485760" "3600") = Num 2 /\
  uploadTimeLimit (constructor "uploads" "eu-west-1" "10485760" "3600") = NaN.
Proof. split; reflexivity. Qed.

(** The stored limit is a double: the numeral of [2 ^ 53 + 1] is read as
    [2 ^ 53], and a numeral of 1025 digits as [Infinity]. *)
Example long_limits_are_rounded :
  parseInt "100000000000000000000000000000000000000000000000000001" 2
    = Num (2 ^ 53) /\
  parseInt (string_of_list_ascii (replicate 1025 "1"%char)) 2 = PosInfinity.
Proof. split; vm_compute; reflexivity. Qed.

End UploadServiceFacts.

(* ===================================================================== *)
(** * Further properties of the pipeline state store *)
(* ===================================================================== *)

Module StoreFacts.
Import MetadataCache MetadataCacheFacts.

(** ** More on document paths *)

Lemma get_path_top k rest (item item' : Item) :
  item' !! k = item !! k -> get_path (k :: rest) item' = get_path (k :: rest) item.
Proof.
  intros Hk. destruct rest as [|k1 rest]; [exact Hk|]. by rewrite !get_path_cons2, Hk.
Qed.

(** A [SET] applies or not by the path and the item alone. *)
Lemma set_path_is_Some p v v' (item : Item) :
  is_Some (set_path p v item) -> is_Some (set_path p v' item).
Proof.
  revert item. induction p as [|k rest IH]; intros item [item' Hset]; [discriminate|].
  destruct rest as [|k1 rest]; [by eexists|].
  apply set_path_cons2_Some in Hset as (m & m1 & Hk & Hm & _).
  rewrite set_path_cons2, Hk. destruct (IH m (ex_intro _ m1 Hm)) as [m2 ->].
  by eexists.
Qed.

(** A second [SET] at the same path makes the first unobservable. *)
Lemma set_path_overwrite p v v' (item item1 : Item) :
  set_path p v item = Some item1 -> set_path p v' item1 = set_path p v' item.
Proof.
  revert item item1. induction p as [|k rest IH]; intros item item1 Hset; [discriminate|].
  destruct rest as [|k1 rest].
  - injection Hset as <-. cbn. by rewrite insert_insert_eq.
  - apply set_path_cons2_Some in Hset as (m & m1 & Hk & Hm & ->).
    rewrite !set_path_cons2, lookup_insert_eq, Hk, (IH _ _ Hm).
    destruct (set_path (k1 :: rest) v' m) as [m2|]; cbn; [|done].
    by rewrite insert_insert_eq.
Qed.

(** A [SET] rewrites the attribute at the head of its path, by a function
    of what that attribute held. *)
Lemma set_path_head k rest v :
  exists f : option AttributeValue -> option AttributeValue,
  forall item : Item, set_path (k :: rest) v item = x ← f (item !! k); Some (<[k := x]> item).
Proof.
  destruct rest as [|k1 rest].
  - exists (fun _ => Some v). reflexivity.
  - exists (fun cur => match cur with
                       | Some (AttrM m) => AttrM <$> set_path (k1 :: rest) v m
                       | _ => None
                       end).
    intros item. rewrite set_path_cons2.
    destruct (item !! k) as [[| | | |m|]|]; try reflexivity.
    by destruct (set_path (k1 :: rest) v m).
Qed.

(** Two [SET]s on paths that do not overlap commute, and whether one
    applies does not depend on the other having been applied. *)
Lemma set_path_commute p q v v' (item : Item) :
  overlap p q = false ->
  match set_path p v item, set_path q v' item with
  | Some i1, Some i2 => set_path q v' i1 = set_path p v i2 /\ is_Some (set_path q v' i1)
  | Some i1, None => set_path q v' i1 = None
  | None, Some i2 => set_path p v i2 = None
  | None, None => True
  end.
Proof.
  revert q item. induction p as [|k rp IH]; intros q item Hov; [done|].
  destruct q as [|k2 rq]; [by rewrite overlap_sym in Hov|].
  unfold overlap in Hov. cbn [is_prefix] in Hov.
  destruct (String.eqb_spec k k2) as [<-|Hne].
  - rewrite String.eqb_refl in Hov. cbn in Hov.
    destruct rp as [|k1 rp]; [done|].
    destruct rq as [|k3 rq]; [by rewrite orb_true_r in Hov|].
    specialize (IH (k3 :: rq)).
    rewrite !set_path_cons2.
    destruct (item !! k) as [[| | | |m|]|] eqn:Hk; try done.
    specialize (IH m Hov).
    destruct (set_path (k1 :: rp) v m) as [m1|] eqn:H1,
             (set_path (k3 :: rq) v' m) as [m2|] eqn:H2; cbn [mbind option_bind].
    + rewrite !set_path_cons2, !lookup_insert_eq. destruct IH as [-> [m12 ->]].
      cbn [mbind option_bind]. rewrite !insert_insert_eq. split; [done | by eexists].
    + rewrite set_path_cons2, lookup_insert_eq, IH. done.
    + rewrite set_path_cons2, lookup_insert_eq, IH. done.
    + done.
  - assert (k2 <> k) as Hne' by congruence.
    destruct (set_path_head k rp v) as [fp Hp], (set_path_head k2 rq v') as [fq Hq].
    rewrite !Hp, !Hq.
    destruct (fp (item !! k)) as [x|] eqn:Hx, (fq (item !! k2)) as [y|] eqn:Hy;
      cbn [mbind option_bind]; rewrite ?Hp, ?Hq, ?lookup_insert_ne, ?Hx, ?Hy by done;
      cbn [mbind option_bind]; try done.
    split; [|by eexists]. f_equal. by apply insert_insert_ne.
Qed.

(** A nested [SET] applies when the path without its last element leads
    to a map, and only then. *)
Lemma set_path_applies p v (item : Item) :
  2 <= length p ->
  is_Some (set_path p v item) <-> exists m, get_path (removelast p) item = Some (AttrM m).
Proof.
  revert item. induction p as [|k rest IH]; intros item Hlen; [cbn in Hlen; lia|].
  destruct rest as [|k1 rest]; [cbn in Hlen; lia|].
  destruct rest as [|k2 rest].
  - cbn [removelast get_path]. rewrite set_path_cons2.
    destruct (item !! k) as [[| | | |m|]|]; cbn;
      try (split; [by intros [? ?] | by intros [? ?]]).
    split; [by exists m | by eexists].
  - change (removelast (k :: k1 :: k2 :: rest)) with (k :: removelast (k1 :: k2 :: rest)).
    assert (exists k' r', removelast (k1 :: k2 :: rest) = k' :: r') as (k' & r' & Hr).
    { cbn. destruct rest; by eexists _, _. }
    rewrite Hr, get_path_cons2, set_path_cons2, <- Hr.
    destruct (item !! k) as [[| | | |m|]|];
      try (split; [by intros [? ?] | by intros [? ?]]).
    rewrite <- IH by (cbn; lia).
    destruct (set_path (k1 :: k2 :: rest) v m); cbn; split; intros [? ?]; by eauto.
Qed.

Lemma leaf_path_parent c p :
  UPDATE_PATHS !! c = Some p ->
  2 <= length p /\ exists rest, removelast p = "metadata" :: rest.
Proof.
  intros Hp. apply UPDATE_PATHS_lookup in Hp. rewrite !elem_of_cons, elem_of_nil in Hp.
  destruct Hp as [Hp|[Hp|[Hp|[Hp|[Hp|[]]]]]]; injection Hp as _ ->; cbn;
    (split; [lia | by eexists]).
Qed.

Lemma key_item_get_path u a k rest :
  k <> "userId" -> k <> "assetId" ->
  get_path (k :: rest) (object [("userId", AttrS u); ("assetId", AttrS a)] : Item) = None.
Proof.
  intros H1 H2. destruct rest; [by apply key_item_lookup|].
  by rewrite get_path_cons2, key_item_lookup.
Qed.

Lemma base_get_path (t : Table) u a k rest :
  k <> "userId" -> k <> "assetId" ->
  get_path (k :: rest) (default (object [("userId", AttrS u); ("assetId", AttrS a)]) (t !! (u, a)))
  = t !! (u, a) ≫= get_path (k :: rest).
Proof.
  intros H1 H2. destruct (t !! (u, a)); cbn [from_option id mbind option_bind]; [done|].
  by apply key_item_get_path.
Qed.


Lemma insert_progress_twice (item pm : Item) f v1 v2 s1 s2 :
  f <> "updatedAt" ->
  <["updatedAt" := AttrS s2]> (<[f := v2]> (<["updatedAt" := AttrS s1]> (<[f := v1]> pm)))
  = <["updatedAt" := AttrS s2]> (<[f := v2]> pm).
Proof.
  intros Hf. rewrite (insert_insert_ne _ f "updatedAt") by done.
  by rewrite !insert_insert_eq.
Qed.

Section Store.
Context `{NumberModel} `{Service}.

(** ** What one call does to the table *)

(** A call leaves the table as it was and does not return [true], or
    returns [true] and has stored one item under the key it addresses:
    the fresh record for [InitializeRecord], and for the three updates the
    record that was there, rewritten. *)
Lemma perform_cases this c w :
  ((perform this c w).1 <> Return true /\ table (perform this c w).2 = table w) \/
  exists item',
    (perform this c w).1 = Return true /\
    table (perform this c w).2 = <[key_of c := item']> (table w) /\
    ((exists u a, c = CallInitializeRecord u a /\
        forallb (attribute_not_exists (table w !! (u, a))) ["userId"; "assetId"] = true /\
        fresh_record u a (clock w (tick w)) (clock w (S (tick w))) item') \/
     (exists item u a c0 p data m,
        c = CallUpdateMetadata u a c0 data /\ table w !! (u, a) = Some item /\
        UPDATE_PATHS !! c0 = Some p /\ convertToMapAttribute data = Return m /\
        set_path p (AttrM m) item = Some item') \/
     (exists item pm field value,
        (c = CallUpdateProgress (key_of c).1 (key_of c).2 field value /\ field <> "updatedAt" \/
         c = CallMarkCriticalFailure (key_of c).1 (key_of c).2 value /\
         field = "hasCriticalFailure") /\
        table w !! key_of c = Some item /\ item !! "progress" = Some (AttrM pm) /\
        item' = <["progress" := AttrM (<["updatedAt" := AttrS (clock w (tick w))]>
                                         (<[field := AttrBOOL value]> pm))]> item)).
Proof.
  destruct c as [u0 a0 | u0 a0 path data | u0 a0 stage value | u0 a0 value];
    cbn [perform key_of fst snd].
  - destruct (InitializeRecord_run this u0 a0 w) as (cmd & item & -> & Hfresh).
    destruct (forallb _ _) eqn:Hcond; [destruct (valid_key _)|];
      cbn [fst snd table]; [|by left..].
    right. exists item. split; [done|]. split; [done|]. left. by exists u0, a0.
  - destruct (UPDATE_PATHS !! path) as [p|] eqn:Hp;
      [| rewrite updateMetadata_unknown by done; by left].
    destruct (convertToMapAttribute data) as [m|e] eqn:Hd;
      [| erewrite updateMetadata_not_encodable by done; by left].
    destruct (updateMetadata_run this u0 a0 path p data m w Hp Hd) as (cmd & ->).
    destruct (numbers_accepted (AttrM m)); [|by left].
    destruct (set_path p (AttrM m) _) as [item'|] eqn:Hset; cbn [fst snd table];
      [|by left].
    right. exists item'. split; [done|]. split; [done|]. right. left.
    destruct (table w !! (u0, a0)) as [item|] eqn:Hitem; cbn [from_option id] in Hset.
    + by exists item, u0, a0, path, p, data, m.
    + exfalso. destruct (leaf_path_head _ _ Hp) as ([|k rest] & ->).
      * apply UPDATE_PATHS_lookup in Hp. rewrite !elem_of_cons, elem_of_nil in Hp.
        by destruct Hp as [Hp|[Hp|[Hp|[Hp|[Hp|[]]]]]].
      * rewrite set_path_cons2, key_item_lookup in Hset by done. discriminate.
  - destruct (updateProgress_run this u0 a0 stage value w) as (cmd & ->).
    destruct (refused_stage stage) eqn:Hstage; [by left|].
    apply refused_stage_false in Hstage as [Hne _].
    destruct (_ !! "progress") as [[| | | |pm|]|] eqn:Hprog; cbn [fst snd table];
      try by left.
    right. eexists. split; [done|]. split; [done|]. right. right.
    apply base_lookup_Some in Hprog as (item & Hitem & Hprog); [|done..].
    exists item, pm, stage, value. rewrite Hitem. cbn [from_option id].
    split; [by left|]. done.
  - destruct (markCriticalFailure_run this u0 a0 value w) as (cmd & ->).
    destruct (_ !! "progress") as [[| | | |pm|]|] eqn:Hprog; cbn [fst snd table];
      try by left.
    right. eexists. split; [done|]. split; [done|]. right. right.
    apply base_lookup_Some in Hprog as (item & Hitem & Hprog); [|done..].
    exists item, pm, "hasCriticalFailure", value. rewrite Hitem. cbn [from_option id].
    split; [by right|]. done.
Qed.


(** X2.  A call of one of the four operations sends at most one request.
    Either it raises a TypeError before sending anything and leaves the
    world as it was, which only [updateMetadata] does; or it sends exactly
    one request and then returns [true], or raises the exception of the
    store with the table unchanged.  No call returns [false]. *)
Theorem each_call_sends_at_most_one_request this c w :
  (perform this c w = (Throw TypeError, w) /\
   exists u a path data, c = CallUpdateMetadata u a path data) \/
  (exists cmd,
     requests (perform this c w).2 = (requests w ++ [cmd])%list /\
     clock (perform this c w).2 = clock w /\
     ((perform this c w).1 = Return true \/
      ((perform this c w).1 = Throw ValidationException \/
       (perform this c w).1 = Throw ConditionalCheckFailedException) /\
      table (perform this c w).2 = table w)).
Proof.
  destruct c as [u0 a0 | u0 a0 path data | u0 a0 stage value | u0 a0 value];
    cbn [perform].
  - right. destruct (InitializeRecord_run this u0 a0 w) as (cmd & item & -> & _).
    exists cmd. destruct (forallb _ _); [destruct (valid_key _)|];
      cbn [fst snd requests clock table]; auto 10.
  - destruct (UPDATE_PATHS !! path) as [p|] eqn:Hp;
      [| left; split; [by apply updateMetadata_unknown | by eexists _, _, _, _]].
    destruct (convertToMapAttribute data) as [m|e] eqn:Hd;
      [| left; split; [by eapply updateMetadata_not_encodable | by eexists _, _, _, _]].
    right. destruct (updateMetadata_run this u0 a0 path p data m w Hp Hd) as (cmd & ->).
    exists cmd. destruct (numbers_accepted (AttrM m));
      [|cbn [fst snd requests clock table]; auto 10].
    destruct (set_path _ _ _); cbn [fst snd requests clock table]; auto 10.
  - right. destruct (updateProgress_run this u0 a0 stage value w) as (cmd & ->).
    exists cmd. destruct (refused_stage stage);
      [cbn [fst snd requests clock table]; auto 10|].
    destruct (_ !! "progress") as [[| | | |pm|]|]; cbn [fst snd requests clock table]; auto 10.
  - right. destruct (markCriticalFailure_run this u0 a0 value w) as (cmd & ->).
    exists cmd.
    destruct (_ !! "progress") as [[| | | |pm|]|]; cbn [fst snd requests clock table]; auto 10.
Qed.

Lemma perform_other_key this c w key :
  key_of c <> key -> table (perform this c w).2 !! key = table w !! key.
Proof.
  intros Hk. destruct (perform_cases this c w) as [[_ ->] | (item' & _ & -> & _)]; [done|].
  by apply lookup_insert_ne.
Qed.

(** X7.  Calls change the record they address and no other: a record is
    the same after any sequence of calls none of which addresses its key. *)
Theorem calls_leave_other_records this calls w key :
  (forall c, c ∈ calls -> key_of c <> key) ->
  table (run this calls w) !! key = table w !! key.
Proof.
  revert w. induction calls as [|c calls IH]; intros w Hcalls; [done|].
  change (run this (c :: calls) w) with (run this calls (perform this c w).2).
  rewrite IH by (intros c' Hc'; apply Hcalls; by right).
  apply perform_other_key, Hcalls. by left.
Qed.

Lemma perform_keeps_record this c w key item :
  consistent (table w) -> table w !! key = Some item ->
  exists item',
    table (perform this c w).2 !! key = Some item' /\
    item' !! "createdAt" = item !! "createdAt" /\
    item' !! "userId" = item !! "userId" /\
    item' !! "assetId" = item !! "assetId".
Proof.
  intros Hcons Hitem.
  destruct (decide (key_of c = key)) as [Hk|Hk];
    [| exists item; by rewrite perform_other_key].
  destruct (perform_cases this c w) as [[_ ->] | (item' & _ & -> & Hcase)];
    [by exists item|].
  rewrite Hk, lookup_insert_eq. exists item'. split; [done|].
  destruct Hcase as [(u & a & -> & Hcond & _) |
                     [(item0 & u & a & c0 & p & data & m & -> & Hitem0 & Hp & _ & Hset) |
                      (item0 & pm & field & value & _ & Hitem0 & _ & ->)]].
  - exfalso. cbn [key_of] in Hk. subst key. rewrite Hitem in Hcond.
    apply Hcons in Hitem. unfold primary_key in Hitem.
    destruct (item !! "userId") as [[uid| | | | |]|] eqn:Hu; try discriminate Hitem.
    cbn [forallb attribute_not_exists] in Hcond. rewrite Hu in Hcond.
    by rewrite bool_decide_eq_false_2 in Hcond.
  - cbn [key_of] in Hk. subst key. rewrite Hitem in Hitem0. injection Hitem0 as <-.
    destruct (leaf_path_head _ _ Hp) as (rest & ->).
    by rewrite !(set_path_top _ _ _ _ _ _ Hset).
  - rewrite Hk, Hitem in Hitem0. injection Hitem0 as <-.
    by rewrite !lookup_insert_ne.
Qed.

(** X8.  Records are never deleted, and what identifies them is never
    rewritten: in a table whose items carry their keys, a stored record is
    still stored after any sequence of calls, with the [createdAt],
    [userId] and [assetId] it had. *)
Theorem records_persist this calls w key item :
  consistent (table w) -> table w !! key = Some item ->
  exists item',
    table (run this calls w) !! key = Some item' /\
    item' !! "createdAt" = item !! "createdAt" /\
    item' !! "userId" = item !! "userId" /\
    item' !! "assetId" = item !! "assetId".
Proof.
  revert w item. induction calls as [|c calls IH]; intros w item Hcons Hitem;
    [by exists item|].
  change (run this (c :: calls) w) with (run this calls (perform this c w).2).
  destruct (perform_keeps_record this c w key item Hcons Hitem)
    as (item1 & Hitem1 & Hc1 & Hu1 & Ha1).
  destruct (IH _ item1 (perform_consistent this c w Hcons) Hitem1)
    as (item' & Hitem' & Hc & Hu & Ha).
  exists item'. split; [done|]. by rewrite Hc, Hu, Ha.
Qed.

(** X9.  The three update operations never create a record: a key that
    has a record after a sequence of calls, and had none before, was
    initialized by an [InitializeRecord] of the sequence. *)
Theorem records_come_from_InitializeRecord this calls w key :
  table w !! key = None -> is_Some (table (run this calls w) !! key) ->
  CallInitializeRecord key.1 key.2 ∈ calls.
Proof.
  revert w. induction calls as [|c calls IH]; intros w Hnone Hsome.
  - cbn in Hsome. rewrite Hnone in Hsome. by destruct Hsome.
  - change (run this (c :: calls) w) with (run this calls (perform this c w).2) in Hsome.
    destruct (table (perform this c w).2 !! key) as [item1|] eqn:Hstep;
      [| apply elem_of_cons; right; by eapply IH].
    apply elem_of_cons. left. destruct (decide (key_of c = key)) as [Hk|Hk];
      [| rewrite perform_other_key, Hnone in Hstep; done].
    destruct (perform_cases this c w) as [[_ Heq] | (item' & _ & _ & Hcase)];
      [by rewrite Heq, Hnone in Hstep|].
    destruct Hcase as [(u & a & -> & _) |
                       [(item0 & u & a & c0 & p & data & m & -> & Hitem0 & _) |
                        (item0 & pm & field & value & _ & Hitem0 & _)]].
    + cbn [key_of] in Hk. by subst key.
    + cbn [key_of] in Hk. subst key. by rewrite Hnone in Hitem0.
    + rewrite Hk, Hnone in Hitem0. done.
Qed.


Lemma base_lookup (t : Table) u a k :
  k <> "userId" -> k <> "assetId" ->
  default (object [("userId", AttrS u); ("assetId", AttrS a)]) (t !! (u, a)) !! k
  = t !! (u, a) ≫= (.!! k).
Proof.
  intros H1 H2. destruct (t !! (u, a)); cbn [from_option id mbind option_bind]; [done|].
  by apply key_item_lookup.
Qed.

(** X1.  What a successful update found.  An [updateProgress] that
    returns [true] was made on a record that has a map under [progress],
    for a stage that is neither ["updatedAt"] (the two paths of the
    expression would coincide) nor empty; a [markCriticalFailure] that
    returns [true], on a record that has a map under [progress]; an
    [updateMetadata] that returns [true], for a category and data it
    accepts, on a record that has a map at the parent of the path of the
    category, with data whose numbers the service accepts.  A call that
    does not return [true] raises the [ValidationException] of the store
    and writes nothing. *)
Theorem updates_apply_only_where_the_parent_map_exists this u a w :
  (forall stage value,
     ((updateProgress this u a stage value w).1 = Return true ->
      stage <> "updatedAt" /\ stage <> EmptyString /\
      exists pm, table w !! (u, a) ≫= (.!! "progress") = Some (AttrM pm)) /\
     ((updateProgress this u a stage value w).1 = Return true \/
      (updateProgress this u a stage value w).1 = Throw ValidationException /\
      table (updateProgress this u a stage value w).2 = table w)) /\
  (forall value,
     ((markCriticalFailure this u a value w).1 = Return true ->
      exists pm, table w !! (u, a) ≫= (.!! "progress") = Some (AttrM pm)) /\
     ((markCriticalFailure this u a value w).1 = Return true \/
      (markCriticalFailure this u a value w).1 = Throw ValidationException /\
      table (markCriticalFailure this u a value w).2 = table w)) /\
  (forall c p data,
     UPDATE_PATHS !! c = Some p -> data <> JNull -> data <> JUndefined ->
     ((updateMetadata this u a c data w).1 = Return true ->
      (exists pm, table w !! (u, a) ≫= get_path (removelast p) = Some (AttrM pm)) /\
      exists m, convertToMapAttribute data = Return m /\
                numbers_accepted (AttrM m) = true) /\
     ((updateMetadata this u a c data w).1 = Return true \/
      (updateMetadata this u a c data w).1 = Throw ValidationException /\
      table (updateMetadata this u a c data w).2 = table w)).
Proof.
  split; [|split].
  - intros stage value.
    destruct (updateProgress_run this u a stage value w) as (cmd & ->).
    rewrite base_lookup by done.
    destruct (refused_stage stage) eqn:Hstage; cbn [fst snd table].
    { split; [done | by right]. }
    apply refused_stage_false in Hstage as [Hnu Hne].
    destruct (table w !! (u, a) ≫= (.!! "progress")) as [[| | | |pm|]|];
      cbn [fst snd table]; try (split; [done | by right]).
    split; [|by left]. intros _. split; [done|]. split; [done | by eexists].
  - intros value.
    destruct (markCriticalFailure_run this u a value w) as (cmd & ->).
    rewrite base_lookup by done.
    destruct (table w !! (u, a) ≫= (.!! "progress")) as [[| | | |pm|]|];
      cbn [fst snd table]; try (split; [done | by right]).
    split; [|by left]. intros _. by eexists.
  - intros c p data Hp Hnull Hundef.
    assert (exists m, convertToMapAttribute data = Return m) as [m Hd]
      by (destruct data; try done; eexists; reflexivity).
    destruct (updateMetadata_run this u a c p data m w Hp Hd) as (cmd & ->).
    destruct (leaf_path_parent c p Hp) as (Hlen & rest & Hrest).
    pose proof (set_path_applies p (AttrM m)
      (default (object [("userId", AttrS u); ("assetId", AttrS a)]) (table w !! (u, a))) Hlen)
      as Happ.
    rewrite Hrest, base_get_path, <- Hrest in Happ by done.
    destruct (numbers_accepted (AttrM m)) eqn:Hnum; cbn [fst snd table];
      [| split; [done | by right]].
    destruct (set_path p (AttrM m) _) as [item'|]; cbn [fst snd table].
    + split; [|by left]. intros _. split; [apply Happ; by eexists | by exists m].
    + split; [done | by right].
Qed.

(** X3.  The last write of a flag wins, and nothing latches.  After two
    calls of [updateProgress] for one stage the table is what the second
    call alone, made at its reading of the clock, would have left; the same
    for [markCriticalFailure].  So a stage set to [true] and then to
    [false], by two calls that return [true], reads [false]. *)
Theorem progress_flags_last_write_wins this u a w :
  (forall stage v1 v2,
     table (updateProgress this u a stage v2 (updateProgress this u a stage v1 w).2).2
     = table (updateProgress this u a stage v2 (after_reading w)).2) /\
  (forall v1 v2,
     table (markCriticalFailure this u a v2 (markCriticalFailure this u a v1 w).2).2
     = table (markCriticalFailure this u a v2 (after_reading w)).2) /\
  (forall stage,
     (updateProgress this u a stage true w).1 = Return true ->
     (updateProgress this u a stage false (updateProgress this u a stage true w).2).1
       = Return true ->
     table (updateProgress this u a stage false (updateProgress this u a stage true w).2).2
       !! (u, a) ≫= get_path ["progress"; stage] = Some (AttrBOOL false)).
Proof.
  split; [|split].
  - intros stage v1 v2.
    destruct (updateProgress_run this u a stage v1 w) as (cmd1 & ->).
    destruct (updateProgress_run this u a stage v2 (after_reading w)) as (cmd2 & ->).
    cbn [after_reading table requests clock tick].
    destruct (refused_stage stage) eqn:Hstage.
    { cbn [snd]. set (w1 := mkWorld _ _ _ _).
      destruct (updateProgress_run this u a stage v2 w1) as (cmd3 & ->).
      by rewrite Hstage. }
    pose proof (proj1 (refused_stage_false stage) Hstage) as [Hne _].
    destruct (_ !! "progress") as [[| | | |pm|]|] eqn:Hprog; cbn [snd table].
    all: set (w1 := mkWorld _ _ _ _).
    all: destruct (updateProgress_run this u a stage v2 w1) as (cmd3 & ->).
    all: rewrite Hstage.
    all: subst w1; cbn [table requests clock tick]; rewrite ?Hprog; cbn [snd table]; try done.
    rewrite lookup_insert_eq. cbn [from_option id]. rewrite lookup_insert_eq.
    cbn [snd table]. rewrite !insert_insert_eq. by rewrite insert_progress_twice.
  - intros v1 v2.
    destruct (markCriticalFailure_run this u a v1 w) as (cmd1 & ->).
    destruct (markCriticalFailure_run this u a v2 (after_reading w)) as (cmd2 & ->).
    cbn [after_reading table requests clock tick].
    destruct (_ !! "progress") as [[| | | |pm|]|] eqn:Hprog; cbn [snd table].
    all: set (w1 := mkWorld _ _ _ _).
    all: destruct (markCriticalFailure_run this u a v2 w1) as (cmd3 & ->).
    all: subst w1; cbn [table requests clock tick]; rewrite ?Hprog; cbn [snd table]; try done.
    rewrite lookup_insert_eq. cbn [from_option id]. rewrite lookup_insert_eq.
    cbn [snd table]. rewrite !insert_insert_eq. by rewrite insert_progress_twice.
  - intros stage.
    destruct (updateProgress_run this u a stage true w) as (cmd1 & ->).
    destruct (refused_stage stage) eqn:Hstage; [not_true|].
    pose proof (proj1 (refused_stage_false stage) Hstage) as [Hne _].
    destruct (_ !! "progress") as [[| | | |pm|]|]; try not_true.
    intros _. cbn [fst snd]. set (w1 := mkWorld _ _ _ _).
    destruct (updateProgress_run this u a stage false w1) as (cmd2 & ->).
    subst w1. cbn [table requests clock tick]. rewrite lookup_insert_eq.
    cbn [from_option id]. rewrite lookup_insert_eq, Hstage.
    intros _. cbn [fst snd table].
    rewrite lookup_insert_eq. cbn [mbind option_bind].
    rewrite get_path_cons2, lookup_insert_eq. cbn [get_path].
    rewrite lookup_insert_ne by done. apply lookup_insert_eq.
Qed.

Lemma encodable (data : JSValue) :
  data <> JNull -> data <> JUndefined -> exists m, convertToMapAttribute data = Return m.
Proof. intros Hnull Hundef. destruct data; try done; eexists; reflexivity. Qed.

Lemma updateMetadata_noop this u a c data w :
  UPDATE_PATHS !! c = None \/ (exists e, convertToMapAttribute data = Throw e) ->
  updateMetadata this u a c data w = (Throw TypeError, w).
Proof.
  intros [Hc | [e He]];
    [by apply updateMetadata_unknown | by eapply updateMetadata_not_encodable].
Qed.

(** The table after a call of [updateMetadata] that reaches the store. *)
Lemma updateMetadata_table this u a c p data m w :
  UPDATE_PATHS !! c = Some p -> convertToMapAttribute data = Return m ->
  table (updateMetadata this u a c data w).2 =
  match (if numbers_accepted (AttrM m)
         then set_path p (AttrM m)
                (default (object [("userId", AttrS u); ("assetId", AttrS a)])
                         (table w !! (u, a)))
         else None) with
  | Some item' => <[(u, a) := item']> (table w)
  | None => table w
  end.
Proof.
  intros Hp Hd. destruct (updateMetadata_run this u a c p data m w Hp Hd) as (cmd & ->).
  destruct (numbers_accepted (AttrM m)); [|done].
  by destruct (set_path p (AttrM m) _).
Qed.

(** What a call of [updateMetadata] that returns [true] was given. *)
Lemma updateMetadata_true this u a c data w :
  (updateMetadata this u a c data w).1 = Return true ->
  exists p m item',
    UPDATE_PATHS !! c = Some p /\ convertToMapAttribute data = Return m /\
    numbers_accepted (AttrM m) = true /\
    set_path p (AttrM m)
      (default (object [("userId", AttrS u); ("assetId", AttrS a)]) (table w !! (u, a)))
      = Some item'.
Proof.
  destruct (UPDATE_PATHS !! c) as [p|] eqn:Hp;
    [| by rewrite updateMetadata_unknown].
  destruct (convertToMapAttribute data) as [m|e] eqn:Hd;
    [| by erewrite updateMetadata_not_encodable].
  destruct (updateMetadata_run this u a c p data m w Hp Hd) as (cmd & ->).
  destruct (numbers_accepted (AttrM m)) eqn:Hnum; [|discriminate].
  destruct (set_path p (AttrM m) _) as [item'|] eqn:Hset; [|discriminate].
  intros _. by exists p, m, item'.
Qed.

(** X4.  [updateMetadata] replaces the leaf, it does not merge: when the
    second of two calls for one category returns [true], the table is what
    that call alone would have left, and that call alone returns [true]
    as well. *)
Theorem updateMetadata_replaces_the_leaf this u a c d1 d2 w :
  (updateMetadata this u a c d2 (updateMetadata this u a c d1 w).2).1 = Return true ->
  table (updateMetadata this u a c d2 (updateMetadata this u a c d1 w).2).2
    = table (updateMetadata this u a c d2 w).2 /\
  (updateMetadata this u a c d2 w).1 = Return true.
Proof.
  intros Htrue.
  destruct (updateMetadata_true _ _ _ _ _ _ Htrue)
    as (p & m2 & item2 & Hp & Hd2 & Hnum2 & Hset2).
  rewrite !(updateMetadata_table _ _ _ c p d2 m2) by done.
  destruct (updateMetadata_run this u a c p d2 m2 w Hp Hd2) as (cmd2 & ->).
  rewrite Hnum2, Hset2.
  set (base := default _ (table w !! (u, a))).
  assert (table (updateMetadata this u a c d1 w).2 = table w \/
          exists m1 item1,
            set_path p (AttrM m1) base = Some item1 /\
            table (updateMetadata this u a c d1 w).2 = <[(u, a) := item1]> (table w))
    as Hfirst.
  { destruct (convertToMapAttribute d1) as [m1|e] eqn:Hd1;
      [| left; by erewrite updateMetadata_not_encodable].
    rewrite (updateMetadata_table _ _ _ c p d1 m1) by done.
    destruct (numbers_accepted (AttrM m1)); [|by left]. fold base.
    destruct (set_path p (AttrM m1) base) as [item1|] eqn:Hset1;
      [right; by eexists _, _ | by left]. }
  revert Hset2. destruct Hfirst as [-> | (m1 & item1 & Hset1 & ->)].
  - fold base. by intros ->.
  - rewrite lookup_insert_eq. cbn [from_option id].
    rewrite (set_path_overwrite _ _ _ _ _ Hset1). intros ->.
    by rewrite insert_insert_eq.
Qed.

(** Two rewritings of one record commute when they commute on every item
    and neither decides whether the other applies. *)
Lemma rewrite_record_commute (f g : Item -> option Item) (u a : string) (t : Table) :
  (forall item : Item,
     match f item, g item with
     | Some i1, Some i2 => g i1 = f i2 /\ is_Some (g i1)
     | Some i1, None => g i1 = None
     | None, Some i2 => f i2 = None
     | None, None => True
     end) ->
  rewrite_record g u a (rewrite_record f u a t) = rewrite_record f u a (rewrite_record g u a t).
Proof.
  intros Hcomm. unfold rewrite_record.
  set (base := default _ (t !! (u, a))). specialize (Hcomm base).
  destruct (f base) as [i1|] eqn:Hf, (g base) as [i2|] eqn:Hg;
    rewrite ?lookup_insert_eq; cbn [from_option id]; fold base; rewrite ?Hf, ?Hg.
  - destruct Hcomm as [Heq [i12 H12]]. rewrite <- Heq, H12. by rewrite !insert_insert_eq.
  - by rewrite Hcomm.
  - by rewrite Hcomm.
  - done.
Qed.

Lemma updateMetadata_rewrites this u a c p data m w :
  UPDATE_PATHS !! c = Some p -> convertToMapAttribute data = Return m ->
  table (updateMetadata this u a c data w).2
    = (if numbers_accepted (AttrM m)
       then rewrite_record (set_path p (AttrM m)) u a (table w)
       else table w) /\
  clock (updateMetadata this u a c data w).2 = clock w /\
  tick (updateMetadata this u a c data w).2 = tick w.
Proof.
  intros Hp Hd. destruct (updateMetadata_run this u a c p data m w Hp Hd) as (cmd & ->).
  destruct (numbers_accepted (AttrM m)); [|done].
  unfold rewrite_record. by destruct (set_path p (AttrM m) _).
Qed.

(** X5.  Calls of [updateMetadata] for two different categories commute:
    the table is the same after either order, whatever the arguments and
    whether or not the calls succeed. *)
Theorem updateMetadata_commutes this u a c1 c2 d1 d2 w :
  c1 <> c2 ->
  table (updateMetadata this u a c2 d2 (updateMetadata this u a c1 d1 w).2).2
  = table (updateMetadata this u a c1 d1 (updateMetadata this u a c2 d2 w).2).2.
Proof.
  intros Hne.
  destruct (UPDATE_PATHS !! c1) as [p1|] eqn:Hp1;
    [| by rewrite !(updateMetadata_unknown _ _ _ c1)].
  destruct (convertToMapAttribute d1) as [m1|e] eqn:Hd1;
    [| by erewrite !(updateMetadata_not_encodable _ _ _ _ d1)].
  destruct (UPDATE_PATHS !! c2) as [p2|] eqn:Hp2;
    [| by rewrite !(updateMetadata_unknown _ _ _ c2)].
  destruct (convertToMapAttribute d2) as [m2|e] eqn:Hd2;
    [| by erewrite !(updateMetadata_not_encodable _ _ _ _ d2)].
  repeat match goal with
         | |- context [table (updateMetadata this u a ?c ?d ?w0).2] =>
             rewrite (proj1 (updateMetadata_rewrites this u a c _ d _ w0
                               ltac:(eassumption) ltac:(eassumption)))
         end.
  destruct (numbers_accepted (AttrM m1)), (numbers_accepted (AttrM m2)); try done.
  apply rewrite_record_commute. intros item.
  by apply set_path_commute, (leaf_paths_disjoint c1 c2).
Qed.

Lemma set_path_keeps_progress c p v (item item' : Item) :
  UPDATE_PATHS !! c = Some p -> set_path p v item = Some item' ->
  item' !! "progress" = item !! "progress".
Proof.
  intros Hp Hset. destruct (leaf_path_head c p Hp) as (rest & ->).
  by eapply set_path_top.
Qed.

(** A write to [progress] and a [SET] on a metadata leaf commute. *)
Lemma set_leaf_after_progress_write c p v (item : Item) progress :
  UPDATE_PATHS !! c = Some p ->
  set_path p v (<["progress" := progress]> item)
  = (<["progress" := progress]>) <$> set_path p v item.
Proof.
  intros Hp. destruct (leaf_path_head c p Hp) as (rest & ->).
  destruct (set_path_head "metadata" rest v) as [fp Hfp].
  rewrite !Hfp, lookup_insert_ne by done.
  destruct (fp (item !! "metadata")) as [x|]; cbn; [|done].
  by rewrite insert_insert_ne.
Qed.

(** The two [SET] actions of [updateProgress] and of [markCriticalFailure],
    on [progress.<field>] and [progress.updatedAt]. *)
Lemma updateProgress_rewrites this u a stage value w :
  table (updateProgress this u a stage value w).2 =
    (if refused_stage stage then table w
     else rewrite_record
            (apply_sets [(["progress"; stage], AttrBOOL value);
                         (["progress"; "updatedAt"], AttrS (clock w (tick w)))])
            u a (table w)).
Proof.
  destruct (updateProgress_run this u a stage value w) as (cmd & ->).
  destruct (refused_stage stage); [done|].
  unfold rewrite_record. rewrite apply_sets_progress.
  by destruct (_ !! "progress") as [[| | | |pm|]|].
Qed.

Lemma markCriticalFailure_rewrites this u a value w :
  table (markCriticalFailure this u a value w).2 =
    rewrite_record
      (apply_sets [(["progress"; "hasCriticalFailure"], AttrBOOL value);
                   (["progress"; "updatedAt"], AttrS (clock w (tick w)))])
      u a (table w).
Proof.
  destruct (markCriticalFailure_run this u a value w) as (cmd & ->).
  unfold rewrite_record. rewrite apply_sets_progress.
  by destruct (_ !! "progress") as [[| | | |pm|]|].
Qed.

Lemma leaf_and_progress_sets_commute c p v field value now (item : Item) :
  UPDATE_PATHS !! c = Some p ->
  match set_path p v item,
        apply_sets [(["progress"; field], value); (["progress"; "updatedAt"], AttrS now)] item
  with
  | Some i1, Some i2 =>
      apply_sets [(["progress"; field], value); (["progress"; "updatedAt"], AttrS now)] i1
        = set_path p v i2 /\
      is_Some (apply_sets [(["progress"; field], value);
                           (["progress"; "updatedAt"], AttrS now)] i1)
  | Some i1, None =>
      apply_sets [(["progress"; field], value); (["progress"; "updatedAt"], AttrS now)] i1
        = None
  | None, Some i2 => set_path p v i2 = None
  | None, None => True
  end.
Proof.
  intros Hp. rewrite apply_sets_progress.
  destruct (set_path p v item) as [i1|] eqn:Hset.
  - rewrite apply_sets_progress, (set_path_keeps_progress _ _ _ _ _ Hp Hset).
    destruct (item !! "progress") as [[| | | |pm|]|]; try done.
    rewrite (set_leaf_after_progress_write c p) by done. rewrite Hset.
    split; [done | by eexists].
  - destruct (item !! "progress") as [[| | | |pm|]|]; try done.
    rewrite (set_leaf_after_progress_write c p) by done. by rewrite Hset.
Qed.

(** X6.  A metadata write commutes with a progress write: the table is the
    same whether [updateMetadata] is applied before or after an
    [updateProgress], or a [markCriticalFailure], that takes the same
    reading of the clock. *)
Theorem metadata_and_progress_writes_commute this u a c data w :
  (forall stage value,
     table (updateMetadata this u a c data (updateProgress this u a stage value w).2).2
     = table (updateProgress this u a stage value (updateMetadata this u a c data w).2).2) /\
  (forall value,
     table (updateMetadata this u a c data (markCriticalFailure this u a value w).2).2
     = table (markCriticalFailure this u a value (updateMetadata this u a c data w).2).2).
Proof.
  destruct (UPDATE_PATHS !! c) as [p|] eqn:Hp;
    [| split; intros; by rewrite !(updateMetadata_unknown _ _ _ c)].
  destruct (convertToMapAttribute data) as [m|e] eqn:Hd;
    [| split; intros; by erewrite !(updateMetadata_not_encodable _ _ _ _ data)].
  destruct (updateMetadata_rewrites this u a c p data m w Hp Hd) as (Htable & Hclock & Htick).
  split.
  - intros stage value.
    rewrite (proj1 (updateMetadata_rewrites _ _ _ c p data m
                      (updateProgress this u a stage value w).2 Hp Hd)).
    rewrite !updateProgress_rewrites, Hclock, Htick, Htable.
    destruct (numbers_accepted (AttrM m)); [|done].
    destruct (refused_stage stage); [done|].
    symmetry. apply rewrite_record_commute. intros item.
    by apply (leaf_and_progress_sets_commute c).
  - intros value.
    rewrite (proj1 (updateMetadata_rewrites _ _ _ c p data m
                      (markCriticalFailure this u a value w).2 Hp Hd)).
    rewrite !markCriticalFailure_rewrites, Hclock, Htick, Htable.
    destruct (numbers_accepted (AttrM m)); [|done].
    symmetry. apply rewrite_record_commute. intros item.
    by apply (leaf_and_progress_sets_commute c).
Qed.

(** ** The types of the attributes of a record *)

Lemma fresh_record_well_typed u a created updated item :
  fresh_record u a created updated item -> well_typed item.
Proof.
  intros (_ & Hc & Hl & Hs & Hf & Hu & _). unfold well_typed.
  split; [by eexists|]. split; [intros c p Hp; eexists; by eapply Hl|].
  split; [intros stage Hstage; eexists; by apply Hs|]. split; by eexists.
Qed.

Lemma set_leaf_well_typed c p m (item item' : Item) :
  UPDATE_PATHS !! c = Some p -> set_path p (AttrM m) item = Some item' ->
  well_typed item -> well_typed item'.
Proof.
  intros Hp Hset (Hc & Hl & Hs & Hf & Hu).
  assert (forall q, get_path ("progress" :: q) item' = get_path ("progress" :: q) item) as Hq
    by (intros q; eapply set_path_get_disjoint;
        [exact Hset | by eapply leaf_path_off_progress]).
  unfold well_typed. rewrite !Hq. split; [|split; [|split; [|done]]].
  - destruct (leaf_path_head c p Hp) as (rest & ->).
    by rewrite (set_path_top _ _ _ _ _ "createdAt" Hset).
  - intros c' p' Hp'. destruct (decide (c' = c)) as [->|Hne].
    + rewrite Hp in Hp'. injection Hp' as <-. exists m. by eapply set_path_get_same.
    + erewrite set_path_get_disjoint; [by eapply Hl | exact Hset |].
      by eapply leaf_paths_disjoint.
  - intros stage Hstage. rewrite Hq. by apply Hs.
Qed.

Lemma set_flag_well_typed field value now (item pm : Item) :
  field <> "updatedAt" -> item !! "progress" = Some (AttrM pm) -> well_typed item ->
  well_typed (<["progress" := AttrM (<["updatedAt" := AttrS now]>
                                       (<[field := AttrBOOL value]> pm))]> item).
Proof.
  intros Hfield Hpm (Hc & Hl & Hs & Hf & Hu).
  assert (forall s, s <> "updatedAt" ->
            is_flag (get_path ["progress"; s] item) ->
            is_flag (get_path ["progress"; s]
              (<["progress" := AttrM (<["updatedAt" := AttrS now]>
                                        (<[field := AttrBOOL value]> pm))]> item))) as Hflag.
  { intros s Hs' Hold. rewrite get_path_cons2, lookup_insert_eq. cbn [get_path].
    rewrite lookup_insert_ne by done. rewrite lookup_insert. case_decide; [by eexists|].
    rewrite get_path_cons2, Hpm in Hold. exact Hold. }
  unfold well_typed. split; [by rewrite lookup_insert_ne|]. split; [|split; [|split]].
  - intros c p Hp. destruct (leaf_path_head c p Hp) as (rest & ->).
    rewrite (get_path_top _ _ item) by (by rewrite lookup_insert_ne). by eapply Hl.
  - intros stage Hstage. apply Hflag; [by apply stage_not_updatedAt | by apply Hs].
  - by apply Hflag.
  - rewrite get_path_cons2, lookup_insert_eq. cbn [get_path].
    rewrite lookup_insert_eq. by eexists.
Qed.

Lemma perform_well_typed this c w :
  (forall key item, table w !! key = Some item -> well_typed item) ->
  forall key item, table (perform this c w).2 !! key = Some item -> well_typed item.
Proof.
  intros Hall key item.
  destruct (perform_cases this c w) as [[_ ->] | (item' & _ & -> & Hcase)];
    [apply Hall|].
  rewrite lookup_insert. case_decide as Hk; [|apply Hall]. intros [= <-].
  destruct Hcase as [(u & a & -> & _ & Hfresh) |
                     [(item0 & u & a & c0 & p & data & m & -> & Hitem0 & Hp & _ & Hset) |
                      (item0 & pm & field & value & Hc & Hitem0 & Hpm & ->)]].
  - by eapply fresh_record_well_typed.
  - eapply set_leaf_well_typed; [exact Hp | exact Hset | by eapply Hall].
  - apply set_flag_well_typed; [by destruct Hc as [[_ ?] | [_ ->]] | done | by eapply Hall].
Qed.

Lemma run_well_typed this calls w :
  (forall key item, table w !! key = Some item -> well_typed item) ->
  forall key item, table (run this calls w) !! key = Some item -> well_typed item.
Proof.
  revert w. induction calls as [|c calls IH]; intros w Hw; [done|].
  change (run this (c :: calls) w) with (run this calls (perform this c w).2).
  apply IH. by apply perform_well_typed.
Qed.

(** X10.  The types of the attributes of a record.  In every table reached
    from the empty one by any calls, under any clock, a record carries its
    key, [createdAt] and [progress.updatedAt] are strings, the five
    metadata leaves are maps, and the seven stage flags and
    [progress.hasCriticalFailure] are booleans. *)
Theorem reachable_records_are_well_typed this calls requests clock tick key item :
  table (run this calls (mkWorld ∅ requests clock tick)) !! key = Some item ->
  primary_key item = Some key /\ well_typed item.
Proof.
  intros Hitem. split.
  - eapply (run_consistent this calls); [|exact Hitem]. apply consistent_empty.
  - eapply (run_well_typed this calls); [|exact Hitem].
    intros key' item'. cbn [table]. by rewrite lookup_empty.
Qed.


(** X11.  A boolean or a number given as [data] has no entries:
    [updateMetadata] accepts it, returns [true] on an initialized record
    and leaves the empty map at the leaf of the category. *)
Theorem scalar_data_empties_the_leaf this u a c p data w item :
  UPDATE_PATHS !! c = Some p -> typeof data = TBoolean \/ typeof data = TNumber ->
  table w !! (u, a) = Some item -> initialized item ->
  (updateMetadata this u a c data w).1 = Return true /\
  exists item',
    table (updateMetadata this u a c data w).2 !! (u, a) = Some item' /\
    get_path p item' = Some (AttrM ∅).
Proof.
  intros Hp Hty Hitem Hinit.
  assert (convertToMapAttribute data = Return ∅) as Hd
    by (destruct data, Hty; try discriminate; reflexivity).
  destruct (updateMetadata_run this u a c p data ∅ w Hp Hd) as (cmd & ->).
  rewrite (proj2 (numbers_accepted_map ∅)) by apply map_Forall_empty.
  rewrite Hitem. cbn [from_option id].
  destruct (set_leaf c p (AttrM ∅) item Hp Hinit) as (item' & Hset & _).
  rewrite Hset. cbn [fst snd table]. split; [done|]. exists item'.
  split; [apply lookup_insert_eq | by eapply set_path_get_same].
Qed.

(** X12.  The command [createUpdateCommand] builds addresses the path
    registered for the category: its expression parses, resolves with the
    attribute names of the command to that path and to the encoded data,
    and uses every name and value the command defines. *)
Theorem createUpdateCommand_addresses_the_registered_path c p data m :
  UPDATE_PATHS !! c = Some p -> convertToMapAttribute data = Return m ->
  exists params actions,
    createUpdateCommand c data = Return params /\
    parse_update (UpdateExpression params) = Some actions /\
    mapM (resolve_action (ExpressionAttributeNames params)
                         (ExpressionAttributeValues params)) actions
      = Some [(p, AttrM m)] /\
    names_used (ExpressionAttributeNames params) actions = true /\
    values_used (ExpressionAttributeValues params) actions = true /\
    ExpressionAttributeNames params <> ∅.
Proof.
  intros Hp Hd. unfold createUpdateCommand. rewrite Hp, Hd.
  cbn [mbind Completion_bind mret Completion_ret].
  apply UPDATE_PATHS_lookup in Hp. rewrite !elem_of_cons, elem_of_nil in Hp.
  destruct Hp as [Hp|[Hp|[Hp|[Hp|[Hp|[]]]]]]; injection Hp as -> ->;
    eexists _, _; (split; [reflexivity|]);
    cbn [UpdateExpression ExpressionAttributeNames ExpressionAttributeValues];
    (split; [reflexivity|]); (split; [reflexivity|]); (split; [reflexivity|]);
    (split; [reflexivity|]); cbn [foldl]; apply insert_non_empty.
Qed.

(** A leaf that holds a number the service refuses, such as the one that
    prints as [Infinity], is not written: the call raises and the record
    stays as it was. *)
Lemma refused_number_keeps_the_record (infinity : number) this u a w :
  Number_toString infinity = "Infinity" ->
  (updateMetadata this u a "metadata.quality" (JObj [("score", JNum infinity)]) w).1
    = Throw ValidationException /\
  table (updateMetadata this u a "metadata.quality"
           (JObj [("score", JNum infinity)]) w).2 = table w.
Proof.
  intros Hprint.
  apply (updateMetadata_number_refused this u a "metadata.quality"
           ["metadata"; "quality"] (JObj [("score", JNum infinity)])
           (object [("score", AttrN "Infinity")]) w).
  - reflexivity.
  - cbn. by rewrite Hprint.
  - apply not_true_iff_false. rewrite numbers_accepted_map. intros Hall.
    specialize (Hall "score" (AttrN "Infinity") (lookup_insert_eq _ _ _)).
    cbn in Hall. by rewrite refuses_Infinity in Hall.
Qed.

End Store.

Section EncoderMore.
Context `{NumberModel}.

(** Induction on values, through the elements of arrays and the fields of
    objects. *)
Lemma JSValue_nested_ind (P : JSValue -> Prop) :
  P JNull -> P JUndefined -> (forall b, P (JBool b)) -> (forall n, P (JNum n)) ->
  (forall s, P (JStr s)) ->
  (forall elems, Forall P elems -> P (JArr elems)) ->
  (forall props, Forall (fun kv => P kv.2) props -> P (JObj props)) ->
  forall v, P v.
Proof.
  intros Hnull Hundef Hbool Hnum Hstr Harr Hobj.
  fix IH 1. intros [| | b | n | s | elems | props];
    [exact Hnull | exact Hundef | apply Hbool | apply Hnum | apply Hstr | |].
  - apply Harr. revert elems. fix IHl 1. intros [|e elems]; constructor;
      [apply IH | apply IHl].
  - apply Hobj. revert props. fix IHl 1. intros [|[k v] props]; constructor;
      [apply IH | apply IHl].
Qed.

Lemma forEach_assign_Forall (Q : AttributeValue -> Prop) f
    (entries : list (string * JSValue)) (result : Item) :
  map_Forall (fun _ v => Q v) result -> Forall (fun kv => Q (f kv.2)) entries ->
  map_Forall (fun _ v => Q v) (forEach_assign f entries result).
Proof.
  revert result. induction entries as [|[k v] entries IH]; intros result Hres Hall;
    [done|].
  apply Forall_cons in Hall as [Hv Hall].
  rewrite forEach_assign_cons. apply IH; [|done].
  unfold assign. destruct (String.eqb k "__proto__"); [done|].
  by apply map_Forall_insert_2.
Qed.

Lemma Forall_indexed_from {A} (P : A -> Prop) i (l : list A) :
  Forall P l -> Forall (fun kv => P kv.2) (indexed_from i l).
Proof.
  intros Hl. revert i. induction Hl as [|x l Hx Hl IH]; intros i; cbn; constructor; auto.
Qed.

Lemma encodeField_encoded (value : JSValue) : encoded (encodeField value).
Proof.
  induction value as [| | b | n | s | elems IH | props IH] using JSValue_nested_ind;
    cbn [encodeField]; try by constructor.
  - destruct (String.eqb_spec s "N/A"); by constructor.
  - constructor. rewrite forEach_assign_indexed_entries.
    apply forEach_assign_Forall; [apply map_Forall_empty|].
    by apply (Forall_indexed_from (fun e => encoded (encodeField e))).
  - constructor. apply forEach_assign_Forall; [apply map_Forall_empty | exact IH].
Qed.

Lemma encoded_get_path path (m : Item) v :
  encoded (AttrM m) -> get_path path m = Some v -> encoded v.
Proof.
  revert m. induction path as [|k rest IH]; intros m Hm Hget; [discriminate|].
  inversion Hm as [| | | |m' Hall]; subst.
  destruct rest as [|k1 rest]; [by eapply Hall|].
  rewrite get_path_cons2 in Hget.
  destruct (m !! k) as [[| | | |m1|]|] eqn:Hk; try discriminate.
  eapply IH; [|exact Hget]. by eapply (Hall k).
Qed.

(** X13.  What the encoder writes: strings other than ["N/A"], numbers,
    booleans, [{NULL: true}] and maps of such values.  At every path of
    the result there is no list tag, no [{NULL: false}] and no string
    ["N/A"]. *)
Theorem encoder_writes_scalars_and_maps_only (data : JSValue) m :
  convertToMapAttribute data = Return m ->
  encoded (AttrM m) /\
  forall path v, get_path path m = Some v ->
    encoded v /\ (forall l, v <> AttrL l) /\ v <> AttrNULL false /\ v <> AttrS "N/A".
Proof.
  intros Hd.
  assert (encoded (AttrM m)) as Hm.
  { constructor. unfold convertToMapAttribute in Hd.
    destruct (Object_entries data) as [entries|e] eqn:He; [|discriminate].
    injection Hd as <-.
    apply forEach_assign_Forall; [apply map_Forall_empty|].
    apply Forall_forall. intros kv _. apply encodeField_encoded. }
  split; [exact Hm|]. intros path v Hv.
  pose proof (encoded_get_path path m v Hm Hv) as Henc.
  split; [exact Henc|]. inversion Henc; subst; repeat split; congruence.
Qed.

(** X14.  The encoding does not tell an array from the object with its
    indices as keys, a string given as [data] from the array of its code
    units, nor [null] from [undefined] or from the string ["N/A"]. *)
Theorem encoder_conflates_arrays_with_objects (elems : list JSValue) s :
  encodeField (JArr elems) = encodeField (JObj (indexed_from 0 elems)) /\
  convertToMapAttribute (JArr elems) = convertToMapAttribute (JObj (indexed_from 0 elems)) /\
  convertToMapAttribute (JStr s) = convertToMapAttribute (JArr (code_units s)) /\
  encodeField (JStr "N/A") = encodeField JNull /\
  encodeField JUndefined = encodeField JNull.
Proof.
  split; [|by repeat split].
  cbn [encodeField]. by rewrite forEach_assign_indexed_entries.
Qed.

End EncoderMore.

(** ** The theorems at concrete inputs *)

Section StoreExamples.
#[local] Existing Instance integer_numbers.
#[local] Existing Instance sample_service.

Lemma stored_world_consistent : consistent (table stored_world).
Proof.
  apply (perform_consistent cache (CallInitializeRecord "u1" "a1") empty_world),
    consistent_empty.
Qed.

Lemma parent_map_example :
  UPDATE_PATHS !! "metadata.technical" = Some ["metadata"; "technical"] /\
  technical_data <> JNull /\ technical_data <> JUndefined /\
  (updateMetadata cache "u1" "a1" "metadata.technical" technical_data stored_world).1
    = Return true /\
  exists pm, table stored_world !! ("u1", "a1") ≫= get_path ["metadata"] = Some (AttrM pm).
Proof.
  assert (UPDATE_PATHS !! "metadata.technical" = Some ["metadata"; "technical"]) as Hp
    by reflexivity.
  assert (technical_data <> JNull) as H1 by discriminate.
  assert (technical_data <> JUndefined) as H2 by discriminate.
  assert ((updateMetadata cache "u1" "a1" "metadata.technical" technical_data
             stored_world).1 = Return true) as Htrue by reflexivity.
  split; [exact Hp|]. split; [exact H1|]. split; [exact H2|]. split; [exact Htrue|].
  destruct (updates_apply_only_where_the_parent_map_exists cache "u1" "a1" stored_world)
    as (_ & _ & Hmeta).
  exact (proj1 (proj1 (Hmeta "metadata.technical" ["metadata"; "technical"] technical_data
                         Hp H1 H2) Htrue)).
Defined.

Lemma latch_reset_example :
  (updateProgress cache "u1" "a1" "transcoding" true stored_world).1 = Return true /\
  (updateProgress cache "u1" "a1" "transcoding" false
     (updateProgress cache "u1" "a1" "transcoding" true stored_world).2).1 = Return true /\
  table (updateProgress cache "u1" "a1" "transcoding" false
           (updateProgress cache "u1" "a1" "transcoding" true stored_world).2).2
    !! ("u1", "a1") ≫= get_path ["progress"; "transcoding"] = Some (AttrBOOL false).
Proof.
  assert ((updateProgress cache "u1" "a1" "transcoding" true stored_world).1 = Return true)
    as H1 by reflexivity.
  assert ((updateProgress cache "u1" "a1" "transcoding" false
             (updateProgress cache "u1" "a1" "transcoding" true stored_world).2).1
          = Return true) as H2 by reflexivity.
  split; [exact H1|]. split; [exact H2|].
  destruct (progress_flags_last_write_wins cache "u1" "a1" stored_world) as (_ & _ & Hflag).
  exact (Hflag "transcoding" H1 H2).
Defined.

Lemma replaces_the_leaf_example :
  (updateMetadata cache "u1" "a1" "metadata.quality" quality_data
     (updateMetadata cache "u1" "a1" "metadata.quality" technical_data
        stored_world).2).1 = Return true /\
  table (updateMetadata cache "u1" "a1" "metadata.quality" quality_data
           (updateMetadata cache "u1" "a1" "metadata.quality" technical_data
              stored_world).2).2
  = table (updateMetadata cache "u1" "a1" "metadata.quality" quality_data stored_world).2.
Proof.
  assert ((updateMetadata cache "u1" "a1" "metadata.quality" quality_data
             (updateMetadata cache "u1" "a1" "metadata.quality" technical_data
                stored_world).2).1 = Return true) as Htrue by reflexivity.
  split; [exact Htrue|].
  exact (proj1 (updateMetadata_replaces_the_leaf cache "u1" "a1" "metadata.quality"
                  technical_data quality_data stored_world Htrue)).
Defined.

Lemma commutes_example :
  "metadata.technical" <> "metadata.quality" /\
  table (updateMetadata cache "u1" "a1" "metadata.quality" quality_data
           (updateMetadata cache "u1" "a1" "metadata.technical" technical_data
              stored_world).2).2
  = table (updateMetadata cache "u1" "a1" "metadata.technical" technical_data
             (updateMetadata cache "u1" "a1" "metadata.quality" quality_data
                stored_world).2).2.
Proof.
  assert ("metadata.technical" <> "metadata.quality") as Hne by discriminate.
  split; [exact Hne|].
  exact (updateMetadata_commutes cache "u1" "a1" "metadata.technical" "metadata.quality"
           technical_data quality_data stored_world Hne).
Defined.

Lemma other_records_example :
  (forall c, c ∈ [CallUpdateProgress "u2" "a2" "upload" true;
                  CallInitializeRecord "u1" "a2"] -> key_of c <> ("u1", "a1")) /\
  table (run cache [CallUpdateProgress "u2" "a2" "upload" true;
                    CallInitializeRecord "u1" "a2"] stored_world) !! ("u1", "a1")
  = table stored_world !! ("u1", "a1").
Proof.
  assert (forall c, c ∈ [CallUpdateProgress "u2" "a2" "upload" true;
                         CallInitializeRecord "u1" "a2"] -> key_of c <> ("u1", "a1"))
    as Hcalls.
  { intros c. rewrite !elem_of_cons, elem_of_nil. intros [->|[->|[]]]; discriminate. }
  split; [exact Hcalls|].
  exact (calls_leave_other_records cache _ stored_world ("u1", "a1") Hcalls).
Defined.

Lemma records_persist_example :
  exists item item',
    consistent (table stored_world) /\
    table stored_world !! ("u1", "a1") = Some item /\
    table (run cache [CallUpdateProgress "u1" "a1" "upload" true;
                      CallInitializeRecord "u1" "a1";
                      CallMarkCriticalFailure "u1" "a1" true] stored_world)
      !! ("u1", "a1") = Some item' /\
    item' !! "createdAt" = item !! "createdAt".
Proof.
  destruct first_record as (item & Hitem & _).
  destruct (records_persist cache
              [CallUpdateProgress "u1" "a1" "upload" true;
               CallInitializeRecord "u1" "a1";
               CallMarkCriticalFailure "u1" "a1" true]
              stored_world ("u1", "a1") item stored_world_consistent Hitem)
    as (item' & Hitem' & Hcreated & _).
  exists item, item'. split; [exact stored_world_consistent|]. by repeat split.
Defined.

Lemma created_by_InitializeRecord_example :
  table empty_world !! ("u1", "a1") = None /\
  is_Some (table (run cache [CallUpdateProgress "u1" "a1" "upload" true;
                             CallInitializeRecord "u1" "a1"] empty_world) !! ("u1", "a1")) /\
  CallInitializeRecord "u1" "a1"
    ∈ [CallUpdateProgress "u1" "a1" "upload" true; CallInitializeRecord "u1" "a1"].
Proof.
  assert (table empty_world !! ("u1", "a1") = None) as Hnone by apply lookup_empty.
  assert (is_Some (table (run cache [CallUpdateProgress "u1" "a1" "upload" true;
                                      CallInitializeRecord "u1" "a1"] empty_world)
                     !! ("u1", "a1"))) as Hsome by (eexists; reflexivity).
  split; [exact Hnone|]. split; [exact Hsome|].
  exact (records_come_from_InitializeRecord cache _ empty_world ("u1", "a1") Hnone Hsome).
Defined.

Lemma well_typed_example :
  exists item,
    table (run cache [CallInitializeRecord "u1" "a1";
                      CallUpdateProgress "u1" "a1" "thumbnails" true]
               (mkWorld ∅ [] (clock empty_world) 0)) !! ("u1", "a1") = Some item /\
    primary_key item = Some ("u1", "a1") /\ well_typed item.
Proof.
  eexists. split; [reflexivity|].
  apply (reachable_records_are_well_typed cache
           [CallInitializeRecord "u1" "a1"; CallUpdateProgress "u1" "a1" "thumbnails" true]
           [] (clock empty_world) 0 ("u1", "a1")).
  reflexivity.
Defined.

Lemma encoder_tags_example :
  exists m,
    convertToMapAttribute (JObj sample_fields) = Return m /\
    encoded (AttrM m) /\
    forall l, get_path ["chapters"] m <> Some (AttrL l).
Proof.
  eexists. split; [reflexivity|].
  destruct (encoder_writes_scalars_and_maps_only (JObj sample_fields) _ eq_refl)
    as (Hm & Hpaths).
  split; [exact Hm|]. intros l Hl.
  destruct (Hpaths ["chapters"] (AttrL l) Hl) as (_ & Hlist & _). by apply (Hlist l).
Defined.

Lemma scalar_data_example :
  exists item,
    UPDATE_PATHS !! "metadata.content" = Some ["metadata"; "content"] /\
    (typeof (JNum 5%Z) = TBoolean \/ typeof (JNum 5%Z) = TNumber) /\
    table stored_world !! ("u1", "a1") = Some item /\ initialized item /\
    (updateMetadata cache "u1" "a1" "metadata.content" (JNum 5%Z) stored_world).1
      = Return true.
Proof.
  destruct first_record as (item & Hitem & Hinit).
  assert (UPDATE_PATHS !! "metadata.content" = Some ["metadata"; "content"]) as Hp
    by reflexivity.
  assert (typeof (JNum 5%Z) = TBoolean \/ typeof (JNum 5%Z) = TNumber) as Hty by by right.
  exists item. split; [exact Hp|]. split; [exact Hty|]. split; [exact Hitem|].
  split; [exact Hinit|].
  exact (proj1 (scalar_data_empties_the_leaf cache "u1" "a1" "metadata.content"
                  ["metadata"; "content"] (JNum 5%Z) stored_world item Hp Hty Hitem Hinit)).
Defined.

Lemma createUpdateCommand_example :
  UPDATE_PATHS !! "validation.stream" = Some ["metadata"; "validation"; "stream"] /\
  convertToMapAttribute quality_data = Return (object [("score", AttrN "9")]) /\
  exists params actions,
    createUpdateCommand "validation.stream" quality_data = Return params /\
    parse_update (UpdateExpression params) = Some actions /\
    mapM (resolve_action (ExpressionAttributeNames params)
                         (ExpressionAttributeValues params)) actions
      = Some [(["metadata"; "validation"; "stream"],
               AttrM (object [("score", AttrN "9")]))].
Proof.
  assert (UPDATE_PATHS !! "validation.stream" = Some ["metadata"; "validation"; "stream"])
    as Hp by reflexivity.
  assert (convertToMapAttribute quality_data = Return (object [("score", AttrN "9")]))
    as Hd by reflexivity.
  split; [exact Hp|]. split; [exact Hd|].
  destruct (createUpdateCommand_addresses_the_registered_path "validation.stream"
              ["metadata"; "validation"; "stream"] quality_data _ Hp Hd)
    as (params & actions & Hparams & Hparse & Hresolve & _).
  exists params, actions. split; [exact Hparams|]. split; [exact Hparse | exact Hresolve].
Defined.

End StoreExamples.

End StoreFacts.

(* ===================================================================== *)
(** * Properties of the upload keys *)
(* ===================================================================== *)

Module UploadKeyFacts.
Import UploadService UploadServiceFacts.

Lemma length_append (s1 s2 : string) :
  String.length (s1 +:+ s2) = String.length s1 + String.length s2.
Proof. induction s1 as [|c s1 IH]; [done|]. rewrite append_String. cbn. by rewrite IH. Qed.

Lemma append_assoc (s1 s2 s3 : string) : (s1 +:+ s2) +:+ s3 = s1 +:+ (s2 +:+ s3).
Proof. induction s1 as [|c s1 IH]; [done|]. rewrite !append_String. by rewrite IH. Qed.

(** Strings that end in suffixes of one length end in the same suffix when
    they are equal. *)
Lemma append_suffix_inj (a b u v : string) :
  String.length u = String.length v -> a +:+ u = b +:+ v -> u = v.
Proof.
  intros Hlen. revert b. induction a as [|c a IH]; intros [|d b] Heq.
  - done.
  - rewrite append_empty in Heq. subst u. rewrite length_append in Hlen. cbn in Hlen. lia.
  - rewrite append_empty in Heq. subst v. rewrite length_append in Hlen. cbn in Hlen. lia.
  - rewrite !append_String in Heq. injection Heq as _ Heq. by eapply IH.
Qed.

Lemma length_substring_0 n (s : string) :
  String.length (String.substring 0 n s) = Nat.min n (String.length s).
Proof.
  revert s. induction n as [|n IH]; intros [|c s]; cbn; try done. by rewrite IH.
Qed.

Lemma substring_0_prefix n (s : string) :
  exists rest, s = String.substring 0 n s +:+ rest.
Proof.
  revert s. induction n as [|n IH]; intros [|c s]; cbn [String.substring].
  - by exists EmptyString.
  - by exists (String c s).
  - by exists EmptyString.
  - destruct (IH s) as [rest Hrest]. exists rest. rewrite append_String. by rewrite <- Hrest.
Qed.

Lemma interval_cases (P : Z -> Prop) (lo : Z) (n : nat) :
  (forall i, i < n -> P (lo + Z.of_nat i)%Z) ->
  forall z, (lo <= z < lo + Z.of_nat n)%Z -> P z.
Proof.
  intros Hall z Hz. replace z with (lo + Z.of_nat (Z.to_nat (z - lo)))%Z by lia.
  apply Hall. lia.
Qed.

(** The month and day segments: two decimal digits that read back as the
    number. *)
Lemma two_digits (z : Z) :
  (1 <= z < 100)%Z ->
  String.length (padStart 2 "0" (pretty z)) = 2 /\
  all_units is_decimal_digit (padStart 2 "0" (pretty z)) = true /\
  parseInt (padStart 2 "0" (pretty z)) 10 = Num z.
Proof.
  revert z. apply (interval_cases _ 1 99). intros i Hi.
  do 99 (destruct i as [|i]; [by vm_compute|]). lia.
Qed.

Lemma pretty_four_digits (z : Z) :
  (1000 <= z <= 9999)%Z -> String.length (pretty z) = 4.
Proof.
  intros Hz. destruct z as [|p|p]; try lia.
  unfold pretty, pretty_Z, pretty, pretty_positive, pretty, pretty_N.
  rewrite decide_False by done.
  set (x := N.pos p). assert (1000 <= x <= 9999)%N as Hx by lia. clearbody x.
  assert (0 < x / 10)%N by (apply N.div_str_pos; lia).
  assert (0 < x / 10 / 10)%N
    by (rewrite N.Div0.div_div; apply N.div_str_pos; lia).
  assert (0 < x / 10 / 10 / 10)%N
    by (rewrite !N.Div0.div_div; apply N.div_str_pos; lia).
  assert (x / 10 / 10 / 10 / 10 = 0)%N as Hzero
    by (rewrite !N.Div0.div_div; apply N.div_small; lia).
  rewrite 4!pretty_N_go_step by (done || lia).
  rewrite Hzero, pretty_N_go_0. reflexivity.
Qed.

Section Keys.
Variable sha256_hex : string -> string.

(** X15.  The layout of a key.  For the month and the day of a date,
    [generateKey] returns year/month/day/userId/hash-uuid where the month
    and the day are two decimal digits that read back, in base ten, as the
    month counted from one and the day; the hash is the first eight code
    units of the digest of userId-timestamp-uuid, or all of a shorter
    digest; a year from 1000 to 9999 takes four code units. *)
Theorem generateKey_layout env userId :
  (0 <= UTCMonth env <= 11)%Z -> (1 <= UTCDate env <= 31)%Z ->
  let month := padStart 2 "0" (pretty (UTCMonth env + 1)%Z) in
  let day := padStart 2 "0" (pretty (UTCDate env)) in
  let digest := sha256_hex (userId +:+ "-" +:+ pretty (Date_now env)
                              +:+ "-" +:+ randomUUID env) in
  let hash := String.substring 0 8 digest in
  generateKey sha256_hex env userId =
    pretty (UTCFullYear env) +:+ "/" +:+ month +:+ "/" +:+ day +:+ "/" +:+ userId
      +:+ "/" +:+ hash +:+ "-" +:+ randomUUID env /\
  String.length month = 2 /\ String.length day = 2 /\
  all_units is_decimal_digit month = true /\ all_units is_decimal_digit day = true /\
  parseInt month 10 = Num (UTCMonth env + 1) /\ parseInt day 10 = Num (UTCDate env) /\
  (exists rest, digest = hash +:+ rest) /\
  String.length hash = Nat.min 8 (String.length digest) /\
  ((1000 <= UTCFullYear env <= 9999)%Z -> String.length (pretty (UTCFullYear env)) = 4).
Proof.
  intros Hmonth Hday month day digest hash.
  destruct (two_digits (UTCMonth env + 1)) as (Hm1 & Hm2 & Hm3); [lia|].
  destruct (two_digits (UTCDate env)) as (Hd1 & Hd2 & Hd3); [lia|].
  split; [reflexivity|].
  repeat split; try assumption.
  - apply substring_0_prefix.
  - apply length_substring_0.
  - apply pretty_four_digits.
Qed.

(** X16.  Keys are as distinct as the identifiers drawn for them: two
    keys made with identifiers of one length are equal only if the
    identifiers are, whatever the users, the dates and the digest. *)
Theorem generateKey_separates_uuids env1 env2 userId1 userId2 :
  String.length (randomUUID env1) = String.length (randomUUID env2) ->
  generateKey sha256_hex env1 userId1 = generateKey sha256_hex env2 userId2 ->
  randomUUID env1 = randomUUID env2.
Proof.
  intros Hlen Hkey. unfold generateKey in Hkey.
  rewrite <- !append_assoc in Hkey.
  by eapply append_suffix_inj.
Qed.

End Keys.

Lemma generateKey_layout_example :
  (0 <= UTCMonth sample_env <= 11)%Z /\ (1 <= UTCDate sample_env <= 31)%Z /\
  generateKey sample_digest sample_env "u1"
    = "2024/05/01/u1/9f86d081-123e4567-e89b-42d3-a456-426614174000" /\
  parseInt "05" 10 = Num 5.
Proof.
  assert (0 <= UTCMonth sample_env <= 11)%Z as Hmonth by (cbn; lia).
  assert (1 <= UTCDate sample_env <= 31)%Z as Hday by (cbn; lia).
  split; [exact Hmonth|]. split; [exact Hday|].
  destruct (generateKey_layout sample_digest sample_env "u1" Hmonth Hday)
    as (Hkey & _ & _ & _ & _ & Hm & _).
  split; [exact Hkey | exact Hm].
Defined.

Lemma generateKey_separates_uuids_example :
  String.length (randomUUID sample_env) = String.length (randomUUID sample_env) /\
  generateKey sample_digest sample_env "u1" = generateKey sample_digest sample_env "u1" /\
  randomUUID sample_env = randomUUID sample_env.
Proof.
  split; [reflexivity|]. split; [reflexivity|].
  exact (generateKey_separates_uuids sample_digest sample_env sample_env "u1" "u1"
           eq_refl eq_refl).
Defined.
End UploadKeyFacts.

(* ===================================================================== *)
(** * Properties of the authentication handler *)
(* ===================================================================== *)

Module AuthHandlerFacts.
Import AuthHandler.

Section Handler.
Context `{Collaborators}.
#[local] Existing Instance Outcome_ret.
#[local] Existing Instance Outcome_bind.
#[local] Existing Instance Async_ret.
#[local] Existing Instance Async_bind.

Lemma executionFunctionMap_lookup p f :
  executionFunctionMap !! p = Some f ->
  (p, f) ∈ [ ("/v1/auth/signup", signupFunc); ("/v1/auth/login", loginFunc);
             ("/v1/auth/logout", logoutFunc);
             ("/v1/auth/forget-password", forgetPasswordFunc);
             ("/v1/auth/forget-password/confirm", confirmForgetPasswordFunc);
             ("/v1/auth/session/refresh", refreshSessionFunc) ].
Proof.
  unfold executionFunctionMap, object. cbn [foldl fst snd]. intros Hl.
  repeat (rewrite lookup_insert in Hl; case_decide;
          [injection Hl as <-; subst p; set_solver|]).
  by rewrite lookup_empty in Hl.
Qed.

Lemma executionFunctionMap_routed p :
  is_Some (executionFunctionMap !! p) <-> p ∈ routed_paths.
Proof.
  split.
  - intros [f Hf]. apply executionFunctionMap_lookup in Hf.
    unfold routed_paths. rewrite !elem_of_cons, elem_of_nil in Hf.
    rewrite !elem_of_cons, elem_of_nil.
    destruct Hf as [Hf|[Hf|[Hf|[Hf|[Hf|[Hf|[]]]]]]]; injection Hf as -> _; tauto.
  - unfold routed_paths. rewrite !elem_of_cons, elem_of_nil.
    intros [->|[->|[->|[->|[->|[->|[]]]]]]]; eexists; reflexivity.
Qed.


(** What a route does, read off the six functions at once: it validates
    [fields]; after a validation that succeeded it reads the arguments of
    one call of [authService] from the request and awaits that call; it
    rejects with [refusal], when there is one, on an answer that is not
    truthy, and returns its [text], with the answer as [data] or without. *)
Lemma route_shape p f :
  executionFunctionMap !! p = Some f ->
  exists (fields : list ValidationField) (arguments : IRequest -> Outcome Failure AuthCall)
         (refusal : option CustomError) (with_data : bool) (text : string),
    (forall request w,
       f request w =
       match validate request fields with
       | Throws t => (Throws t, w)
       | Returns validationResult =>
           if validation_success validationResult then
             match arguments request with
             | Throws t => (Throws t, w)
             | Returns call =>
                 match authService call (pool w) with
                 | (Throws t, pool') =>
                     (Throws t, mkAuthWorld pool' (service_calls w ++ [call])%list)
                 | (Returns a, pool') =>
                     (match refusal with
                      | Some e =>
                          if truthy a
                          then Returns {| success := true; message := text;
                                          data := if with_data then Some a else None |}
                          else Throws (ThrownCustomError e)
                      | None => Returns {| success := true; message := text; data := None |}
                      end,
                      mkAuthWorld pool' (service_calls w ++ [call])%list)
                 end
             end
           else (Throws (validation_error validationResult), w)
       end) /\
    (forall request t, arguments request = Throws t ->
       t = ThrownTypeError /\ (body request = JNull \/ body request = JUndefined)) /\
    (forall e, refusal = Some e ->
       error_name e = INTERNAL_ERROR /\
       (error_statusCode e = 500%Z /\ error_fault e = SERVER /\ p <> "/v1/auth/login" \/
        error_statusCode e = 401%Z /\ error_fault e = CLIENT /\ p = "/v1/auth/login")) /\
    (refusal = None <-> p = "/v1/auth/logout") /\
    (with_data = true <->
     p ∈ ["/v1/auth/login"; "/v1/auth/forget-password"; "/v1/auth/session/refresh"]) /\
    fields = validated_fields p.
Proof.
  intros Hf. apply executionFunctionMap_lookup in Hf.
  rewrite !elem_of_cons, elem_of_nil in Hf.
  destruct Hf as [Hf|[Hf|[Hf|[Hf|[Hf|[Hf|[]]]]]]]; injection Hf as -> ->.
  - exists [REQUEST_BODY; EMAIL; PASSWORD],
      (fun request => email ← destructure (body request) "email";
                      password ← destructure (body request) "password";
                      Returns (createUser email password)),
      (Some {| error_name := INTERNAL_ERROR;
               error_message := "Signup Failed,Try Again Later!";
               error_statusCode := 500; error_fault := SERVER; error_flag := true |}),
      false, "Signup Successful".
    (split; [|split; [|split; [|split; [|split]]]]); [| | | | | reflexivity].
    + intros request w. unfold signupFunc, mbind, Async_bind, sync, throw, await.
      destruct (validate request _) as [vr|t]; [|done].
      destruct (validation_success vr); cbn [negb]; [|done].
      destruct (body request); cbn [destructure Outcome_bind]; try done;
        destruct (authService _ _) as [[a|t] pool']; cbn [fst snd]; try done;
        by destruct (truthy a).
    + intros request t. destruct (body request); cbn; intros [=]; auto.
    + intros e [= <-]. cbn. split; [done|]. left. done.
    + split; discriminate.
    + rewrite !elem_of_cons, elem_of_nil. split; [done|]. by intros [|[|[|[]]]].
  - exists [REQUEST_BODY; EMAIL; PASSWORD],
      (fun request => email ← destructure (body request) "email";
                      password ← destructure (body request) "password";
                      Returns (login email password)),
      (Some {| error_name := INTERNAL_ERROR;
               error_message := "Login failed, Try again";
               error_statusCode := 401; error_fault := CLIENT; error_flag := true |}),
      true, "Login, Successful!".
    (split; [|split; [|split; [|split; [|split]]]]); [| | | | | reflexivity].
    + intros request w. unfold loginFunc, mbind, Async_bind, sync, throw, await.
      destruct (validate request _) as [vr|t]; [|done].
      destruct (validation_success vr); cbn [negb]; [|done].
      destruct (body request); cbn [destructure Outcome_bind]; try done;
        destruct (authService _ _) as [[a|t] pool']; cbn [fst snd]; try done;
        by destruct (truthy a).
    + intros request t. destruct (body request); cbn; intros [=]; auto.
    + intros e [= <-]. cbn. split; [done|]. right. done.
    + split; discriminate.
    + rewrite !elem_of_cons. split; [by left | done].
  - exists [REQUEST_HEADERS; ACCESS_TOKEN],
      (fun request => Returns (logout (slice 7 <$> x_access_token (headers request)))),
      None, false, "Logged out successfully".
    (split; [|split; [|split; [|split; [|split]]]]); [| | | | | reflexivity].
    + intros request w. unfold logoutFunc, mbind, Async_bind, sync, throw, await.
      destruct (validate request _) as [vr|t]; [|done].
      destruct (validation_success vr); cbn [negb]; [|done].
      by destruct (authService _ _) as [[a|t] pool'].
    + intros request t. discriminate.
    + intros e. discriminate.
    + done.
    + rewrite !elem_of_cons, elem_of_nil. split; [done|]. by intros [|[|[|[]]]].
  - exists [REQUEST_BODY; EMAIL],
      (fun request => email ← destructure (body request) "email";
                      Returns (forgetPassword email)),
      (Some {| error_name := INTERNAL_ERROR;
               error_message := "Unable to reset Password";
               error_statusCode := 500; error_fault := SERVER; error_flag := false |}),
      true, "Reset code sent successfully".
    (split; [|split; [|split; [|split; [|split]]]]); [| | | | | reflexivity].
    + intros request w. unfold forgetPasswordFunc, mbind, Async_bind, sync, throw, await.
      destruct (validate request _) as [vr|t]; [|done].
      destruct (validation_success vr); cbn [negb]; [|done].
      destruct (body request); cbn [destructure Outcome_bind]; try done;
        destruct (authService _ _) as [[a|t] pool']; cbn [fst snd]; try done;
        by destruct (truthy a).
    + intros request t. destruct (body request); cbn; intros [=]; auto.
    + intros e [= <-]. cbn. split; [done|]. left. done.
    + split; discriminate.
    + rewrite !elem_of_cons. split; [by right; left | done].
  - exists [REQUEST_BODY; EMAIL; PASSWORD; OTP],
      (fun request => email ← destructure (body request) "email";
                      answer ← destructure (body request) "answer";
                      password ← destructure (body request) "password";
                      Returns (confirmForgetPassword email password answer)),
      (Some {| error_name := INTERNAL_ERROR;
               error_message := "Password Reset Failed";
               error_statusCode := 500; error_fault := SERVER; error_flag := false |}),
      false, "Password reset successfully".
    (split; [|split; [|split; [|split; [|split]]]]); [| | | | | reflexivity].
    + intros request w.
      unfold confirmForgetPasswordFunc, mbind, Async_bind, sync, throw, await.
      destruct (validate request _) as [vr|t]; [|done].
      destruct (validation_success vr); cbn [negb]; [|done].
      destruct (body request); cbn [destructure Outcome_bind]; try done;
        destruct (authService _ _) as [[a|t] pool']; cbn [fst snd]; try done;
        by destruct (truthy a).
    + intros request t. destruct (body request); cbn; intros [=]; auto.
    + intros e [= <-]. cbn. split; [done|]. left. done.
    + split; discriminate.
    + rewrite !elem_of_cons, elem_of_nil. split; [done|]. by intros [|[|[|[]]]].
  - exists [REQUEST_BODY; REFRESH_TOKEN],
      (fun request => token ← destructure (body request) "refreshToken";
                      Returns (refreshToken token)),
      (Some {| error_name := INTERNAL_ERROR;
               error_message := "Session Refresh Failed";
               error_statusCode := 500; error_fault := SERVER; error_flag := false |}),
      true, "Session Refresh Successful".
    (split; [|split; [|split; [|split; [|split]]]]); [| | | | | reflexivity].
    + intros request w. unfold refreshSessionFunc, mbind, Async_bind, sync, throw, await.
      destruct (validate request _) as [vr|t]; [|done].
      destruct (validation_success vr); cbn [negb]; [|done].
      destruct (body request); cbn [destructure Outcome_bind]; try done;
        destruct (authService _ _) as [[a|t] pool']; cbn [fst snd]; try done;
        by destruct (truthy a).
    + intros request t. destruct (body request); cbn; intros [=]; auto.
    + intros e [= <-]. cbn. split; [done|]. left. done.
    + split; discriminate.
    + rewrite !elem_of_cons. split; [by right; right; left | done].
Qed.


(** What [executionFunctionMap[path]] finds. *)
Lemma member_routed p f : executionFunctionMap !! p = Some f -> member p = OwnRoute f.
Proof. intros Hf. unfold member. by rewrite Hf. Qed.

Lemma member_none p :
  p ∉ routed_paths -> p ∉ Object_prototype_names -> member p = NoMember.
Proof.
  intros Hrouted Hinherited. unfold member.
  destruct (executionFunctionMap !! p) as [f|] eqn:Hf.
  { exfalso. apply Hrouted, executionFunctionMap_routed. by eexists. }
  destruct (String.eqb_spec p "constructor") as [->|_].
  { exfalso. apply Hinherited. unfold Object_prototype_names. rewrite !elem_of_cons. tauto. }
  destruct (String.eqb_spec p "toString") as [->|_].
  { exfalso. apply Hinherited. unfold Object_prototype_names. rewrite !elem_of_cons. tauto. }
  by rewrite bool_decide_eq_false_2.
Qed.

(** A path is the name of at most one member, its own or inherited. *)
Lemma routed_paths_not_inherited p : p ∈ routed_paths -> p ∉ Object_prototype_names.
Proof.
  intros Hp Hname. unfold routed_paths in Hp. unfold Object_prototype_names in Hname.
  rewrite !elem_of_cons, elem_of_nil in Hp. rewrite !elem_of_cons, elem_of_nil in Hname.
  destruct Hp as [->|[->|[->|[->|[->|[->|[]]]]]]];
    repeat (destruct Hname as [Hname|Hname]; [discriminate Hname|]); done.
Qed.

(** The handler, by the places where it can leave its [try] block. *)
Lemma authHandler_run event w :
  authHandler event w =
  match member (path event) with
  | NoMember => catch_block (no_mapping (path event)) w
  | found =>
      match request_of event with
      | Throws t => catch_block t w
      | Returns request =>
          match call_member found request w with
          | (Returns payload, w') =>
              match JSON_stringify payload with
              | Returns text =>
                  (Returns {| result_statusCode := 200; result_body := text |}, w')
              | Throws t => catch_block t w'
              end
          | (Throws t, w') => catch_block t w'
          end
      end
  end.
Proof.
  unfold authHandler, try_catch, mbind, Async_bind, sync, throw.
  destruct (member (path event)) as [f| | | |]; cbn [mret Async_ret]; try done.
  all: destruct (request_of event) as [request|t]; [|done].
  all: destruct (call_member _ request w) as [[payload|t] w']; [|done].
  all: by destruct (JSON_stringify payload).
Qed.

Lemma catch_block_run error w :
  catch_block error w =
  (match exceptionHandlerFunction error with
   | Returns errorResponse =>
       match JSON_stringify (ErrorPayload (errorMessage errorResponse)
                                          (metadata errorResponse)) with
       | Returns text =>
           Returns {| result_statusCode := statusCode errorResponse; result_body := text |}
       | Throws t => Throws t
       end
   | Throws t => Throws t
   end, w).
Proof.
  unfold catch_block, mbind, Async_bind, sync.
  destruct (exceptionHandlerFunction error) as [errorResponse|t]; [|done].
  by destruct (JSON_stringify _).
Qed.

Lemma catch_block_world error w : (catch_block error w).2 = w.
Proof. by rewrite catch_block_run. Qed.

Lemma catch_block_outcome error w w' : (catch_block error w).1 = (catch_block error w').1.
Proof. by rewrite !catch_block_run. Qed.

(** A path that names a member inherited from [Object.prototype] is not
    answered with the 404 of a missing mapping: the member is called with
    the request.  [constructor] returns the request, [toString] a string,
    and both are answered with status 200; the call of any other member
    raises a TypeError, after the body was parsed. *)
Lemma inherited_member_is_called event w :
  path event ∈ Object_prototype_names ->
  authHandler event w =
  match request_of event with
  | Throws t => catch_block t w
  | Returns request =>
      if String.eqb (path event) "constructor" then
        match JSON_stringify (RequestPayload request) with
        | Returns text => (Returns {| result_statusCode := 200; result_body := text |}, w)
        | Throws t => catch_block t w
        end
      else if String.eqb (path event) "toString" then
        match JSON_stringify (TextPayload "[object Undefined]") with
        | Returns text => (Returns {| result_statusCode := 200; result_body := text |}, w)
        | Throws t => catch_block t w
        end
      else catch_block ThrownTypeError w
  end.
Proof.
  intros Hname. rewrite authHandler_run. unfold member.
  destruct (executionFunctionMap !! path event) as [f|] eqn:Hf.
  { exfalso. eapply routed_paths_not_inherited; [|exact Hname].
    apply executionFunctionMap_routed. by eexists. }
  destruct (String.eqb (path event) "constructor"); [done|].
  destruct (String.eqb (path event) "toString"); [done|].
  rewrite bool_decide_eq_true_2 by done.
  by destruct (request_of event).
Qed.

(** X17.  The handler converts every exception of a route.  On a routed
    path it answers with status 200 and the serialized response of the
    route of that path; the exception of [JSON.parse], of the route, or of
    serializing the response goes to the [catch] block, which answers with
    the status and the message [exceptionHandlerFunction] returns for that
    error.  The handler rejects only when the [catch] block does: when
    [exceptionHandlerFunction], or [JSON.stringify] there, throws. *)
Theorem authHandler_converts_every_exception event w f :
  executionFunctionMap !! path event = Some f ->
  (forall t, request_of event = Throws t -> authHandler event w = catch_block t w) /\
  (forall request, request_of event = Returns request ->
     authHandler event w =
     match f request w with
     | (Returns response, w') =>
         match JSON_stringify (ResponsePayload response) with
         | Returns text =>
             (Returns {| result_statusCode := 200; result_body := text |}, w')
         | Throws t => catch_block t w'
         end
     | (Throws t, w') => catch_block t w'
     end) /\
  (forall error w',
     catch_block error w' =
     (match exceptionHandlerFunction error with
      | Returns errorResponse =>
          match JSON_stringify (ErrorPayload (errorMessage errorResponse)
                                             (metadata errorResponse)) with
          | Returns text =>
              Returns {| result_statusCode := statusCode errorResponse;
                         result_body := text |}
          | Throws t => Throws t
          end
      | Throws t => Throws t
      end, w')) /\
  (forall t, (authHandler event w).1 = Throws t ->
     exists error, (catch_block error w).1 = Throws t).
Proof.
  intros Hf.
  assert (forall request, request_of event = Returns request ->
            authHandler event w =
            match f request w with
            | (Returns response, w') =>
                match JSON_stringify (ResponsePayload response) with
                | Returns text =>
                    (Returns {| result_statusCode := 200; result_body := text |}, w')
                | Throws t => catch_block t w'
                end
            | (Throws t, w') => catch_block t w'
            end) as Hrun.
  { intros request Hrequest. rewrite authHandler_run, (member_routed _ _ Hf), Hrequest.
    unfold call_member, mbind, Async_bind.
    by destruct (f request w) as [[response|t] w']. }
  split; [|split; [exact Hrun | split; [apply catch_block_run|]]].
  - intros t Hrequest. by rewrite authHandler_run, (member_routed _ _ Hf), Hrequest.
  - intros t. destruct (request_of event) as [request|t'] eqn:Hrequest.
    + rewrite (Hrun request eq_refl).
      destruct (f request w) as [[response|t'] w'].
      * destruct (JSON_stringify (ResponsePayload response)) as [text|t']; [discriminate|].
        intros Ht. exists t'. by rewrite (catch_block_outcome t' w w').
      * intros Ht. exists t'. by rewrite (catch_block_outcome t' w w').
    + rewrite authHandler_run, (member_routed _ _ Hf), Hrequest. intros Ht. by exists t'.
Qed.

(** X18.  A path that is neither one of the six routes nor the name of a
    member of [Object.prototype] is answered from the error
    [CustomError(INTERNAL_ERROR, "No Function Mapping Found For <path>",
    404, CLIENT, true)], handed to the [catch] block: the body is not
    parsed, nothing is validated, [authService] is not called, and the
    world is as before. *)
Theorem unrouted_path_is_answered_without_a_call event w :
  path event ∉ routed_paths -> path event ∉ Object_prototype_names ->
  authHandler event w =
  (match exceptionHandlerFunction
           (ThrownCustomError {| error_name := INTERNAL_ERROR;
                                 error_message :=
                                   "No Function Mapping Found For " +:+ path event;
                                 error_statusCode := 404;
                                 error_fault := CLIENT;
                                 error_flag := true |}) with
   | Returns errorResponse =>
       match JSON_stringify (ErrorPayload (errorMessage errorResponse)
                                          (metadata errorResponse)) with
       | Returns text =>
           Returns {| result_statusCode := statusCode errorResponse; result_body := text |}
       | Throws t => Throws t
       end
   | Throws t => Throws t
   end, w).
Proof.
  intros Hrouted Hinherited.
  by rewrite authHandler_run, member_none, catch_block_run.
Qed.

(** X19.  One event makes at most one call of [authService], and only on
    one of the six routes, after the body of the event was parsed and the
    validation of the request, for the fields of that route, succeeded: in
    every other case the world is as before. *)
Theorem service_is_called_once_and_after_validation event w :
  (authHandler event w).2 = w \/
  exists request validationResult call,
    path event ∈ routed_paths /\
    request_of event = Returns request /\
    validate request (validated_fields (path event)) = Returns validationResult /\
    validation_success validationResult = true /\
    (authHandler event w).2
      = mkAuthWorld (authService call (pool w)).2 (service_calls w ++ [call])%list.
Proof.
  rewrite authHandler_run. unfold member.
  destruct (executionFunctionMap !! path event) as [f|] eqn:Hf; cycle 1.
  { left.
    destruct (String.eqb (path event) "constructor");
      [| destruct (String.eqb (path event) "toString");
         [| destruct (bool_decide _); [|apply catch_block_world]]].
    all: destruct (request_of event) as [request|t]; [|apply catch_block_world].
    all: cbn [call_member mret Async_ret throw].
    all: try destruct (JSON_stringify _); by rewrite ?catch_block_world. }
  destruct (request_of event) as [request|t] eqn:Hrequest;
    [| left; apply catch_block_world].
  destruct (route_shape _ _ Hf) as (fields & arguments & refusal & with_data & text
                                    & Hrun & _ & _ & _ & _ & Hfields).
  unfold call_member, mbind, Async_bind. rewrite Hrun, Hfields.
  destruct (validate request _) as [vr|t] eqn:Hvalidate;
    [| left; apply catch_block_world].
  destruct (validation_success vr) eqn:Hsuccess;
    [| left; apply catch_block_world].
  destruct (arguments request) as [call|t];
    [| left; apply catch_block_world].
  right. exists request, vr, call.
  split; [apply executionFunctionMap_routed; by eexists|].
  do 3 (split; [done|]).
  destruct (authService call (pool w)) as [[a|t] pool']; cbn [fst snd];
    [| apply catch_block_world].
  destruct refusal as [e|]; [destruct (truthy a)|]; cbn [mret Async_ret];
    try apply catch_block_world.
  all: destruct (JSON_stringify _); by rewrite ?catch_block_world.
Qed.

(** X20.  The request passed to the routes.  It carries [authorization]
    and [x-access-token] only: each is the value of the capitalized header
    of the event when that is a non-empty string, else the value of the
    lower-case one when that is non-empty, else it is not defined.  The
    body is [undefined] for an event without body or with an empty one,
    and what [JSON.parse] returns otherwise; the only exception is the
    SyntaxError of [JSON.parse].  No other header of the event is read. *)
Theorem request_carries_two_normalised_headers event :
  (forall request, request_of event = Returns request ->
     (forall s, authorization (headers request) = Some s <->
        s <> EmptyString /\
        (event_headers event !! "Authorization" = Some s \/
         truthy_header (event_headers event !! "Authorization") = false /\
         event_headers event !! "authorization" = Some s)) /\
     (forall s, x_access_token (headers request) = Some s <->
        s <> EmptyString /\
        (event_headers event !! "X-Access-Token" = Some s \/
         truthy_header (event_headers event !! "X-Access-Token") = false /\
         event_headers event !! "x-access-token" = Some s)) /\
     (truthy_header (event_body event) = false -> body request = JUndefined) /\
     (forall text, event_body event = Some text -> text <> EmptyString ->
        JSON_parse text = Some (body request))) /\
  (forall t, request_of event = Throws t ->
     t = ThrownSyntaxError /\
     exists text, event_body event = Some text /\ text <> EmptyString /\
                  JSON_parse text = None) /\
  (forall p' h',
     (forall k, k ∈ ["Authorization"; "authorization"; "X-Access-Token"; "x-access-token"] ->
                h' !! k = event_headers event !! k) ->
     request_of {| path := p'; event_headers := h'; event_body := event_body event |}
     = request_of event).
Proof.
  assert (forall (a b : option string) s,
            spread_when_truthy (logical_or a b) = Some s <->
            s <> EmptyString /\ (a = Some s \/ truthy_header a = false /\ b = Some s))
    as Hheader.
  { intros a b s. unfold spread_when_truthy, logical_or.
    destruct a as [x|], b as [y|]; cbn [truthy_header];
      repeat match goal with
             | |- context [String.eqb ?x EmptyString] =>
                 destruct (String.eqb_spec x EmptyString); subst; cbn [negb truthy_header]
             end;
      split; try (intros [= <-]); try (intros (? & [[= <-] | [? [= <-]]])); try done;
      try (split; [done|]); try (by left); try (by right);
      try discriminate; try (by intros [? [[=]|[? [=]]]]). }
  split; [|split].
  - intros request. unfold request_of.
    destruct (event_body event) as [text|] eqn:Hbody; cbn [truthy_header].
    + destruct (String.eqb_spec text EmptyString) as [->|Hne]; cbn [negb].
      * intros [= <-]. cbn [headers body authorization x_access_token].
        split; [apply Hheader|]. split; [apply Hheader|]. split; [done|].
        by intros text [= <-].
      * destruct (JSON_parse text) as [value|] eqn:Hparse; [|discriminate].
        intros [= <-]. cbn [headers body authorization x_access_token].
        split; [apply Hheader|]. split; [apply Hheader|]. split; [done|].
        by intros text' [= <-].
    + intros [= <-]. cbn [headers body authorization x_access_token].
      split; [apply Hheader|]. split; [apply Hheader|]. split; [done|]. done.
  - intros t. unfold request_of.
    destruct (event_body event) as [text|]; cbn [truthy_header]; [|discriminate].
    destruct (String.eqb_spec text EmptyString) as [->|Hne]; cbn [negb]; [discriminate|].
    destruct (JSON_parse text) as [value|] eqn:Hparse; [discriminate|].
    intros [= <-]. split; [done|]. by exists text.
  - intros p' h' Hagree. unfold request_of. cbn [event_headers event_body].
    rewrite !Hagree by (rewrite !elem_of_cons; tauto). done.
Qed.

Lemma slice_append prefix token :
  slice (String.length prefix) (prefix +:+ token) = token.
Proof. induction prefix as [|c prefix IH]; [by destruct token | exact IH]. Qed.

(** X21.  After a validation that succeeded, [logoutFunc] calls
    [authService.logout] once, with the [x-access-token] of the request
    without its first seven code units, whatever they are, and returns its
    response whatever the call resolves to. *)
Theorem logout_drops_seven_code_units request w validationResult :
  validate request [REQUEST_HEADERS; ACCESS_TOKEN] = Returns validationResult ->
  validation_success validationResult = true ->
  service_calls (logoutFunc request w).2
    = (service_calls w ++ [logout (slice 7 <$> x_access_token (headers request))])%list /\
  (forall prefix token,
     x_access_token (headers request) = Some (prefix +:+ token) ->
     String.length prefix = 7 ->
     service_calls (logoutFunc request w).2 = (service_calls w ++ [logout (Some token)])%list) /\
  (forall a pool',
     authService (logout (slice 7 <$> x_access_token (headers request))) (pool w)
       = (Returns a, pool') ->
     (logoutFunc request w).1
       = Returns {| success := true; message := "Logged out successfully"; data := None |}).
Proof.
  intros Hvalidate Hsuccess.
  assert (forall call, call = logout (slice 7 <$> x_access_token (headers request)) ->
            logoutFunc request w =
            (match (authService call (pool w)).1 with
             | Returns _ => Returns {| success := true; message := "Logged out successfully";
                                       data := None |}
             | Throws t => Throws t
             end,
             mkAuthWorld (authService call (pool w)).2 (service_calls w ++ [call])%list))
    as Hrun.
  { intros call ->. unfold logoutFunc, mbind, Async_bind, sync, throw, await.
    rewrite Hvalidate, Hsuccess. cbn [negb].
    by destruct (authService _ _) as [[a|t] pool']. }
  rewrite (Hrun _ eq_refl). cbn [fst snd service_calls].
  split; [done|]. split.
  - intros prefix token -> Hlen. cbn [fmap option_fmap option_map].
    by rewrite <- Hlen, slice_append.
  - intros a pool' ->. done.
Qed.

(** X22.  The errors of the routes.  A [CustomError] with which a route
    rejects is the validation error (status 400, fault of the client,
    carrying the message of the validator, the world as before), or the
    internal error raised after a call of [authService] resolved to a
    value that is not truthy (status 401 and fault of the client for
    login, status 500 and fault of the server for the others, never for
    logout), or was thrown by a collaborator. *)
Theorem routes_raise_two_kinds_of_CustomError p f request w e :
  executionFunctionMap !! p = Some f ->
  (f request w).1 = Throws (ThrownCustomError e) ->
  (exists fields validationResult,
     validate request fields = Returns validationResult /\
     validation_success validationResult = false /\
     e = {| error_name := VALIDATION_ERROR;
            error_message := validation_message validationResult;
            error_statusCode := 400; error_fault := CLIENT; error_flag := true |} /\
     (f request w).2 = w) \/
  (exists call a,
     service_calls (f request w).2 = (service_calls w ++ [call])%list /\
     (authService call (pool w)).1 = Returns a /\ truthy a = false /\
     error_name e = INTERNAL_ERROR /\ p <> "/v1/auth/logout" /\
     (error_statusCode e = 500%Z /\ error_fault e = SERVER /\ p <> "/v1/auth/login" \/
      error_statusCode e = 401%Z /\ error_fault e = CLIENT /\ p = "/v1/auth/login")) \/
  (exists fields, validate request fields = Throws (ThrownCustomError e)) \/
  (exists call, (authService call (pool w)).1 = Throws (ThrownCustomError e)).
Proof.
  intros Hf.
  destruct (route_shape _ _ Hf) as (fields & arguments & refusal & with_data & text
                                    & Hrun & Harg & Hrefusal & Hnone & _).
  rewrite Hrun.
  destruct (validate request fields) as [vr|t] eqn:Hvalidate; cbn [fst snd];
    [| intros [= ->]; right; right; left; by exists fields].
  destruct (validation_success vr) eqn:Hsuccess; cbn [fst snd];
    [| intros [= <-]; left; by exists fields, vr].
  destruct (arguments request) as [call|t] eqn:Hcall; cbn [fst snd];
    [| intros [= ->]; by destruct (Harg _ _ Hcall)].
  destruct (authService call (pool w)) as [[a|t] pool'] eqn:Hanswer; cbn [fst snd];
    [| intros [= ->]; right; right; right; exists call; by rewrite Hanswer].
  destruct refusal as [e'|]; [|discriminate].
  destruct (truthy a) eqn:Htruthy; [discriminate|]. intros [= <-].
  right. left. exists call, a. rewrite Hanswer. cbn [fst snd].
  destruct (Hrefusal e' eq_refl) as [Hname Hstatus].
  split; [done|]. split; [done|]. split; [done|]. split; [done|].
  split; [|exact Hstatus].
  intros Hp. by apply Hnone in Hp.
Qed.

(** X23.  A route that returns has made exactly one call of
    [authService], which resolved, to a truthy value except for logout;
    its response has [success] set, and carries that value as [data] for
    login, forget-password and session refresh, and no [data] for the
    other three. *)
Theorem routes_answer_after_one_call p f request w response :
  executionFunctionMap !! p = Some f ->
  (f request w).1 = Returns response ->
  success response = true /\
  exists call a,
    (f request w).2 = mkAuthWorld (authService call (pool w)).2
                                  (service_calls w ++ [call])%list /\
    (authService call (pool w)).1 = Returns a /\
    (p <> "/v1/auth/logout" -> truthy a = true) /\
    data response =
      (if bool_decide (p ∈ ["/v1/auth/login"; "/v1/auth/forget-password";
                            "/v1/auth/session/refresh"])
       then Some a else None).
Proof.
  intros Hf.
  destruct (route_shape _ _ Hf) as (fields & arguments & refusal & with_data & text
                                    & Hrun & Harg & Hrefusal & Hnone & Hdata & _).
  rewrite Hrun.
  destruct (validate request fields) as [vr|t]; [|discriminate].
  destruct (validation_success vr); [|discriminate].
  destruct (arguments request) as [call|t]; [|discriminate].
  destruct (authService call (pool w)) as [[a|t] pool'] eqn:Hanswer; [|discriminate].
  cbn [fst snd].
  destruct refusal as [e|] eqn:Hre.
  - destruct (truthy a) eqn:Htruthy; [|discriminate]. intros [= <-]. cbn [success data].
    split; [done|]. exists call, a. rewrite Hanswer. repeat split; try done.
    destruct with_data.
    + by rewrite bool_decide_eq_true_2 by by apply Hdata.
    + rewrite bool_decide_eq_false_2; [done|]. intros Hp. by apply Hdata in Hp.
  - intros [= <-]. cbn [success data].
    split; [done|]. exists call, a. rewrite Hanswer. repeat split; try done.
    + intros Hp. by destruct Hp; apply Hnone.
    + rewrite (proj1 Hnone eq_refl). rewrite bool_decide_eq_false_2; [done|].
      rewrite !elem_of_cons, elem_of_nil. by intros [|[|[|[]]]].
Qed.

End Handler.
(** ** The theorems at concrete inputs *)

Section HandlerExamples.
#[local] Existing Instance integer_numbers.
#[local] Existing Instance sample_collaborators.

Lemma converts_exception_example :
  executionFunctionMap !! "/v1/auth/signup" = Some signupFunc /\
  authHandler {| path := "/v1/auth/signup"; event_headers := ∅; event_body := Some "{}" |}
              no_calls
  = (Returns {| result_statusCode := 500;
                result_body := "Signup Failed,Try Again Later!" |},
     mkAuthWorld 1 [createUser JUndefined JUndefined]).
Proof.
  assert (executionFunctionMap !! "/v1/auth/signup" = Some signupFunc) as Hf by reflexivity.
  split; [exact Hf|].
  destruct (authHandler_converts_every_exception
              {| path := "/v1/auth/signup"; event_headers := ∅; event_body := Some "{}" |}
              no_calls signupFunc Hf) as (_ & Hrun & _).
  rewrite (Hrun {| headers := {| authorization := None; x_access_token := None |};
                   body := JObj [] |} eq_refl).
  reflexivity.
Defined.

Lemma unrouted_path_example :
  ("/v1/auth/profile" ∉ routed_paths) /\
  ("/v1/auth/profile" ∉ Object_prototype_names) /\
  authHandler {| path := "/v1/auth/profile"; event_headers := ∅; event_body := None |}
              no_calls
  = (Returns {| result_statusCode := 404;
                result_body := "No Function Mapping Found For /v1/auth/profile" |},
     no_calls).
Proof.
  assert ("/v1/auth/profile" ∉ routed_paths) as Hpath.
  { unfold routed_paths. rewrite !not_elem_of_cons.
    repeat split; [discriminate.. | apply not_elem_of_nil]. }
  assert ("/v1/auth/profile" ∉ Object_prototype_names) as Hname.
  { unfold Object_prototype_names. rewrite !not_elem_of_cons.
    repeat split; [discriminate.. | apply not_elem_of_nil]. }
  split; [exact Hpath|]. split; [exact Hname|].
  exact (unrouted_path_is_answered_without_a_call
           {| path := "/v1/auth/profile"; event_headers := ∅; event_body := None |}
           no_calls Hpath Hname).
Defined.

(** The handler on the two inherited members that return: the request, or
    a string, is answered with status 200. *)
Example inherited_members_answer_200 :
  authHandler {| path := "constructor"; event_headers := ∅; event_body := None |} no_calls
    = (Returns {| result_statusCode := 200; result_body := "[request]" |}, no_calls) /\
  authHandler {| path := "toString"; event_headers := ∅; event_body := None |} no_calls
    = (Returns {| result_statusCode := 200; result_body := "[object Undefined]" |},
       no_calls) /\
  authHandler {| path := "valueOf"; event_headers := ∅; event_body := None |} no_calls
    = (Returns {| result_statusCode := 500; result_body := "Internal Server Error" |},
       no_calls).
Proof. repeat split. Qed.

Lemma request_headers_example :
  exists request,
    request_of {| path := "/v1/auth/logout";
                  event_headers := object [("X-Access-Token", "Bearer abc");
                                           ("x-access-token", "Bearer xyz");
                                           ("authorization", EmptyString)];
                  event_body := Some "{}" |} = Returns request /\
    x_access_token (headers request) = Some "Bearer abc" /\
    authorization (headers request) = None.
Proof.
  eexists. split; [reflexivity|].
  destruct (request_carries_two_normalised_headers
              {| path := "/v1/auth/logout";
                 event_headers := object [("X-Access-Token", "Bearer abc");
                                          ("x-access-token", "Bearer xyz");
                                          ("authorization", EmptyString)];
                 event_body := Some "{}" |}) as (Hrequest & _).
  destruct (Hrequest _ eq_refl) as (Hauth & Htoken & _).
  split.
  - apply Htoken. split; [discriminate | by left].
  - reflexivity.
Defined.

Lemma logout_example :
  validate {| headers := {| authorization := None; x_access_token := Some "Bearer abc" |};
              body := JUndefined |} [REQUEST_HEADERS; ACCESS_TOKEN]
    = Returns {| validation_success := true; validation_message := "Invalid request" |} /\
  service_calls
    (logoutFunc {| headers := {| authorization := None;
                                 x_access_token := Some "Bearer abc" |};
                   body := JUndefined |} no_calls).2
  = [logout (Some "abc")].
Proof.
  split; [reflexivity|].
  destruct (logout_drops_seven_code_units
              {| headers := {| authorization := None; x_access_token := Some "Bearer abc" |};
                 body := JUndefined |} no_calls
              {| validation_success := true; validation_message := "Invalid request" |}
              eq_refl eq_refl) as (_ & Hprefix & _).
  exact (Hprefix "Bearer " "abc" eq_refl eq_refl).
Defined.

Lemma validation_error_example :
  executionFunctionMap !! "/v1/auth/signup" = Some signupFunc /\
  (signupFunc {| headers := {| authorization := None; x_access_token := None |};
                 body := JUndefined |} no_calls).1
    = Throws (ThrownCustomError
                {| error_name := VALIDATION_ERROR; error_message := "Invalid request";
                   error_statusCode := 400; error_fault := CLIENT; error_flag := true |}) /\
  (signupFunc {| headers := {| authorization := None; x_access_token := None |};
                 body := JUndefined |} no_calls).2 = no_calls.
Proof.
  assert (executionFunctionMap !! "/v1/auth/signup" = Some signupFunc) as Hf by reflexivity.
  split; [exact Hf|]. split; [reflexivity|].
  destruct (routes_raise_two_kinds_of_CustomError "/v1/auth/signup" signupFunc
              {| headers := {| authorization := None; x_access_token := None |};
                 body := JUndefined |} no_calls _ Hf eq_refl)
    as [(fields & vr & _ & _ & _ & Hworld) |
        [(call & a & _ & _ & _ & Hname & _) | [[fields Hthrown] | [call Hthrown]]]].
  - exact Hworld.
  - discriminate Hname.
  - discriminate Hthrown.
  - discriminate Hthrown.
Defined.

Lemma login_example :
  executionFunctionMap !! "/v1/auth/login" = Some loginFunc /\
  (loginFunc {| headers := {| authorization := None; x_access_token := None |};
                body := JObj [("email", JStr "a@b.c"); ("password", JStr "secret")] |}
             no_calls).1
    = Returns {| success := true; message := "Login, Successful!"; data := Some true |} /\
  Some true = Some true.
Proof.
  assert (executionFunctionMap !! "/v1/auth/login" = Some loginFunc) as Hf by reflexivity.
  split; [exact Hf|]. split; [reflexivity|].
  destruct (routes_answer_after_one_call "/v1/auth/login" loginFunc
              {| headers := {| authorization := None; x_access_token := None |};
                 body := JObj [("email", JStr "a@b.c"); ("password", JStr "secret")] |}
              no_calls _ Hf eq_refl) as (_ & call & a & _ & _ & _ & Hdata).
  reflexivity.
Defined.

End HandlerExamples.

End AuthHandlerFacts.
